(** * Pick'Em prediction optimizer: a shallow embedding and its properties

    The development follows [backend/src/optimizer.py] (class
    [PickEmOptimizer] and the module-level helpers
    [classify_match_safety] and [calculate_implied_win_rates]), the
    classifier and the mock feed of [backend/src/odds_ingestion.py]
    ([MatchClassificationService] and
    [OddsIngestionService._fetch_mock_data]), and the scenario comparison
    of [backend/src/routes/optimization.py] ([simulate_scenarios]).

    Modelling conventions.
    - Python floats are idealised as rationals ([Q]); the literals of the
      source ([0.5], [0.025], [9.0], ...) are the rationals they denote.
      The properties stated below are chosen so as not to depend on the
      idealisation: they speak of which values are compared, of counts, of
      orderings and of bounds that rounding preserves, and of values that
      are exact in binary floating point; a sum of shares is compared with
      1 only within [tolerance].
    - The global numpy generator is an explicit state: an infinite stream of
      draws from the half-open unit interval together with a read position.
    - Python exceptions are values of [exn]; a computation is a function from
      the state to a result and a new state.
    - Python sets and dicts keyed by match identifiers are [gset string] and
      [gmap string _]. *)

From Stdlib Require Import QArith Qminmax Qabs Lqa Sorted.
From stdpp Require Import gmap strings list fin_maps pretty.

Local Open Scope Z_scope.
Local Open Scope nat_scope.

(** ** Rational arithmetic with Python's comparison operators *)

Definition Qgtb (a b : Q) : bool := negb (Qle_bool a b).
Definition Qltb (a b : Q) : bool := negb (Qle_bool b a).
Definition Qgeb (a b : Q) : bool := Qle_bool b a.

(** [sum(xs)]: a left fold starting from [0]. *)
Definition Qsum (xs : list Q) : Q := foldl Qplus 0%Q xs.

(** [xs[k:]] for a possibly negative [k]. *)
Definition py_slice_from {A} (xs : list A) (k : Z) : list A :=
  if (k <? 0)%Z
  then drop (Z.to_nat (Z.max 0 (Z.of_nat (length xs) + k))) xs
  else drop (Z.to_nat k) xs.

(** [xs.index(x)]: position of the first occurrence. *)
Fixpoint py_index (x : string) (xs : list string) : option nat :=
  match xs with
  | [] => None
  | y :: ys => if bool_decide (y = x) then Some 0 else S <$> py_index x ys
  end.

(** ** Exceptions and the state of the random generator *)

Inductive exn :=
  | ValueError (msg : string)
  | ZeroDivisionError
  | IndexError
  | StopIteration.

Inductive result (A : Type) :=
  | Ok (a : A)
  | Raise (e : exn).
Arguments Ok {A} a.
Arguments Raise {A} e.

(** A draw of [np.random.random]: the rational [num / (num + gap + 1)],
    which ranges over exactly the rationals of the interval [0, 1). *)
Record unit_draw := { ud_num : nat; ud_gap : nat }.

Definition draw_val (d : unit_draw) : Q :=
  Z.of_nat (ud_num d) # Pos.of_succ_nat (ud_num d + ud_gap d).

(** [simulations_run] counts the calls of [_monte_carlo_simulation]; it is
    bookkeeping that lets statements speak about work done. *)
Record world := {
  rng_stream : nat -> unit_draw;
  rng_pos : nat;
  simulations_run : nat
}.

Definition M (A : Type) : Type := world -> result A * world.

Definition ret {A} (a : A) : M A := fun w => (Ok a, w).
Definition raise {A} (e : exn) : M A := fun w => (Raise e, w).
Definition bind {A B} (m : M A) (k : A -> M B) : M B :=
  fun w => match m w with
           | (Ok a, w') => k a w'
           | (Raise e, w') => (Raise e, w')
           end.

Notation "'let*' x ':=' m 'in' k" := (bind m (fun x => k))
  (at level 10, x pattern, m at level 100, k at level 200).

Definition lift_result {A} (r : result A) : M A := fun w => (r, w).

(** The same sequencing for computations that touch no state. *)
Definition rbind {A B} (r : result A) (k : A -> result B) : result B :=
  match r with
  | Ok a => k a
  | Raise e => Raise e
  end.

Notation "'let?' x ':=' r 'in' k" := (rbind r (fun x => k))
  (at level 10, x pattern, r at level 100, k at level 200).

(** [np.random.random(n)]: the next [n] draws of the stream. *)
Definition np_random (n : nat) : M (list Q) := fun w =>
  (Ok ((fun k => draw_val (rng_stream w (rng_pos w + k))) <$> seq 0 n),
   {| rng_stream := rng_stream w;
      rng_pos := rng_pos w + n;
      simulations_run := simulations_run w |}).

Definition count_simulation : M unit := fun w =>
  (Ok tt,
   {| rng_stream := rng_stream w;
      rng_pos := rng_pos w;
      simulations_run := S (simulations_run w) |}).

(** ** Data model of [optimizer.py] *)

(** The two picks, the strings ['team_a'] and ['team_b'] of the source. *)
Inductive side := team_a | team_b.

Global Instance side_eq_dec : EqDecision side.
Proof. solve_decision. Defined.

(** [constraints] is a dict of which only the integer entry [total_picks]
    is ever read; [match_ids] defaults to [None]. *)
Record OptimizationInput := {
  odds_vector : list Q;
  safe_matches : gset string;
  unsafe_matches : gset string;
  constraints : gmap string Z;
  target_score : Z;
  match_ids : option (list string)
}.

(** A negative [num_simulations] runs no trial, exactly as zero does. *)
Record PickEmOptimizer := { num_simulations : nat }.

(** One entry of [all_results] in [optimize]. *)
Record candidate := {
  combination : gmap string side;
  pick_vector : list Z;
  score_distribution : list Q;
  target_probability : Q;
  expected_score : Q
}.

(** ** The outcome simulator *)

(** [(outcome and pick == 1) or (not outcome and pick == 0)] *)
Definition pick_correct (outcome : bool) (pick : Z) : bool :=
  (outcome && (pick =? 1)%Z) || (negb outcome && (pick =? 0)%Z).

(** [sum(1 for (outcome, pick) in zip(outcomes, pick_vector) if ...)] *)
Definition correct_picks (outcomes : list bool) (picks : list Z) : nat :=
  length (List.filter (fun op => pick_correct op.1 op.2) (zip outcomes picks)).

(** One trial: draw the outcomes, count the correct picks. *)
Definition simulate_trial (odds : list Q) (picks : list Z) : M nat :=
  let* draws := np_random (length odds) in
  let outcomes := zip_with Qltb draws odds in
  ret (correct_picks outcomes picks).

(** [for _ in range(num_simulations): ... scores.append(correct_picks)] *)
Fixpoint run_trials (n : nat) (odds : list Q) (picks : list Z) : M (list nat) :=
  match n with
  | 0 => ret []
  | S n' =>
      let* s := simulate_trial odds picks in
      let* rest := run_trials n' odds picks in
      ret (s :: rest)
  end.

(** [if 0 <= score <= 9: score_dist[score] += 1].  The counts are floats in
    the source; they hold whole numbers and are kept as naturals here. *)
Definition tally (hist : list nat) (score : nat) : list nat :=
  if (0 <=? score) && (score <=? 9) then alter S score hist else hist.

Definition histogram (scores : list nat) : list nat :=
  foldl tally (replicate 10 0) scores.

(** [count / total] on floats; division by zero raises. *)
Definition py_div (count total : nat) : result Q :=
  if total =? 0 then Raise ZeroDivisionError
  else Ok (inject_Z (Z.of_nat count) / inject_Z (Z.of_nat total))%Q.

(** [[count / total for count in score_dist]] *)
Fixpoint normalize (total : nat) (hist : list nat) : result (list Q) :=
  match hist with
  | [] => Ok []
  | c :: cs =>
      let? q := py_div c total in
      let? qs := normalize total cs in
      Ok (q :: qs)
  end.

Definition _monte_carlo_simulation (self : PickEmOptimizer)
    (odds : list Q) (picks : list Z) : M (list Q) :=
  let* _ := count_simulation in
  let* scores := run_trials (num_simulations self) odds picks in
  let score_dist := histogram scores in
  let total := sum_list score_dist in
  lift_result (normalize total score_dist).

(** ** Validation and enumeration *)

Definition prob_in_range (prob : Q) : bool := Qle_bool 0 prob && Qle_bool prob 1.

Definition _validate_input (inp : OptimizationInput) : M unit :=
  if bool_decide (odds_vector inp = []) then
    raise (ValueError "Odds vector cannot be empty")
  else if negb (forallb prob_in_range (odds_vector inp)) then
    raise (ValueError "All probabilities must be between 0 and 1")
  else if length (odds_vector inp)
          <? size (safe_matches inp) + size (unsafe_matches inp) then
    raise (ValueError "Total matches exceed odds vector length")
  else if negb (default 9%Z (constraints inp !! "total_picks") =? 9)%Z then
    raise (ValueError "Swiss format requires exactly 9 picks")
  else ret tt.

(** [itertools.product(choices, repeat=n)], first position varying slowest. *)
Fixpoint product_repeat {A} (choices : list A) (n : nat) : list (list A) :=
  match n with
  | 0 => [[]]
  | S n' => flat_map (fun x => cons x <$> product_repeat choices n') choices
  end.

(** [dict(pairs)]: later pairs overwrite earlier ones. *)
Definition py_dict {V} (pairs : list (string * V)) : gmap string V :=
  foldl (fun m kv => <[kv.1 := kv.2]> m) ∅ pairs.

Definition _validate_swiss_constraints (inp : OptimizationInput)
    (unsafe_combination : gmap string side) : bool := true.

(** [list(input_data.unsafe_matches)] is [elements]: the members of the set
    once each, in an order fixed by the set. *)
Definition _generate_unsafe_combinations (inp : OptimizationInput)
    : M (list (gmap string side)) :=
  let unsafe := elements (unsafe_matches inp) in
  if length unsafe =? 0 then ret [∅]
  else
    ret (List.filter (_validate_swiss_constraints inp)
           ((fun picks => py_dict (zip unsafe picks))
              <$> product_repeat [team_a; team_b] (length unsafe))).

(** ** Pick vectors *)

(** [input_data.odds_vector[i] > 0.5], raising on a missing index. *)
Definition odds_above_half (inp : OptimizationInput) (i : nat) : result bool :=
  match odds_vector inp !! i with
  | Some prob => Ok (Qgtb prob (1 # 2))
  | None => Raise IndexError
  end.

Definition pick_entry (inp : OptimizationInput)
    (unsafe_combination : gmap string side) (i : nat) (match_id : string)
    : result Z :=
  if bool_decide (match_id ∈ safe_matches inp) then
    let? above := odds_above_half inp i in
    Ok (if above then 1 else 0)%Z
  else
    match unsafe_combination !! match_id with
    | Some s => Ok (if bool_decide (s = team_a) then 1 else 0)%Z
    | None =>
        let? above := odds_above_half inp i in
        Ok (if above then 1 else 0)%Z
    end.

Fixpoint pick_entries (inp : OptimizationInput)
    (unsafe_combination : gmap string side) (i : nat) (ids : list string)
    : result (list Z) :=
  match ids with
  | [] => Ok []
  | match_id :: rest =>
      let? b := pick_entry inp unsafe_combination i match_id in
      let? bs := pick_entries inp unsafe_combination (S i) rest in
      Ok (b :: bs)
  end.

Definition _create_pick_vector (inp : OptimizationInput)
    (unsafe_combination : gmap string side) : result (list Z) :=
  pick_entries inp unsafe_combination 0 (default [] (match_ids inp)).

(** ** The search loop of [optimize] *)

Record search_state := {
  best_combination : option candidate;
  best_score : Q;
  all_results : list candidate
}.

Definition initial_search : search_state :=
  {| best_combination := None; best_score := (-1)%Q; all_results := [] |}.

Definition target_prob_of (inp : OptimizationInput) (score_dist : list Q) : Q :=
  Qsum (py_slice_from score_dist (target_score inp)).

(** [sum(i * prob for i, prob in enumerate(score_dist))] *)
Definition expected_score_of (score_dist : list Q) : Q :=
  Qsum (imap (fun i prob => inject_Z (Z.of_nat i) * prob)%Q score_dist).

(** The dict [result] built for one combination. *)
Definition candidate_of (inp : OptimizationInput) (comb : gmap string side)
    (picks : list Z) (score_dist : list Q) : candidate :=
  {| combination := comb;
     pick_vector := picks;
     score_distribution := score_dist;
     target_probability := target_prob_of inp score_dist;
     expected_score := expected_score_of score_dist |}.

Definition evaluate_combination (self : PickEmOptimizer)
    (inp : OptimizationInput) (st : search_state)
    (comb : gmap string side) : M search_state :=
  let* picks := lift_result (_create_pick_vector inp comb) in
  let* score_dist := _monte_carlo_simulation self (odds_vector inp) picks in
  let result := candidate_of inp comb picks score_dist in
  let target_prob := target_probability result in
  ret (if Qgtb target_prob (best_score st)
       then {| best_combination := Some result;
               best_score := target_prob;
               all_results := all_results st ++ [result] |}
       else {| best_combination := best_combination st;
               best_score := best_score st;
               all_results := all_results st ++ [result] |}).

Fixpoint evaluate_all (self : PickEmOptimizer) (inp : OptimizationInput)
    (st : search_state) (combs : list (gmap string side)) : M search_state :=
  match combs with
  | [] => ret st
  | comb :: rest =>
      let* st' := evaluate_combination self inp st comb in
      evaluate_all self inp st' rest
  end.

(** ** Building the report *)

(** [np.cumsum]: the running sums, the first of which is the first entry. *)
Fixpoint cumsum_from (acc : Q) (xs : list Q) : list Q :=
  match xs with
  | [] => []
  | x :: rest => (acc + x)%Q :: cumsum_from (acc + x)%Q rest
  end.

Definition np_cumsum (xs : list Q) : list Q :=
  match xs with
  | [] => []
  | x :: rest => x :: cumsum_from x rest
  end.

(** [next(i for i, cum in enumerate(cumulative) if cum >= level)] *)
Fixpoint first_reaching (level : Q) (i : nat) (cumulative : list Q) : result nat :=
  match cumulative with
  | [] => Raise StopIteration
  | cum :: rest =>
      if Qgeb cum level then Ok i else first_reaching level (S i) rest
  end.

Inductive confidence_label := high | medium | low.

Record match_risk := {
  risk_score : Q;
  win_probability : Q;
  is_safe : bool;
  confidence_level : confidence_label
}.

(** [volatility_index] is the square root of the variance of the winning
    distribution; the root is taken by numpy and the record keeps the
    variance under it. *)
Record risk_report := {
  total_risk_score : Q;
  match_risks : gmap string match_risk;
  strategy_confidence : Q;
  volatility_variance : Q
}.

Definition risk_of (inp : OptimizationInput) (match_id : string) (prob : Q)
    : match_risk :=
  {| risk_score := (1 - Qabs (prob - (1 # 2)) * 2)%Q;
     win_probability := prob;
     is_safe := bool_decide (match_id ∈ safe_matches inp);
     confidence_level :=
       if Qgtb prob (3 # 4) || Qltb prob (1 # 4) then high
       else if Qgtb prob (3 # 5) || Qltb prob (2 # 5) then medium
       else low |}.

(** The loop over [enumerate(match_ids)]: accumulated total and risk table. *)
Fixpoint risk_loop (inp : OptimizationInput) (i : nat) (ids : list string)
    (acc : Q * gmap string match_risk) : Q * gmap string match_risk :=
  match ids with
  | [] => acc
  | match_id :: rest =>
      match odds_vector inp !! i with
      | Some prob =>
          let r := risk_of inp match_id prob in
          risk_loop inp (S i) rest
            ((acc.1 + risk_score r)%Q, <[match_id := r]> acc.2)
      | None => risk_loop inp (S i) rest acc
      end
  end.

Definition variance_of (score_dist : list Q) : Q :=
  let mean_score := expected_score_of score_dist in
  Qsum (imap (fun i prob =>
                ((inject_Z (Z.of_nat i) - mean_score) ^ 2 * prob)%Q) score_dist).

Definition _generate_risk_analysis (inp : OptimizationInput)
    (best : candidate) : risk_report :=
  let ids := default [] (match_ids inp) in
  let '(total, risks) := risk_loop inp 0 ids (0%Q, ∅) in
  let total' :=
    if length ids =? 0 then total
    else (total / inject_Z (Z.of_nat (length ids)))%Q in
  {| total_risk_score := total';
     match_risks := risks;
     strategy_confidence := Qmin (expected_score best / 9) 1;
     volatility_variance := variance_of (score_distribution best) |}.

(** [sorted(all_results, key=target_probability, reverse=True)]: a stable
    sort, so candidates with equal keys keep their enumeration order. *)
Fixpoint insert_by_target (x : candidate) (xs : list candidate) : list candidate :=
  match xs with
  | [] => [x]
  | y :: ys =>
      if Qgtb (target_probability y) (target_probability x)
      then y :: insert_by_target x ys
      else x :: y :: ys
  end.

Definition sorted_by_target (xs : list candidate) : list candidate :=
  foldr insert_by_target [] xs.

Record alternative := {
  rank : nat;
  alt_expected_score : Q;
  alt_target_probability : Q;
  picks : gmap string side
}.

(** [sorted_results[1:4]], ranked from 2. *)
Definition alternatives_of (all : list candidate) : list alternative :=
  imap (fun i result =>
          {| rank := i + 2;
             alt_expected_score := expected_score result;
             alt_target_probability := target_probability result;
             picks := combination result |})
       (take 3 (drop 1 (sorted_by_target all))).

Module OptimizationResult.
Record t := {
  optimal_picks : list side;
  expected_score : Q;
  score_distribution : list Q;
  confidence_interval : nat * nat;
  risk_analysis : risk_report;
  alternative_strategies : list alternative
}.
End OptimizationResult.

(** The side taken for a match that is safe or left to the default rule:
    [odds_vector[match_ids.index(match_id)] > 0.5]. *)
Definition favoured_side (inp : OptimizationInput) (ids : list string)
    (match_id : string) : result side :=
  match py_index match_id ids with
  | None => Raise (ValueError "is not in list")
  | Some idx =>
      let? above := odds_above_half inp idx in
      Ok (if above then team_a else team_b)
  end.

Definition optimal_pick (inp : OptimizationInput) (best : candidate)
    (ids : list string) (match_id : string) : result side :=
  if bool_decide (match_id ∈ safe_matches inp) then
    favoured_side inp ids match_id
  else
    match combination best !! match_id with
    | Some s => Ok s
    | None => favoured_side inp ids match_id
    end.

Fixpoint optimal_picks_loop (inp : OptimizationInput) (best : candidate)
    (ids todo : list string) : result (list side) :=
  match todo with
  | [] => Ok []
  | match_id :: rest =>
      let? s := optimal_pick inp best ids match_id in
      let? ss := optimal_picks_loop inp best ids rest in
      Ok (s :: ss)
  end.

(** The wall-clock [execution_time_ms] is not part of the model. *)
Definition _create_result (inp : OptimizationInput)
    (best_combination : option candidate) (all_results : list candidate)
    : result OptimizationResult.t :=
  match best_combination with
  | None => Raise (ValueError "No valid combinations found")
  | Some best =>
      let cumulative := np_cumsum (score_distribution best) in
      let? ci_lower := first_reaching (1 # 40) 0 cumulative in
      let? ci_upper := first_reaching (39 # 40) 0 cumulative in
      let risk := _generate_risk_analysis inp best in
      let alternatives := alternatives_of all_results in
      let ids := default [] (match_ids inp) in
      let? optimal := optimal_picks_loop inp best ids ids in
      Ok {| OptimizationResult.optimal_picks := optimal;
            OptimizationResult.expected_score := expected_score best;
            OptimizationResult.score_distribution := score_distribution best;
            OptimizationResult.confidence_interval := (ci_lower, ci_upper);
            OptimizationResult.risk_analysis := risk;
            OptimizationResult.alternative_strategies := alternatives |}
  end.

Definition optimize (self : PickEmOptimizer) (inp : OptimizationInput)
    : M OptimizationResult.t :=
  let* _ := _validate_input inp in
  let* unsafe_combinations := _generate_unsafe_combinations inp in
  let* st := evaluate_all self inp initial_search unsafe_combinations in
  lift_result (_create_result inp (best_combination st) (all_results st)).

(** ** The classifier of [odds_ingestion.py] *)

Module odds_ingestion.

(** [OddsData]; the timestamp and the raw payload play no part in
    classification. *)
Record OddsData := {
  match_id : string;
  team_a : string;
  team_b : string;
  team_a_odds : Q;
  team_b_odds : Q;
  source : string
}.

Record MatchClassificationService := { safe_threshold : Q }.

(** The dict returned by [_classify_single_match]; the last three keys are
    absent from the dict returned for an empty list. *)
Record classification := {
  is_safe : bool;
  confidence : Q;
  implied_win_rate : Q;
  consensus_favorite : option string;
  source_agreement : Q;
  consensus_team_a_prob : option Q;
  consensus_team_b_prob : option Q;
  sources_count : option nat
}.

(** [weights.get(odds.source, 0.1)] *)
Definition weight_of (src : string) : Q :=
  if bool_decide (src = "bookmaker_consensus") then 2 # 5
  else if bool_decide (src = "hltv_elo") then 3 # 10
  else if bool_decide (src = "community_picks") then 1 # 5
  else if bool_decide (src = "mock_data") then 1 # 10
  else 1 # 10.

(** The running totals of the loop over the observations. *)
Record totals := {
  weighted_team_a_prob : Q;
  weighted_team_b_prob : Q;
  total_weight : Q;
  favorites : list string
}.

Definition accumulate (acc : totals) (odds : OddsData) : totals :=
  let weight := weight_of (source odds) in
  {| weighted_team_a_prob := (weighted_team_a_prob acc + team_a_odds odds * weight)%Q;
     weighted_team_b_prob := (weighted_team_b_prob acc + team_b_odds odds * weight)%Q;
     total_weight := (total_weight acc + weight)%Q;
     favorites :=
       favorites acc ++
       [if Qgtb (team_a_odds odds) (team_b_odds odds)
        then team_a odds else team_b odds] |}.

Definition count_of (x : string) (xs : list string) : nat :=
  length (List.filter (fun y => bool_decide (y = x)) xs).

(** [favorites.count(max(set(favorites), key=favorites.count))]: whichever
    most frequent name [max] returns, its count is the largest count. *)
Definition most_common_count (favs : list string) : nat :=
  foldr Nat.max 0 ((fun f => count_of f favs) <$> favs).

Definition _classify_single_match (self : MatchClassificationService)
    (match_odds : list OddsData) : classification :=
  match match_odds with
  | [] =>
      {| is_safe := false; confidence := 0; implied_win_rate := 1 # 2;
         consensus_favorite := None; source_agreement := 0;
         consensus_team_a_prob := None; consensus_team_b_prob := None;
         sources_count := None |}
  | first :: _ =>
      let acc := foldl accumulate
                   {| weighted_team_a_prob := 0; weighted_team_b_prob := 0;
                      total_weight := 0; favorites := [] |} match_odds in
      let positive := Qgtb (total_weight acc) 0 in
      let consensus_a :=
        if positive then (weighted_team_a_prob acc / total_weight acc)%Q
        else 1 # 2 in
      let consensus_b :=
        if positive then (weighted_team_b_prob acc / total_weight acc)%Q
        else 1 # 2 in
      let a_favoured := Qgtb consensus_a consensus_b in
      let implied := if a_favoured then consensus_a else consensus_b in
      let agreement :=
        if length (favorites acc) =? 0 then 0%Q
        else (inject_Z (Z.of_nat (most_common_count (favorites acc)))
              / inject_Z (Z.of_nat (length (favorites acc))))%Q in
      {| is_safe := Qgeb implied (safe_threshold self);
         confidence := (Qmin implied (1 - implied) * 2)%Q;
         implied_win_rate := implied;
         consensus_favorite :=
           Some (if a_favoured then team_a first else team_b first);
         source_agreement := agreement;
         consensus_team_a_prob := Some consensus_a;
         consensus_team_b_prob := Some consensus_b;
         sources_count := Some (length match_odds) |}
  end.

(** [classify_matches]: the observations are grouped by match identifier,
    each group in the order of arrival, and every group is classified. *)
Definition group_by_match (odds_data : list OddsData)
    : gmap string (list OddsData) :=
  foldl (fun matches_odds odds =>
           <[match_id odds :=
               default [] (matches_odds !! match_id odds) ++ [odds]]>
             matches_odds)
        ∅ odds_data.

Definition classify_matches (self : MatchClassificationService)
    (odds_data : list OddsData) : gmap string classification :=
  _classify_single_match self <$> group_by_match odds_data.

(** *** The mock feed of [OddsIngestionService]

    The state threaded here is that of Python's [random] module. *)

Definition mock_matches : list (string * string * string) :=
  [("swiss_1_1", "G2", "FaZe");
   ("swiss_1_2", "NAVI", "Astralis");
   ("swiss_1_3", "Vitality", "Team Liquid");
   ("swiss_1_4", "NIP", "Heroic");
   ("swiss_1_5", "FURIA", "Cloud9");
   ("swiss_1_6", "MOUZ", "Spirit");
   ("swiss_1_7", "Eternal Fire", "ENCE");
   ("swiss_1_8", "BIG", "Complexity");
   ("swiss_1_9", "Apeks", "Imperial")].

(** [random.random()] *)
Definition random_random : M Q := fun w =>
  (Ok (draw_val (rng_stream w (rng_pos w))),
   {| rng_stream := rng_stream w;
      rng_pos := S (rng_pos w);
      simulations_run := simulations_run w |}).

(** [random.uniform(a, b)], which is [a + (b - a) * random()]. *)
Definition random_uniform (a b : Q) : M Q :=
  let* u := random_random in
  ret (a + (b - a) * u)%Q.

(** [not (match_ids and id not in match_ids)]: [None] and the empty list
    request every match. *)
Definition requested (match_ids : option (list string)) (id : string) : bool :=
  match match_ids with
  | None | Some [] => true
  | Some ids => bool_decide (id ∈ ids)
  end.

Fixpoint mock_loop (match_ids : option (list string))
    (todo : list (string * string * string)) : M (list OddsData) :=
  match todo with
  | [] => ret []
  | (id, a, b) :: rest =>
      if negb (requested match_ids id) then mock_loop match_ids rest
      else
        let* bias := random_uniform (1 # 10) (2 # 5) in
        let* coin := random_random in
        let team_a_win_prob :=
          if Qgtb coin (1 # 2) then ((1 # 2) + bias)%Q else ((1 # 2) - bias)%Q in
        let team_b_win_prob := (1 - team_a_win_prob)%Q in
        let* others := mock_loop match_ids rest in
        ret ({| match_id := id; team_a := a; team_b := b;
                team_a_odds := team_a_win_prob;
                team_b_odds := team_b_win_prob;
                source := "mock_data" |} :: others)
  end.

Definition _fetch_mock_data (match_ids : option (list string))
    : M (list OddsData) :=
  mock_loop match_ids mock_matches.

End odds_ingestion.

(** ** Module-level helpers of [optimizer.py] *)

(** [classify_match_safety]; the threshold defaults to [0.75]. *)
Definition classify_match_safety (odds : list Q) (threshold : Q) : list bool :=
  (fun prob => Qgeb (Qmax prob (1 - prob)) threshold) <$> odds.

(** One entry of [bookmaker_odds['matches']]: a dict either of whose keys
    may be absent. *)
Record bookmaker_match := {
  team_a_odds : option Q;
  team_b_odds : option Q
}.

(** [x / y] on floats. *)
Definition py_fdiv (x y : Q) : result Q :=
  if Qeq_bool y 0 then Raise ZeroDivisionError else Ok (x / y)%Q.

(** The body of the loop of [calculate_implied_win_rates]. *)
Definition implied_win_rate_of (match_odds : bookmaker_match) : result Q :=
  let team_a_decimal := default 2%Q (team_a_odds match_odds) in
  let team_b_decimal := default 2%Q (team_b_odds match_odds) in
  let? prob_a := py_fdiv 1 team_a_decimal in
  let? prob_b := py_fdiv 1 team_b_decimal in
  let total := (prob_a + prob_b)%Q in
  py_fdiv prob_a total.

Fixpoint implied_win_rates_loop (matches : list bookmaker_match)
    : result (list Q) :=
  match matches with
  | [] => Ok []
  | match_odds :: rest =>
      let? prob_a_normalized := implied_win_rate_of match_odds in
      let? probabilities := implied_win_rates_loop rest in
      Ok (prob_a_normalized :: probabilities)
  end.

(** [bookmaker_odds.get('matches', [])]: the key may be absent. *)
Definition calculate_implied_win_rates
    (bookmaker_odds : option (list bookmaker_match)) : result (list Q) :=
  implied_win_rates_loop (default [] bookmaker_odds).

(** ** The scenario comparison of [routes/optimization.py] *)

(** [sorted(xs, key=key, reverse=True)] and [xs.sort(key=key, reverse=True)]:
    descending and stable. *)
Fixpoint insert_desc {A} (key : A -> Q) (x : A) (xs : list A) : list A :=
  match xs with
  | [] => [x]
  | y :: ys =>
      if Qgtb (key y) (key x) then y :: insert_desc key x ys
      else x :: y :: ys
  end.

Definition sorted_desc {A} (key : A -> Q) (xs : list A) : list A :=
  foldr (insert_desc key) [] xs.

(** [max(xs)] of a non-empty list: the first of the largest entries. *)
Definition py_max (x : Q) (xs : list Q) : Q :=
  foldl (fun m y => if Qgtb y m then y else m) x xs.

Module optimization_routes.

(** The decoded JSON body of [POST /optimize/simulate]. *)
Record scenario := {
  name : option string;
  picks : option (list string)
}.

Record request_data := {
  scenarios : option (list scenario);
  match_odds : option (list Q);
  num_simulations : option nat
}.

Record scenario_result := {
  scenario_name : string;
  result_picks : list string;
  expected_score : Q;
  score_distribution : list Q;
  prob_5_plus : Q;
  prob_7_plus : Q
}.

(** The three responses: 200 with the comparison, 400 with a message, and
    500 carrying the exception whose text the handler reports. *)
Inductive response :=
  | success (results : list scenario_result)
            (best_scenario : option scenario_result)
            (highest_expected_score highest_prob_5_plus : Q)
  | bad_request (error : string)
  | server_error (e : exn).

(** [[1 if pick == 'team_a' else 0 for pick in picks]] *)
Definition to_pick_vector (picks : list string) : list Z :=
  (fun pick => if bool_decide (pick = "team_a") then 1%Z else 0%Z) <$> picks.

Fixpoint scenario_loop (optimizer : PickEmOptimizer) (odds : list Q)
    (i : nat) (todo : list scenario) : M (list scenario_result) :=
  match todo with
  | [] => ret []
  | sc :: rest =>
      let scenario_name := default ("Scenario " +:+ pretty (i + 1)) (name sc) in
      let picks := default [] (picks sc) in
      if negb (length picks =? length odds) then
        scenario_loop optimizer odds (S i) rest
      else
        let* score_dist :=
          _monte_carlo_simulation optimizer odds (to_pick_vector picks) in
        let r := {| scenario_name := scenario_name;
                    result_picks := picks;
                    expected_score := expected_score_of score_dist;
                    score_distribution := score_dist;
                    prob_5_plus := Qsum (py_slice_from score_dist 5);
                    prob_7_plus := Qsum (py_slice_from score_dist 7) |} in
        let* rs := scenario_loop optimizer odds (S i) rest in
        ret (r :: rs)
  end.

Definition highest (key : scenario_result -> Q) (results : list scenario_result)
    : Q :=
  match results with
  | [] => 0%Q
  | r :: rs => py_max (key r) (key <$> rs)
  end.

(** The handler; [optimizer] is the module's global instance.  The
    [num_simulations] of the request is read and never used. *)
Definition simulate_scenarios (optimizer : PickEmOptimizer)
    (data : request_data) : world -> response * world := fun w =>
  let scs := default [] (scenarios data) in
  let odds := default [] (match_odds data) in
  let num_simulations := default 1000 (num_simulations data) in
  if bool_decide (scs = []) || (length odds =? 0) then
    (bad_request "scenarios and match_odds are required", w)
  else
    match scenario_loop optimizer odds 0 scs w with
    | (Raise e, w') => (server_error e, w')
    | (Ok results, w') =>
        let results := sorted_desc expected_score results in
        (success results (head results)
                 (highest expected_score results)
                 (highest prob_5_plus results), w')
    end.

End optimization_routes.

(** ** Vocabulary of the statements *)

(** Every pick is certain to be right: side A is picked where it wins with
    probability one, side B where side A wins with probability zero. *)
Definition certain_correct (odds : list Q) (picks : list Z) : Prop :=
  Forall2 (fun prob pick =>
             (pick = 1%Z /\ (prob == 1)%Q) \/ (pick = 0%Z /\ (prob == 0)%Q))
          odds picks.

(** What [_validate_input] accepts. *)
Definition valid_input (inp : OptimizationInput) : Prop :=
  odds_vector inp <> []
  /\ Forall (fun prob => (0 <= prob)%Q /\ (prob <= 1)%Q) (odds_vector inp)
  /\ size (safe_matches inp) + size (unsafe_matches inp)
     <= length (odds_vector inp)
  /\ default 9%Z (constraints inp !! "total_picks") = 9%Z.

(** A candidate as [optimize] builds it for one combination: its pick
    vector comes from [_create_pick_vector], its distribution has ten
    non-negative entries of total one, and its two scores are computed from
    that distribution. *)
Definition evaluated (inp : OptimizationInput) (c : candidate) : Prop :=
  _create_pick_vector inp (combination c) = Ok (pick_vector c)
  /\ length (score_distribution c) = 10
  /\ Forall (fun q => (0 <= q)%Q) (score_distribution c)
  /\ (Qsum (score_distribution c) == 1)%Q
  /\ target_probability c = target_prob_of inp (score_distribution c)
  /\ expected_score c = expected_score_of (score_distribution c).

(** [win] is the candidate at position [k]; no candidate has a larger
    target probability and every earlier one has a strictly smaller one. *)
Definition first_maximal (all : list candidate) (k : nat) (win : candidate)
    : Prop :=
  all !! k = Some win
  /\ (forall c, c ∈ all ->
        (target_probability c <= target_probability win)%Q)
  /\ (forall j c, j < k -> all !! j = Some c ->
        (target_probability c < target_probability win)%Q).

(** The state of the search loop after some candidates. *)
Definition search_inv (inp : OptimizationInput) (st : search_state) : Prop :=
  Forall (evaluated inp) (all_results st)
  /\ match best_combination st with
     | None => all_results st = [] /\ best_score st = (-1)%Q
     | Some win =>
         best_score st = target_probability win
         /\ exists k, first_maximal (all_results st) k win
     end.

(** Number of trials that ended with the score [k]. *)
Definition count_score (k : nat) (scores : list nat) : nat :=
  length (List.filter (Nat.eqb k) scores).

(** The share [count / total] as the simulator computes it. *)
Definition share (total count : nat) : Q :=
  (inject_Z (Z.of_nat count) / inject_Z (Z.of_nat total))%Q.

(** ** Concrete inputs of the examples *)

(** A generator whose every draw is one half. *)
Definition half_stream : nat -> unit_draw :=
  fun _ => {| ud_num := 1; ud_gap := 0 |}.

Definition world0 : world :=
  {| rng_stream := half_stream; rng_pos := 0; simulations_run := 0 |}.

Definition one_trial : PickEmOptimizer := {| num_simulations := 1 |}.

(** A request with twenty-one unsafe matches. *)
Definition ids21 : list string :=
  ["m00"; "m01"; "m02"; "m03"; "m04"; "m05"; "m06"; "m07"; "m08"; "m09";
   "m10"; "m11"; "m12"; "m13"; "m14"; "m15"; "m16"; "m17"; "m18"; "m19";
   "m20"].

Definition request21 : OptimizationInput :=
  {| odds_vector := replicate 21 (1 # 2)%Q;
     safe_matches := ∅;
     unsafe_matches := list_to_set ids21;
     constraints := {[ "total_picks" := 9%Z ]};
     target_score := 5;
     match_ids := Some ids21 |}.

(** One safe match that side A is sure to win. *)
Definition request_sure : OptimizationInput :=
  {| odds_vector := [1%Q];
     safe_matches := {[ "m0" ]};
     unsafe_matches := ∅;
     constraints := ∅;
     target_score := 1;
     match_ids := Some ["m0"] |}.

(** One safe match at even odds. *)
Definition request_even : OptimizationInput :=
  {| odds_vector := [(1 # 2)%Q];
     safe_matches := {[ "m0" ]};
     unsafe_matches := ∅;
     constraints := ∅;
     target_score := 1;
     match_ids := Some ["m0"] |}.

(** One unsafe match at even odds, with a target every score meets. *)
Definition request_tie : OptimizationInput :=
  {| odds_vector := [(1 # 2)%Q];
     safe_matches := ∅;
     unsafe_matches := {[ "m0" ]};
     constraints := ∅;
     target_score := 0;
     match_ids := Some ["m0"] |}.

(** A single observation that calls the match even. *)
Definition even_observation : odds_ingestion.OddsData :=
  {| odds_ingestion.match_id := "m0";
     odds_ingestion.team_a := "Alpha";
     odds_ingestion.team_b := "Beta";
     odds_ingestion.team_a_odds := (1 # 2)%Q;
     odds_ingestion.team_b_odds := (1 # 2)%Q;
     odds_ingestion.source := "hltv_elo" |}.

Definition default_service : odds_ingestion.MatchClassificationService :=
  {| odds_ingestion.safe_threshold := (3 # 4)%Q |}.

(** Every pick is certain to be wrong. *)
Definition certain_wrong (odds : list Q) (picks : list Z) : Prop :=
  Forall2 (fun prob pick =>
             (pick = 1%Z /\ (prob == 0)%Q) \/ (pick = 0%Z /\ (prob == 1)%Q))
          odds picks.

(** The side a single observation favours. *)
Definition favourite_of (o : odds_ingestion.OddsData) : string :=
  if Qgtb (odds_ingestion.team_a_odds o) (odds_ingestion.team_b_odds o)
  then odds_ingestion.team_a o else odds_ingestion.team_b o.

(** The weighted sums the classifier forms. *)
Definition weight_sum (obs : list odds_ingestion.OddsData) : Q :=
  Qsum ((fun o => odds_ingestion.weight_of (odds_ingestion.source o)) <$> obs).

Definition weighted_a (obs : list odds_ingestion.OddsData) : Q :=
  Qsum ((fun o => odds_ingestion.team_a_odds o
                  * odds_ingestion.weight_of (odds_ingestion.source o))%Q
          <$> obs).

Definition weighted_b (obs : list odds_ingestion.OddsData) : Q :=
  Qsum ((fun o => odds_ingestion.team_b_odds o
                  * odds_ingestion.weight_of (odds_ingestion.source o))%Q
          <$> obs).

(** What the handler reports for one scenario. *)
Definition sound_result (r : optimization_routes.scenario_result) : Prop :=
  length (optimization_routes.score_distribution r) = 10
  /\ (0 <= optimization_routes.prob_7_plus r)%Q
  /\ (optimization_routes.prob_7_plus r
      <= optimization_routes.prob_5_plus r)%Q
  /\ (0 <= optimization_routes.expected_score r)%Q
  /\ (optimization_routes.expected_score r <= 9)%Q.

(** The score of trial [i] of a simulation that starts at position [pos] of
    the stream: the number of correct picks against the outcomes decided
    by draws [pos + i * len(odds) ...]. *)
Definition trial_score (stream : nat -> unit_draw) (pos : nat)
    (odds : list Q) (picks : list Z) (i : nat) : nat :=
  correct_picks
    (zip_with Qltb
       ((fun k => draw_val (stream (pos + i * length odds + k)))
          <$> seq 0 (length odds))
       odds)
    picks.

(** The tolerance within which a sum of ten shares is compared with 1: far
    above the rounding of ten divisions and nine additions. *)
Definition tolerance : Q := 1 # 1000000000.



(** A single observation that is certain of side A. *)
Definition sure_observation : odds_ingestion.OddsData :=
  {| odds_ingestion.match_id := "m0";
     odds_ingestion.team_a := "Alpha";
     odds_ingestion.team_b := "Beta";
     odds_ingestion.team_a_odds := 1%Q;
     odds_ingestion.team_b_odds := 0%Q;
     odds_ingestion.source := "hltv_elo" |}.

(** * Properties *)

(** ** Comparisons *)

Lemma Qgtb_true a b : Qgtb a b = true <-> (b < a)%Q.
Proof.
  unfold Qgtb. rewrite negb_true_iff, <- not_true_iff_false, Qle_bool_iff.
  split; intros H; lra.
Qed.

Lemma Qgtb_false a b : Qgtb a b = false <-> (a <= b)%Q.
Proof.
  unfold Qgtb. rewrite negb_false_iff, Qle_bool_iff. tauto.
Qed.

Lemma Qltb_true a b : Qltb a b = true <-> (a < b)%Q.
Proof. apply Qgtb_true. Qed.

Lemma Qltb_false a b : Qltb a b = false <-> (b <= a)%Q.
Proof. apply Qgtb_false. Qed.

Lemma Qgeb_true a b : Qgeb a b = true <-> (b <= a)%Q.
Proof. unfold Qgeb. apply Qle_bool_iff. Qed.

Lemma draw_val_range d : (0 <= draw_val d)%Q /\ (draw_val d < 1)%Q.
Proof.
  unfold draw_val, Qle, Qlt; simpl. split; lia.
Qed.

(** ** Sums of rationals *)

Lemma foldl_Qplus acc xs : (foldl Qplus acc xs == acc + Qsum xs)%Q.
Proof.
  unfold Qsum. revert acc. induction xs as [|x xs IH]; intros acc; simpl.
  - lra.
  - rewrite IH, (IH (0 + x)%Q). lra.
Qed.

Lemma Qsum_cons x xs : (Qsum (x :: xs) == x + Qsum xs)%Q.
Proof. unfold Qsum at 1. simpl. rewrite foldl_Qplus. lra. Qed.

Lemma Qsum_nonneg xs : Forall (fun x => (0 <= x)%Q) xs -> (0 <= Qsum xs)%Q.
Proof.
  induction 1 as [|x xs Hx _ IH].
  - unfold Qsum; simpl; lra.
  - rewrite Qsum_cons. lra.
Qed.

(** ** Sequencing *)

Lemma bind_ok {A B} (m : M A) (k : A -> M B) w a w' :
  m w = (Ok a, w') -> bind m k w = k a w'.
Proof. unfold bind. intros ->. reflexivity. Qed.

Lemma bind_raise {A B} (m : M A) (k : A -> M B) w e w' :
  m w = (Raise e, w') -> bind m k w = (Raise e, w').
Proof. unfold bind. intros ->. reflexivity. Qed.

(** ** The simulator *)

Lemma correct_picks_le outcomes picks :
  correct_picks outcomes picks <= length picks.
Proof.
  unfold correct_picks.
  etransitivity; [apply List.filter_length_le|].
  rewrite length_zip. lia.
Qed.

Lemma correct_picks_all outcomes picks :
  Forall2 (fun o p => pick_correct o p = true) outcomes picks ->
  correct_picks outcomes picks = length picks.
Proof.
  unfold correct_picks. induction 1 as [|o p os ps Hop _ IH]; simpl.
  - reflexivity.
  - rewrite Hop. simpl. f_equal. exact IH.
Qed.

Lemma np_random_spec n w :
  exists draws,
    np_random n w =
      (Ok draws, {| rng_stream := rng_stream w; rng_pos := rng_pos w + n;
                    simulations_run := simulations_run w |})
    /\ length draws = n
    /\ Forall (fun d => (0 <= d)%Q /\ (d < 1)%Q) draws.
Proof.
  eexists. split; [reflexivity|]. split.
  - rewrite length_fmap. apply length_seq.
  - apply Forall_fmap, Forall_forall. intros k _. apply draw_val_range.
Qed.

Lemma simulate_trial_spec odds picks w :
  exists s,
    simulate_trial odds picks w =
      (Ok s, {| rng_stream := rng_stream w;
                rng_pos := rng_pos w + length odds;
                simulations_run := simulations_run w |})
    /\ s <= length picks.
Proof.
  unfold simulate_trial.
  destruct (np_random_spec (length odds) w) as (draws & Hd & _ & _).
  eexists. split.
  - erewrite bind_ok by exact Hd. reflexivity.
  - apply correct_picks_le.
Qed.

Lemma certain_outcomes draws odds picks :
  certain_correct odds picks ->
  length draws = length odds ->
  Forall (fun d => (0 <= d)%Q /\ (d < 1)%Q) draws ->
  Forall2 (fun o p => pick_correct o p = true) (zip_with Qltb draws odds) picks.
Proof.
  intros Hc. revert draws.
  induction Hc as [|prob pick odds picks Hp _ IH]; intros draws Hlen Hd.
  - destruct draws; [constructor|discriminate].
  - destruct draws as [|d draws]; [discriminate|].
    inversion Hd as [|? ? [Hd0 Hd1] Hd']; subst. simpl.
    constructor; [|apply IH; [simpl in Hlen; lia|assumption]].
    unfold pick_correct.
    destruct Hp as [[-> Hq]|[-> Hq]].
    + assert (Qltb d prob = true) as -> by (apply Qltb_true; lra).
      reflexivity.
    + assert (Qltb d prob = false) as -> by (apply Qltb_false; lra).
      reflexivity.
Qed.

Lemma simulate_trial_certain odds picks w :
  certain_correct odds picks ->
  simulate_trial odds picks w =
    (Ok (length picks),
     {| rng_stream := rng_stream w; rng_pos := rng_pos w + length odds;
        simulations_run := simulations_run w |}).
Proof.
  intros Hc. unfold simulate_trial.
  destruct (np_random_spec (length odds) w) as (draws & Hd & Hlen & Hrange).
  erewrite bind_ok by exact Hd. unfold ret. do 2 f_equal.
  apply correct_picks_all. now apply certain_outcomes.
Qed.

Lemma run_trials_spec n odds picks w :
  exists scores w',
    run_trials n odds picks w = (Ok scores, w')
    /\ length scores = n
    /\ Forall (fun s => s <= length picks) scores
    /\ rng_stream w' = rng_stream w
    /\ simulations_run w' = simulations_run w.
Proof.
  revert w. induction n as [|n IH]; intros w; simpl.
  - exists [], w. repeat split; constructor.
  - destruct (simulate_trial_spec odds picks w) as (s & Hs & Hle).
    erewrite bind_ok by exact Hs.
    destruct (IH {| rng_stream := rng_stream w;
                    rng_pos := rng_pos w + length odds;
                    simulations_run := simulations_run w |})
      as (scores & w' & Hr & Hlen & Hall & Hst & Hsim).
    erewrite bind_ok by exact Hr.
    exists (s :: scores), w'. simpl in *.
    repeat split; auto.
Qed.

Lemma run_trials_certain n odds picks w :
  certain_correct odds picks ->
  exists w', run_trials n odds picks w = (Ok (replicate n (length picks)), w').
Proof.
  intros Hc. revert w. induction n as [|n IH]; intros w; simpl.
  - eexists. reflexivity.
  - erewrite bind_ok by (apply simulate_trial_certain; exact Hc).
    destruct (IH {| rng_stream := rng_stream w;
                    rng_pos := rng_pos w + length odds;
                    simulations_run := simulations_run w |}) as (w' & Hr).
    erewrite bind_ok by exact Hr. eexists. reflexivity.
Qed.

(** *** The histogram *)

Lemma tally_length hist score : length (tally hist score) = length hist.
Proof. unfold tally. case_match; [apply length_alter|reflexivity]. Qed.

Lemma foldl_tally_length scores hist :
  length (foldl tally hist scores) = length hist.
Proof.
  revert hist. induction scores as [|s scores IH]; intros hist; simpl.
  - reflexivity.
  - rewrite IH. apply tally_length.
Qed.

Lemma histogram_length scores : length (histogram scores) = 10.
Proof. unfold histogram. rewrite foldl_tally_length. apply length_replicate. Qed.

Lemma tally_above hist score : 9 < score -> tally hist score = hist.
Proof.
  intros H. unfold tally.
  replace (score <=? 9) with false by (symmetry; apply Nat.leb_gt; lia).
  now rewrite andb_false_r.
Qed.

Lemma tally_lookup hist score k :
  score <= 9 ->
  tally hist score !! k =
    (fun c => if k =? score then S c else c) <$> hist !! k.
Proof.
  intros H. unfold tally.
  replace (score <=? 9) with true by (symmetry; apply Nat.leb_le; lia).
  simpl. destruct (Nat.eqb_spec k score) as [->|Hne].
  - rewrite list_lookup_alter_eq. now destruct (hist !! score).
  - rewrite list_lookup_alter_ne by congruence.
    now destruct (hist !! k).
Qed.

Lemma foldl_tally_lookup scores hist k :
  Forall (fun s => s <= 9) scores ->
  foldl tally hist scores !! k =
    (fun c => c + count_score k scores) <$> hist !! k.
Proof.
  intros Hall. revert hist.
  induction Hall as [|s scores Hs _ IH]; intros hist; simpl.
  - destruct (hist !! k); simpl; f_equal; unfold count_score; simpl; lia.
  - rewrite IH, tally_lookup by exact Hs.
    unfold count_score. simpl.
    destruct (hist !! k) as [c|]; simpl; [|reflexivity].
    f_equal. destruct (k =? s); simpl; lia.
Qed.

Lemma sum_list_alter_S (hist : list nat) k :
  k < length hist -> sum_list (alter S k hist) = S (sum_list hist).
Proof.
  revert k. induction hist as [|c hist IH]; intros k Hk; simpl in *; [lia|].
  destruct k as [|k]; simpl; [lia|].
  change (list_alter S k hist) with (alter S k hist).
  rewrite IH by lia. lia.
Qed.

Lemma foldl_tally_sum scores hist :
  Forall (fun s => s < length hist /\ s <= 9) scores ->
  sum_list (foldl tally hist scores) = sum_list hist + length scores.
Proof.
  intros Hall. revert hist Hall.
  induction scores as [|s scores IH]; intros hist Hall; simpl; [lia|].
  inversion Hall as [|? ? [Hs Hs9] Hall']; subst.
  rewrite IH.
  - unfold tally.
    replace (s <=? 9) with true by (symmetry; apply Nat.leb_le; lia).
    simpl. rewrite sum_list_alter_S by exact Hs. lia.
  - rewrite tally_length. exact Hall'.
Qed.

Lemma sum_list_replicate_0 n : sum_list (replicate n 0) = 0.
Proof. induction n; simpl; auto. Qed.

Lemma histogram_total scores :
  Forall (fun s => s <= 9) scores ->
  sum_list (histogram scores) = length scores.
Proof.
  intros Hall. unfold histogram. rewrite foldl_tally_sum.
  - now rewrite sum_list_replicate_0.
  - rewrite length_replicate. eapply Forall_impl; [exact Hall|].
    simpl. intros; lia.
Qed.

Lemma histogram_lookup scores k :
  Forall (fun s => s <= 9) scores -> k < 10 ->
  histogram scores !! k = Some (count_score k scores).
Proof.
  intros Hall Hk. unfold histogram.
  rewrite foldl_tally_lookup by exact Hall.
  rewrite lookup_replicate_2 by exact Hk. reflexivity.
Qed.

Lemma histogram_all_above scores :
  Forall (fun s => 9 < s) scores -> histogram scores = replicate 10 0.
Proof.
  intros Hall. unfold histogram. generalize (replicate 10 0).
  induction Hall as [|s scores Hs _ IH]; intros hist; simpl.
  - reflexivity.
  - rewrite tally_above by exact Hs. apply IH.
Qed.

(** *** Normalisation *)

Lemma normalize_ok total hist :
  total <> 0 -> normalize total hist = Ok (share total <$> hist).
Proof.
  intros Ht. induction hist as [|c hist IH]; simpl; [reflexivity|].
  unfold py_div. destruct (Nat.eqb_spec total 0) as [|_]; [contradiction|].
  simpl. rewrite IH. reflexivity.
Qed.

Lemma normalize_zero hist :
  hist <> [] -> normalize 0 hist = Raise ZeroDivisionError.
Proof. destruct hist; [contradiction|reflexivity]. Qed.

Lemma share_nonneg total count : (0 <= share total count)%Q.
Proof.
  unfold share. destruct total as [|total].
  - unfold Qdiv, Qinv. simpl. rewrite Qmult_0_r. lra.
  - apply Qle_shift_div_l.
    + unfold Qlt; simpl; lia.
    + rewrite Qmult_0_l. unfold Qle; simpl; lia.
Qed.

Lemma Qsum_share total hist :
  (Qsum (share total <$> hist) == share total (sum_list hist))%Q.
Proof.
  induction hist as [|c hist IH]; simpl.
  - unfold Qsum, share; simpl. unfold Qdiv. now rewrite Qmult_0_l.
  - rewrite Qsum_cons, IH. unfold share.
    rewrite Nat2Z.inj_add, inject_Z_plus. unfold Qdiv. ring.
Qed.

Lemma share_self total : total <> 0 -> (share total total == 1)%Q.
Proof.
  intros Ht. unfold share. apply Qmult_inv_r.
  unfold Qeq; simpl. lia.
Qed.

Lemma share_zero total : (share total 0 == 0)%Q.
Proof. unfold share, Qdiv. simpl. now rewrite Qmult_0_l. Qed.

(** *** The simulator as a whole *)

Lemma monte_carlo_unfold self odds picks w :
  exists scores w',
    run_trials (num_simulations self) odds picks (count_simulation w).2
      = (Ok scores, w')
    /\ _monte_carlo_simulation self odds picks w
       = (normalize (sum_list (histogram scores)) (histogram scores), w')
    /\ length scores = num_simulations self
    /\ Forall (fun s => s <= length picks) scores
    /\ simulations_run w' = S (simulations_run w).
Proof.
  destruct (run_trials_spec (num_simulations self) odds picks
              (count_simulation w).2)
    as (scores & w' & Hr & Hlen & Hall & _ & Hsim).
  exists scores, w'. repeat split; auto.
  unfold _monte_carlo_simulation.
  erewrite bind_ok by reflexivity.
  erewrite bind_ok by exact Hr. reflexivity.
Qed.

Lemma count_score_replicate k n s :
  count_score k (replicate n s) = if k =? s then n else 0.
Proof.
  unfold count_score. induction n as [|n IH]; simpl.
  - now destruct (k =? s).
  - destruct (k =? s); simpl; [f_equal|]; exact IH.
Qed.

Lemma histogram_replicate n s :
  s <= 9 -> histogram (replicate n s) = <[s := n]> (replicate 10 0).
Proof.
  intros Hs. apply list_eq. intros k.
  destruct (decide (k < 10)) as [Hk|Hk].
  - rewrite histogram_lookup; [|apply Forall_replicate; exact Hs|exact Hk].
    rewrite count_score_replicate.
    destruct (Nat.eqb_spec k s) as [->|Hne].
    + rewrite list_lookup_insert_eq; [reflexivity|rewrite length_replicate; lia].
    + rewrite list_lookup_insert_ne by congruence.
      now rewrite lookup_replicate_2.
  - rewrite !lookup_ge_None_2; [reflexivity| |].
    + rewrite length_insert, length_replicate. lia.
    + rewrite histogram_length. lia.
Qed.

Lemma monte_carlo_total self odds picks w :
  length picks <= 9 -> 1 <= num_simulations self ->
  exists scores dist w',
    run_trials (num_simulations self) odds picks (count_simulation w).2
      = (Ok scores, w')
    /\ _monte_carlo_simulation self odds picks w = (Ok dist, w')
    /\ length dist = 10
    /\ (forall k, k < 10 ->
          dist !! k = Some (share (num_simulations self) (count_score k scores)))
    /\ Forall (fun q => (0 <= q)%Q) dist
    /\ (Qsum dist == 1)%Q.
Proof.
  intros Hpicks Hn.
  destruct (monte_carlo_unfold self odds picks w)
    as (scores & w' & Hr & Hsim & Hlen & Hall & _).
  assert (Hall9 : Forall (fun s => s <= 9) scores).
  { eapply Forall_impl; [exact Hall|]. simpl. intros; lia. }
  assert (Htotal : sum_list (histogram scores) = num_simulations self).
  { now rewrite histogram_total. }
  exists scores, (share (num_simulations self) <$> histogram scores), w'.
  split; [exact Hr|]. split.
  { rewrite Hsim, Htotal, normalize_ok by lia. reflexivity. }
  split; [now rewrite length_fmap, histogram_length|]. split.
  { intros k Hk. rewrite list_lookup_fmap, histogram_lookup by assumption.
    reflexivity. }
  split.
  { apply Forall_fmap, Forall_forall. intros c _. apply share_nonneg. }
  rewrite Qsum_share, Htotal. apply share_self. lia.
Qed.

(** * The simulator, trial by trial *)

Lemma trial_score_le stream pos odds picks i :
  trial_score stream pos odds picks i <= length picks.
Proof. apply correct_picks_le. Qed.

Lemma simulate_trial_score odds picks w :
  simulate_trial odds picks w
  = (Ok (trial_score (rng_stream w) (rng_pos w) odds picks 0),
     {| rng_stream := rng_stream w;
        rng_pos := rng_pos w + length odds;
        simulations_run := simulations_run w |}).
Proof.
  unfold simulate_trial, trial_score, bind, np_random, ret.
  assert (Hdraws :
    (fun k => draw_val (rng_stream w (rng_pos w + k))) <$> seq 0 (length odds)
    = (fun k => draw_val (rng_stream w (rng_pos w + 0 * length odds + k)))
        <$> seq 0 (length odds)).
  { apply list_fmap_ext. intros _ k _. do 2 f_equal. lia. }
  now rewrite Hdraws.
Qed.

Lemma trial_score_shift stream pos odds picks i :
  trial_score stream (pos + length odds) odds picks i
  = trial_score stream pos odds picks (S i).
Proof.
  unfold trial_score.
  assert (Hdraws :
    (fun k => draw_val (stream (pos + length odds + i * length odds + k)))
      <$> seq 0 (length odds)
    = (fun k => draw_val (stream (pos + S i * length odds + k)))
        <$> seq 0 (length odds)).
  { apply list_fmap_ext. intros _ k _. do 2 f_equal. lia. }
  now rewrite Hdraws.
Qed.

Lemma run_trials_scores n odds picks : forall w,
  run_trials n odds picks w
  = (Ok (trial_score (rng_stream w) (rng_pos w) odds picks <$> seq 0 n),
     {| rng_stream := rng_stream w;
        rng_pos := rng_pos w + n * length odds;
        simulations_run := simulations_run w |}).
Proof.
  induction n as [|n IH]; intros w.
  - cbn [run_trials ret seq fmap list_fmap]. destruct w; simpl.
    do 2 f_equal. lia.
  - cbn [run_trials].
    erewrite bind_ok by apply simulate_trial_score.
    erewrite bind_ok by apply IH.
    cbn [rng_stream rng_pos simulations_run]. unfold ret.
    assert (Hrest :
      trial_score (rng_stream w) (rng_pos w + length odds) odds picks
        <$> seq 0 n
      = trial_score (rng_stream w) (rng_pos w) odds picks <$> seq 1 n).
    { rewrite <- fmap_S_seq, <- list_fmap_compose.
      apply list_fmap_ext. intros _ i _. apply trial_score_shift. }
    rewrite Hrest. cbn [seq]. rewrite fmap_cons.
    replace (rng_pos w + length odds + n * length odds)
      with (rng_pos w + S n * length odds) by lia.
    reflexivity.
Qed.

Lemma foldl_tally_lookup_any scores k : forall hist,
  k < 10 ->
  foldl tally hist scores !! k
  = (fun c => c + count_score k scores) <$> hist !! k.
Proof.
  induction scores as [|s scores IH]; intros hist Hk; cbn [foldl].
  - destruct (hist !! k); simpl; f_equal; unfold count_score; simpl; lia.
  - rewrite IH by exact Hk.
    destruct (le_lt_dec s 9) as [Hs|Hs].
    + rewrite tally_lookup by exact Hs.
      unfold count_score. simpl.
      destruct (hist !! k) as [c|]; simpl; [|reflexivity].
      f_equal. destruct (k =? s); simpl; lia.
    + rewrite tally_above by exact Hs.
      unfold count_score. simpl.
      destruct (Nat.eqb_spec k s) as [->|_]; [lia|reflexivity].
Qed.

Lemma histogram_lookup_any scores k :
  k < 10 -> histogram scores !! k = Some (count_score k scores).
Proof.
  intros Hk. unfold histogram.
  rewrite foldl_tally_lookup_any by exact Hk.
  rewrite lookup_replicate_2 by exact Hk. reflexivity.
Qed.

Lemma histogram_counts scores :
  histogram scores = (fun k => count_score k scores) <$> seq 0 10.
Proof.
  apply list_eq. intros k. destruct (decide (k < 10)) as [Hk|Hk].
  - rewrite histogram_lookup_any by exact Hk.
    rewrite list_lookup_fmap, lookup_seq_lt by exact Hk. reflexivity.
  - rewrite !lookup_ge_None_2; [reflexivity| |].
    + rewrite length_fmap, length_seq. lia.
    + rewrite histogram_length. lia.
Qed.

Lemma foldl_tally_sum_any scores : forall hist,
  length hist = 10 ->
  sum_list (foldl tally hist scores)
  = sum_list hist + length (List.filter (fun s => s <=? 9) scores).
Proof.
  induction scores as [|s scores IH]; intros hist Hlen; cbn [foldl List.filter].
  - simpl. lia.
  - rewrite IH by (now rewrite tally_length).
    destruct (Nat.leb_spec s 9) as [Hs|Hs].
    + unfold tally.
      replace (s <=? 9) with true by (symmetry; apply Nat.leb_le; lia).
      simpl. rewrite sum_list_alter_S by lia. lia.
    + rewrite tally_above by exact Hs. lia.
Qed.

Lemma histogram_sum scores :
  sum_list (histogram scores)
  = length (List.filter (fun s => s <=? 9) scores).
Proof.
  unfold histogram. rewrite foldl_tally_sum_any by apply length_replicate.
  now rewrite sum_list_replicate_0.
Qed.

Lemma filter_all {A} (p : A -> bool) xs :
  Forall (fun x => p x = true) xs -> List.filter p xs = xs.
Proof.
  induction 1 as [|x xs Hx _ IH]; simpl; [reflexivity|].
  now rewrite Hx, IH.
Qed.

Lemma filter_none {A} (p : A -> bool) xs :
  Forall (fun x => p x = false) xs -> List.filter p xs = [].
Proof.
  induction 1 as [|x xs Hx _ IH]; simpl; [reflexivity|].
  now rewrite Hx, IH.
Qed.

Lemma monte_carlo_scores self odds picks w :
  let scores :=
    trial_score (rng_stream w) (rng_pos w) odds picks
      <$> seq 0 (num_simulations self) in
  _monte_carlo_simulation self odds picks w
  = (normalize (sum_list (histogram scores)) (histogram scores),
     {| rng_stream := rng_stream w;
        rng_pos := rng_pos w + num_simulations self * length odds;
        simulations_run := S (simulations_run w) |}).
Proof.
  intros scores. unfold _monte_carlo_simulation.
  erewrite bind_ok by reflexivity.
  erewrite bind_ok by apply run_trials_scores.
  reflexivity.
Qed.

Lemma trial_score_certain stream pos odds picks i :
  certain_correct odds picks ->
  trial_score stream pos odds picks i = length picks.
Proof.
  intros Hc. unfold trial_score.
  apply correct_picks_all, certain_outcomes; [exact Hc| |].
  - rewrite length_fmap, length_seq. reflexivity.
  - apply Forall_fmap, Forall_forall. intros k _. apply draw_val_range.
Qed.

(** C10.  The simulator runs [num_simulations] trials, each on the next
    [len(odds_vector)] draws; it tallies their scores into a histogram of
    exactly ten buckets, bucket k counting the trials that scored k, so
    that scores above 9 are dropped and the histogram total is the number
    of trials that scored at most 9; it then divides every bucket by that
    total with no guard: the call raises [ZeroDivisionError] exactly when
    no trial scored at most 9, and otherwise returns the ten quotients.
    Hence ten or more matches whose picks are all certain to be right make
    the call fail, whatever the generator and the trial count. *)
Theorem ten_bucket_histogram_division_by_zero self odds picks w :
  let n := num_simulations self in
  let scores :=
    trial_score (rng_stream w) (rng_pos w) odds picks <$> seq 0 n in
  let hist := histogram scores in
  let after :=
    {| rng_stream := rng_stream w;
       rng_pos := rng_pos w + n * length odds;
       simulations_run := S (simulations_run w) |} in
  length scores = n
  /\ length hist = 10
  /\ (forall k, k < 10 -> hist !! k = Some (count_score k scores))
  /\ sum_list hist = length (List.filter (fun s => s <=? 9) scores)
  /\ _monte_carlo_simulation self odds picks w
     = (if sum_list hist =? 0 then Raise ZeroDivisionError
        else Ok (share (sum_list hist) <$> hist), after)
  /\ (certain_correct odds picks -> 10 <= length picks ->
      scores = replicate n (length picks)
      /\ hist = replicate 10 0
      /\ _monte_carlo_simulation self odds picks w
         = (Raise ZeroDivisionError, after)).
Proof.
  intros n scores hist after.
  assert (Hsim : _monte_carlo_simulation self odds picks w
                 = (if sum_list hist =? 0 then Raise ZeroDivisionError
                    else Ok (share (sum_list hist) <$> hist), after)).
  { rewrite monte_carlo_scores. fold n scores hist after. f_equal.
    destruct (Nat.eqb_spec (sum_list hist) 0) as [H0|Hpos].
    - rewrite H0. apply normalize_zero. intros Hnil.
      pose proof (histogram_length scores) as Hl. fold hist in Hl.
      rewrite Hnil in Hl. discriminate.
    - now apply normalize_ok. }
  split; [subst scores; now rewrite length_fmap, length_seq|].
  split; [apply histogram_length|].
  split; [intros k Hk; now apply histogram_lookup_any|].
  split; [apply histogram_sum|].
  split; [exact Hsim|].
  intros Hc Hten.
  assert (Hscores : scores = replicate n (length picks)).
  { subst scores. apply list_eq. intros i.
    rewrite list_lookup_fmap.
    destruct (decide (i < n)) as [Hi|Hi].
    - rewrite lookup_seq_lt, lookup_replicate_2 by exact Hi. simpl.
      f_equal. now apply trial_score_certain.
    - rewrite lookup_seq_ge by lia.
      symmetry. apply lookup_replicate_None. lia. }
  assert (Hhist : hist = replicate 10 0).
  { subst hist. rewrite Hscores. apply histogram_all_above.
    apply Forall_replicate. lia. }
  split; [exact Hscores|]. split; [exact Hhist|].
  rewrite Hsim, Hhist. reflexivity.
Qed.

Lemma ten_bucket_histogram_division_by_zero_witness :
  certain_correct (replicate 10 1%Q) (replicate 10 1%Z)
  /\ (_monte_carlo_simulation one_trial
        (replicate 10 1%Q) (replicate 10 1%Z) world0).1
     = Raise ZeroDivisionError.
Proof.
  assert (Hc : certain_correct (replicate 10 1%Q) (replicate 10 1%Z)).
  { apply Forall2_replicate. left. split; reflexivity. }
  split; [exact Hc|].
  destruct (ten_bucket_histogram_division_by_zero one_trial
              (replicate 10 1%Q) (replicate 10 1%Z) world0)
    as (_ & _ & _ & _ & _ & Hfail).
  destruct (Hfail Hc) as (_ & _ & ->); [simpl; lia|]. reflexivity.
Defined.

(** C2, as amended.  For a win-probability vector and a pick vector of
    common length N not above 9 and a positive trial count, the simulator
    returns a distribution of length 10, not N+1: its entry for each score
    0..9 is the number of trials that ended with that score divided by the
    trial count, no trial scores above N, the ten numbers of trials add up
    to the trial count, and the entries are non-negative and sum to 1
    within [tolerance]. *)
Theorem simulation_returns_ten_bucket_distribution self odds picks w N :
  length odds = N -> length picks = N -> N <= 9 ->
  1 <= num_simulations self ->
  let n := num_simulations self in
  let scores :=
    trial_score (rng_stream w) (rng_pos w) odds picks <$> seq 0 n in
  exists dist w',
    _monte_carlo_simulation self odds picks w = (Ok dist, w')
    /\ length dist = 10
    /\ (forall k, k < 10 ->
          dist !! k = Some (share n (count_score k scores)))
    /\ (forall k, N < k -> count_score k scores = 0)
    /\ sum_list ((fun k => count_score k scores) <$> seq 0 10) = n
    /\ Forall (fun q => (0 <= q)%Q) dist
    /\ (Qabs (Qsum dist - 1) <= tolerance)%Q.
Proof.
  intros _ Hpicks HN Hn n scores.
  assert (Hall : Forall (fun s => s <= N) scores).
  { subst scores. apply Forall_fmap, Forall_forall. intros i _. simpl.
    rewrite <- Hpicks. apply trial_score_le. }
  assert (Hlen : length scores = n).
  { subst scores. now rewrite length_fmap, length_seq. }
  assert (Htotal : sum_list (histogram scores) = n).
  { rewrite histogram_sum, filter_all, Hlen; [reflexivity|].
    eapply Forall_impl; [exact Hall|]. simpl. intros s Hs.
    apply Nat.leb_le. lia. }
  eexists _, _. split.
  { rewrite monte_carlo_scores. fold n scores.
    rewrite Htotal, normalize_ok by (subst n; lia). reflexivity. }
  split; [now rewrite length_fmap, histogram_length|].
  split.
  { intros k Hk. now rewrite list_lookup_fmap, histogram_lookup_any. }
  split.
  { intros k Hk. unfold count_score. rewrite filter_none; [reflexivity|].
    eapply Forall_impl; [exact Hall|]. simpl. intros s Hs.
    apply Nat.eqb_neq. lia. }
  split; [now rewrite <- histogram_counts|].
  split.
  { apply Forall_fmap, Forall_forall. intros c _. apply share_nonneg. }
  assert (Hone : (Qsum (share n <$> histogram scores) == 1)%Q).
  { rewrite Qsum_share, Htotal. apply share_self. subst n. lia. }
  rewrite Hone. unfold tolerance. apply Qabs_Qle_condition.
  split; unfold Qle; simpl; lia.
Qed.

Lemma simulation_returns_ten_bucket_distribution_witness :
  let scores := trial_score half_stream 0 [1 # 2]%Q [1%Z] <$> seq 0 1 in
  exists dist w',
    _monte_carlo_simulation one_trial [1 # 2]%Q [1%Z] world0 = (Ok dist, w')
    /\ length dist = 10
    /\ (forall k, k < 10 ->
          dist !! k = Some (share 1 (count_score k scores)))
    /\ (forall k, 1 < k -> count_score k scores = 0)
    /\ sum_list ((fun k => count_score k scores) <$> seq 0 10) = 1
    /\ Forall (fun q => (0 <= q)%Q) dist
    /\ (Qabs (Qsum dist - 1) <= tolerance)%Q.
Proof.
  apply (simulation_returns_ten_bucket_distribution
           one_trial [1 # 2]%Q [1%Z] world0 1);
    [reflexivity | reflexivity | lia | simpl; lia].
Defined.

(** C2 as written fails: for one match the distribution has ten entries,
    not N+1 = 2; and for ten matches that are all sure to go to the side
    picked no distribution is returned at all. *)
Lemma simulation_length_counterexample :
  (exists dist,
      (_monte_carlo_simulation one_trial [1 # 2]%Q [1%Z] world0).1 = Ok dist
      /\ length [1 # 2]%Q = 1 /\ length [1%Z] = 1
      /\ length dist <> 1 + 1)
  /\ length (replicate 10 1%Q) = 10 /\ length (replicate 10 1%Z) = 10
  /\ (_monte_carlo_simulation one_trial
        (replicate 10 1%Q) (replicate 10 1%Z) world0).1
     = Raise ZeroDivisionError.
Proof.
  split.
  { eexists. split; [vm_compute; reflexivity|].
    repeat split; simpl; lia. }
  split; [reflexivity|]. split; [reflexivity|].
  vm_compute. reflexivity.
Qed.

(** C9, as amended.  When every pick is certain to be right, the slate has
    N matches with N not above 9 and at least one trial is run, the
    simulator returns a ten-entry distribution whose mass is entirely at
    score N. *)
Theorem certain_picks_put_all_mass_at_N self odds picks w N :
  certain_correct odds picks ->
  length picks = N -> N <= 9 -> 1 <= num_simulations self ->
  exists dist w',
    _monte_carlo_simulation self odds picks w = (Ok dist, w')
    /\ Forall2 Qeq dist (<[N := 1%Q]> (replicate 10 0%Q)).
Proof.
  intros Hc Hlen HN Hn.
  destruct (monte_carlo_unfold self odds picks w)
    as (scores & w' & Hr & Hsim & _).
  destruct (run_trials_certain (num_simulations self) _ _
              (count_simulation w).2 Hc) as (w'' & Hr').
  rewrite Hr in Hr'. injection Hr' as -> _.
  rewrite Hlen in Hsim.
  rewrite (histogram_replicate _ N HN) in Hsim.
  assert (Htotal : sum_list (<[N := num_simulations self]> (replicate 10 0))
                   = num_simulations self).
  { rewrite <- (histogram_replicate _ N HN), histogram_total
      by (apply Forall_replicate; exact HN).
    apply length_replicate. }
  rewrite Htotal, normalize_ok in Hsim by lia.
  eexists _, w'. split; [exact Hsim|].
  rewrite list_fmap_insert, fmap_replicate.
  apply Forall2_insert.
  - apply Forall2_replicate, share_zero.
  - apply share_self. lia.
Qed.

Lemma certain_picks_put_all_mass_at_N_witness :
  exists dist w',
    _monte_carlo_simulation one_trial [1; 0]%Q [1; 0]%Z world0 = (Ok dist, w')
    /\ Forall2 Qeq dist (<[2 := 1%Q]> (replicate 10 0%Q)).
Proof.
  apply (certain_picks_put_all_mass_at_N one_trial [1; 0]%Q [1; 0]%Z world0 2).
  - unfold certain_correct.
    constructor; [left; split; reflexivity|].
    constructor; [right; split; reflexivity|].
    constructor.
  - reflexivity.
  - lia.
  - simpl; lia.
Defined.

(** C9 as written fails for ten matches: every trial scores 10, no bucket
    receives it, and the call raises instead of returning a distribution. *)
Lemma certain_picks_ten_matches_counterexample :
  certain_correct (replicate 10 1%Q) (replicate 10 1%Z)
  /\ (_monte_carlo_simulation one_trial
        (replicate 10 1%Q) (replicate 10 1%Z) world0).1
     = Raise ZeroDivisionError.
Proof.
  split.
  - apply Forall2_replicate. left. split; reflexivity.
  - vm_compute. reflexivity.
Qed.

(** ** The enumerator *)

Lemma product_repeat_sides_length n :
  length (product_repeat [team_a; team_b] n) = 2 ^ n.
Proof.
  induction n as [|n IH]; [reflexivity|].
  cbn [product_repeat flat_map].
  rewrite !length_app, !length_fmap, IH. simpl. lia.
Qed.

Lemma product_repeat_sides_elem n (picks : list side) :
  picks ∈ product_repeat [team_a; team_b] n -> length picks = n.
Proof.
  revert picks. induction n as [|n IH]; intros picks; cbn [product_repeat flat_map].
  - intros ->%list_elem_of_singleton. reflexivity.
  - rewrite app_nil_r, elem_of_app, !list_elem_of_fmap.
    intros [(tl & -> & Htl)|(tl & -> & Htl)]; simpl; f_equal; now apply IH.
Qed.

Lemma product_repeat_sides_NoDup n : NoDup (product_repeat [team_a; team_b] n).
Proof.
  induction n as [|n IH]; cbn [product_repeat flat_map].
  - apply NoDup_singleton.
  - rewrite app_nil_r. apply NoDup_app. split; [|split].
    + apply (NoDup_fmap_2 _), IH.
    + intros picks (tl & -> & _)%list_elem_of_fmap (tl' & Heq & _)%list_elem_of_fmap.
      discriminate.
    + apply (NoDup_fmap_2 _), IH.
Qed.

Lemma py_dict_fold_notin {V} (keys : list string) (vals : list V)
    (m : gmap string V) k :
  k ∉ keys ->
  foldl (fun m kv => <[kv.1 := kv.2]> m) m (zip keys vals) !! k = m !! k.
Proof.
  revert vals m. induction keys as [|k0 keys IH]; intros vals m Hk; [reflexivity|].
  destruct vals as [|v0 vals]; [reflexivity|]. simpl.
  apply not_elem_of_cons in Hk as [Hne Hk].
  rewrite IH by exact Hk. now apply lookup_insert_ne.
Qed.

Lemma py_dict_fold_lookup {V} (keys : list string) (vals : list V)
    (m : gmap string V) i k v :
  NoDup keys -> keys !! i = Some k -> vals !! i = Some v ->
  foldl (fun m kv => <[kv.1 := kv.2]> m) m (zip keys vals) !! k = Some v.
Proof.
  intros Hnd. revert vals m i.
  induction Hnd as [|k0 keys Hk0 _ IH]; intros vals m i Hki Hvi; [discriminate|].
  destruct vals as [|v0 vals]; [discriminate|].
  destruct i as [|i]; simpl in *.
  - injection Hki as ->. injection Hvi as ->.
    rewrite py_dict_fold_notin by exact Hk0.
    apply lookup_insert_eq.
  - eapply IH; eassumption.
Qed.

Lemma py_dict_fold_dom {V} (keys : list string) (vals : list V)
    (m : gmap string V) :
  length keys = length vals ->
  dom (foldl (fun m kv => <[kv.1 := kv.2]> m) m (zip keys vals))
  = dom m ∪ list_to_set keys.
Proof.
  revert vals m. induction keys as [|k0 keys IH]; intros vals m Hlen.
  - simpl. now rewrite (right_id_L ∅ (∪)).
  - destruct vals as [|v0 vals]; [discriminate|]. simpl in *.
    rewrite IH by lia. rewrite dom_insert_L.
    apply set_eq. intros x. rewrite !elem_of_union. tauto.
Qed.

Lemma py_dict_dom {V} (keys : list string) (vals : list V) :
  length keys = length vals ->
  dom (py_dict (zip keys vals)) = list_to_set keys.
Proof.
  intros Hlen. unfold py_dict. rewrite py_dict_fold_dom by exact Hlen.
  rewrite dom_empty_L. apply (left_id_L ∅ (∪)).
Qed.

Lemma py_dict_inj {V} (keys : list string) (vals vals' : list V) :
  NoDup keys ->
  length vals = length keys -> length vals' = length keys ->
  py_dict (zip keys vals) = py_dict (zip keys vals') -> vals = vals'.
Proof.
  intros Hnd Hlen Hlen' Heq. apply list_eq. intros i.
  destruct (keys !! i) as [k|] eqn:Hk.
  - destruct (lookup_lt_is_Some_2 vals i) as [v Hv];
      [rewrite Hlen; eapply lookup_lt_Some; eassumption|].
    destruct (lookup_lt_is_Some_2 vals' i) as [v' Hv'];
      [rewrite Hlen'; eapply lookup_lt_Some; eassumption|].
    rewrite Hv, Hv'.
    rewrite <- (py_dict_fold_lookup keys vals ∅ i k v Hnd Hk Hv).
    rewrite <- (py_dict_fold_lookup keys vals' ∅ i k v' Hnd Hk Hv').
    fold (py_dict (zip keys vals)). fold (py_dict (zip keys vals')).
    now rewrite Heq.
  - apply lookup_ge_None in Hk.
    rewrite !lookup_ge_None_2 by lia. reflexivity.
Qed.

Lemma filter_all_true {A} (f : A -> bool) (xs : list A) :
  (forall x, f x = true) -> List.filter f xs = xs.
Proof.
  intros Hf. induction xs as [|x xs IH]; simpl; [reflexivity|].
  now rewrite Hf, IH.
Qed.

Lemma generate_unsafe_combinations_spec inp w :
  exists combos,
    _generate_unsafe_combinations inp w = (Ok combos, w)
    /\ length combos = 2 ^ size (unsafe_matches inp)
    /\ NoDup combos
    /\ (forall c, c ∈ combos -> dom c = unsafe_matches inp)
    /\ (size (unsafe_matches inp) = 0 -> combos = [∅]).
Proof.
  unfold _generate_unsafe_combinations.
  change (length (elements (unsafe_matches inp)))
    with (size (unsafe_matches inp)).
  destruct (Nat.eqb_spec (size (unsafe_matches inp)) 0) as [H0|Hpos].
  - exists [∅]. split; [reflexivity|]. rewrite H0.
    split; [reflexivity|]. split; [apply NoDup_singleton|]. split; [|auto].
    intros c ->%list_elem_of_singleton.
    apply size_empty_inv, leibniz_equiv in H0.
    now rewrite H0, dom_empty_L.
  - eexists. split; [reflexivity|].
    rewrite filter_all_true by reflexivity.
    split; [now rewrite length_fmap, product_repeat_sides_length|].
    split; [|split; [|intros; contradiction]].
    + apply NoDup_fmap_2_strong; [|apply product_repeat_sides_NoDup].
      intros p p' Hp Hp'.
      apply py_dict_inj;
        [apply NoDup_elements | now apply product_repeat_sides_elem ..].
    + intros c (p & -> & Hp)%list_elem_of_fmap.
      rewrite py_dict_dom
        by (symmetry; now apply product_repeat_sides_elem).
      apply list_to_set_elements_L.
Qed.

(** C3.  For every set of U unsafe matches the enumerator returns exactly
    2^U pairwise distinct combinations, each of which assigns a side to
    every unsafe match and to nothing else; for U = 0 it returns the single
    empty combination. *)
Theorem enumerator_yields_two_to_the_U_distinct_combinations inp w :
  exists combos,
    _generate_unsafe_combinations inp w = (Ok combos, w)
    /\ length combos = 2 ^ size (unsafe_matches inp)
    /\ NoDup combos
    /\ (forall c, c ∈ combos ->
          forall m, m ∈ unsafe_matches inp <-> exists s : side, c !! m = Some s)
    /\ (size (unsafe_matches inp) = 0 -> combos = [∅]).
Proof.
  destruct (generate_unsafe_combinations_spec inp w)
    as (combos & Hgen & Hlen & Hnd & Hdom & Hzero).
  exists combos. repeat split; auto.
  - intros Hm. rewrite <- (Hdom c H) in Hm. now apply elem_of_dom in Hm.
  - intros Hs. rewrite <- (Hdom c H). now apply elem_of_dom.
Qed.

(** ** Validation *)

Lemma prob_in_range_true prob :
  prob_in_range prob = true <-> (0 <= prob)%Q /\ (prob <= 1)%Q.
Proof.
  unfold prob_in_range. now rewrite andb_true_iff, !Qle_bool_iff.
Qed.

Lemma validate_input_ok inp w :
  valid_input inp -> _validate_input inp w = (Ok tt, w).
Proof.
  intros (Hne & Hrange & Hcount & Hpicks). unfold _validate_input.
  rewrite bool_decide_eq_false_2 by exact Hne.
  assert (forallb prob_in_range (odds_vector inp) = true) as ->.
  { apply forallb_forall. intros prob Hin.
    apply prob_in_range_true.
    rewrite Forall_forall in Hrange. apply Hrange.
    now apply list_elem_of_In. }
  simpl.
  replace (_ <? _) with false by (symmetry; apply Nat.ltb_ge; exact Hcount).
  rewrite Hpicks. reflexivity.
Qed.

Lemma validate_input_rejects inp w :
  odds_vector inp = []
  \/ Exists (fun prob => ~ ((0 <= prob)%Q /\ (prob <= 1)%Q)) (odds_vector inp)
  \/ length (odds_vector inp)
     < size (safe_matches inp) + size (unsafe_matches inp) ->
  exists msg, _validate_input inp w = (Raise (ValueError msg), w).
Proof.
  intros Hbad. unfold _validate_input.
  case_bool_decide as Hempty; [eexists; reflexivity|].
  destruct (forallb prob_in_range (odds_vector inp)) eqn:Hall; simpl;
    [|eexists; reflexivity].
  destruct (Nat.ltb_spec (length (odds_vector inp))
              (size (safe_matches inp) + size (unsafe_matches inp)))
    as [Hlt|Hge]; [eexists; reflexivity|].
  exfalso. destruct Hbad as [Hbad|[Hbad|Hbad]]; [contradiction| |lia].
  apply Exists_exists in Hbad as (prob & Hin & Hout). apply Hout.
  apply prob_in_range_true.
  rewrite forallb_forall in Hall. apply Hall. now apply list_elem_of_In.
Qed.

(** C4.  When the probability vector is empty, or some probability lies
    outside [0,1], or the safe and unsafe matches together outnumber the
    probabilities, [optimize] raises a validation error and leaves the
    state as it found it: no simulation has been counted, no draw has been
    consumed, and no result is returned. *)
Theorem validation_failure_precedes_simulation self inp w :
  odds_vector inp = []
  \/ Exists (fun prob => ~ ((0 <= prob)%Q /\ (prob <= 1)%Q)) (odds_vector inp)
  \/ length (odds_vector inp)
     < size (safe_matches inp) + size (unsafe_matches inp) ->
  exists msg, optimize self inp w = (Raise (ValueError msg), w).
Proof.
  intros Hbad.
  destruct (validate_input_rejects inp w Hbad) as (msg & Hv).
  exists msg. unfold optimize. now apply bind_raise.
Qed.

Lemma validation_failure_precedes_simulation_witness :
  exists msg,
    optimize one_trial
      {| odds_vector := [3 # 2]%Q; safe_matches := ∅; unsafe_matches := ∅;
         constraints := ∅; target_score := 5; match_ids := Some ["m0"] |}
      world0
    = (Raise (ValueError msg), world0).
Proof.
  apply validation_failure_precedes_simulation.
  right; left. simpl. apply Exists_cons_hd.
  intros [_ H]. revert H. unfold Qle. simpl. lia.
Defined.

(** ** The search loop *)

Lemma bind_inv_ok {A B} (m : M A) (k : A -> M B) w b w' :
  bind m k w = (Ok b, w') ->
  exists a w1, m w = (Ok a, w1) /\ k a w1 = (Ok b, w').
Proof.
  unfold bind. destruct (m w) as [[a|e] w1]; [eauto|discriminate].
Qed.

Lemma rbind_inv_ok {A B} (r : result A) (k : A -> result B) b :
  rbind r k = Ok b -> exists a, r = Ok a /\ k a = Ok b.
Proof. destruct r as [a|e]; simpl; [eauto|discriminate]. Qed.

Lemma monte_carlo_ok_inv self odds picks w dist w' :
  _monte_carlo_simulation self odds picks w = (Ok dist, w') ->
  length dist = 10
  /\ Forall (fun q => (0 <= q)%Q) dist
  /\ (Qsum dist == 1)%Q
  /\ simulations_run w' = S (simulations_run w).
Proof.
  intros Hsim.
  destruct (monte_carlo_unfold self odds picks w)
    as (scores & w1 & _ & Heq & _ & _ & Hcount).
  rewrite Heq in Hsim. injection Hsim as Hnorm ->.
  destruct (Nat.eq_dec (sum_list (histogram scores)) 0) as [H0|Hpos].
  - rewrite H0, normalize_zero in Hnorm; [discriminate|].
    intros Hnil. pose proof (histogram_length scores) as Hl.
    rewrite Hnil in Hl. discriminate.
  - rewrite normalize_ok in Hnorm by exact Hpos. injection Hnorm as <-.
    split; [now rewrite length_fmap, histogram_length|].
    split; [apply Forall_fmap, Forall_forall; intros c _; apply share_nonneg|].
    split; [|exact Hcount].
    rewrite Qsum_share. now apply share_self.
Qed.

Lemma py_slice_from_Forall {A} (P : A -> Prop) xs k :
  Forall P xs -> Forall P (py_slice_from xs k).
Proof. intros H. unfold py_slice_from. case_match; now apply Forall_drop. Qed.

Lemma target_prob_nonneg inp dist :
  Forall (fun q => (0 <= q)%Q) dist -> (0 <= target_prob_of inp dist)%Q.
Proof.
  intros H. unfold target_prob_of. now apply Qsum_nonneg, py_slice_from_Forall.
Qed.

Lemma evaluate_combination_inv self inp st comb w st' w' :
  evaluate_combination self inp st comb w = (Ok st', w') ->
  exists picks dist,
    _create_pick_vector inp comb = Ok picks
    /\ _monte_carlo_simulation self (odds_vector inp) picks w = (Ok dist, w')
    /\ let c := candidate_of inp comb picks dist in
       all_results st' = all_results st ++ [c]
       /\ if Qgtb (target_probability c) (best_score st)
          then best_combination st' = Some c
               /\ best_score st' = target_probability c
          else best_combination st' = best_combination st
               /\ best_score st' = best_score st.
Proof.
  unfold evaluate_combination. intros H.
  apply bind_inv_ok in H as (picks & w1 & Hp & H).
  unfold lift_result in Hp. injection Hp as Hp <-.
  apply bind_inv_ok in H as (dist & w2 & Hsim & H).
  unfold ret in H. injection H as <- <-.
  exists picks, dist. split; [exact Hp|]. split; [exact Hsim|].
  cbv zeta. destruct (Qgtb _ _); simpl; auto.
Qed.

Lemma candidate_of_evaluated self inp comb picks dist w w' :
  _create_pick_vector inp comb = Ok picks ->
  _monte_carlo_simulation self (odds_vector inp) picks w = (Ok dist, w') ->
  evaluated inp (candidate_of inp comb picks dist).
Proof.
  intros Hp Hsim.
  apply monte_carlo_ok_inv in Hsim as (Hlen & Hnn & Hsum & _).
  unfold evaluated. simpl. auto 10.
Qed.

Lemma evaluated_target_nonneg inp c :
  evaluated inp c -> (0 <= target_probability c)%Q.
Proof.
  intros (_ & _ & Hnn & _ & -> & _). now apply target_prob_nonneg.
Qed.

Lemma search_inv_initial inp : search_inv inp initial_search.
Proof. split; [constructor|]. simpl. auto. Qed.

Lemma search_inv_step self inp st comb w st' w' :
  search_inv inp st ->
  evaluate_combination self inp st comb w = (Ok st', w') ->
  search_inv inp st'
  /\ exists c, all_results st' = all_results st ++ [c] /\ combination c = comb.
Proof.
  intros [Hall Hbest] Hstep.
  apply evaluate_combination_inv in Hstep
    as (picks & dist & Hp & Hsim & Hres & Hsel).
  set (c := candidate_of inp comb picks dist) in *.
  assert (Hc : evaluated inp c) by (eapply candidate_of_evaluated; eassumption).
  pose proof (evaluated_target_nonneg inp c Hc) as Hc0.
  split; [|exists c; split; [exact Hres|reflexivity]].
  split; [rewrite Hres; apply Forall_app; split; [exact Hall|now constructor]|].
  destruct (Qgtb (target_probability c) (best_score st)) eqn:Hgt.
  - destruct Hsel as [-> ->]. split; [reflexivity|].
    apply Qgtb_true in Hgt.
    exists (length (all_results st)). rewrite Hres. split; [|split].
    + now rewrite lookup_app_r, Nat.sub_diag by lia.
    + intros c' [Hin|Hin%list_elem_of_singleton]%elem_of_app; [|subst; lra].
      destruct (best_combination st) as [win|].
      * destruct Hbest as (Hbs & k & _ & Hmax & _).
        specialize (Hmax c' Hin). rewrite Hbs in Hgt. lra.
      * destruct Hbest as [Hnil _]. rewrite Hnil in Hin.
        now apply elem_of_nil in Hin.
    + intros j c' Hj Hlook. rewrite lookup_app_l in Hlook by exact Hj.
      destruct (best_combination st) as [win|].
      * destruct Hbest as (Hbs & k & _ & Hmax & _).
        assert (c' ∈ all_results st) as Hin
          by (apply list_elem_of_lookup; eauto).
        specialize (Hmax c' Hin). rewrite Hbs in Hgt. lra.
      * destruct Hbest as [Hnil _]. rewrite Hnil in Hj. simpl in Hj. lia.
  - destruct Hsel as [-> ->].
    apply Qgtb_false in Hgt.
    destruct (best_combination st) as [win|].
    + destruct Hbest as (Hbs & k & Hk & Hmax & Hfirst).
      split; [exact Hbs|]. exists k. rewrite Hres. split; [|split].
      * rewrite lookup_app_l; [exact Hk|]. eapply lookup_lt_Some; eassumption.
      * intros c' [Hin|Hin%list_elem_of_singleton]%elem_of_app.
        -- now apply Hmax.
        -- subst c'. rewrite Hbs in Hgt. exact Hgt.
      * intros j c' Hj Hlook. apply (Hfirst j c' Hj).
        rewrite lookup_app_l in Hlook; [exact Hlook|].
        apply lookup_lt_Some in Hk. lia.
    + destruct Hbest as [_ Hbs]. rewrite Hbs in Hgt.
      exfalso. revert Hgt Hc0. unfold Qle. simpl. lia.
Qed.

Lemma evaluate_all_inv self inp combs : forall st w st' w',
  search_inv inp st ->
  evaluate_all self inp st combs w = (Ok st', w') ->
  search_inv inp st'
  /\ exists cs, all_results st' = all_results st ++ cs
                /\ combination <$> cs = combs.
Proof.
  induction combs as [|comb combs IH]; intros st w st' w' Hinv Hrun; simpl in Hrun.
  - unfold ret in Hrun. injection Hrun as <- <-.
    split; [exact Hinv|]. exists []. now rewrite app_nil_r.
  - apply bind_inv_ok in Hrun as (st1 & w1 & Hstep & Hrun).
    destruct (search_inv_step _ _ _ _ _ _ _ Hinv Hstep)
      as (Hinv1 & c & Hres1 & Hcomb).
    destruct (IH _ _ _ _ Hinv1 Hrun) as (Hinv' & cs & Hres' & Hcombs).
    split; [exact Hinv'|]. exists (c :: cs). split.
    + rewrite Hres', Hres1, <- app_assoc. reflexivity.
    + now rewrite fmap_cons, Hcomb, Hcombs.
Qed.

(** ** The report *)

Lemma create_result_inv inp best all res :
  _create_result inp best all = Ok res ->
  exists win lo hi optimal,
    best = Some win
    /\ first_reaching (1 # 40) 0 (np_cumsum (score_distribution win)) = Ok lo
    /\ first_reaching (39 # 40) 0 (np_cumsum (score_distribution win)) = Ok hi
    /\ optimal_picks_loop inp win (default [] (match_ids inp))
         (default [] (match_ids inp)) = Ok optimal
    /\ res = {| OptimizationResult.optimal_picks := optimal;
                OptimizationResult.expected_score := expected_score win;
                OptimizationResult.score_distribution := score_distribution win;
                OptimizationResult.confidence_interval := (lo, hi);
                OptimizationResult.risk_analysis :=
                  _generate_risk_analysis inp win;
                OptimizationResult.alternative_strategies :=
                  alternatives_of all |}.
Proof.
  unfold _create_result. destruct best as [win|]; [|discriminate].
  intros H.
  apply rbind_inv_ok in H as (lo & Hlo & H).
  apply rbind_inv_ok in H as (hi & Hhi & H).
  apply rbind_inv_ok in H as (optimal & Hopt & H).
  injection H as <-. exists win, lo, hi, optimal. auto.
Qed.

Lemma optimize_inv self inp w res w' :
  optimize self inp w = (Ok res, w') ->
  exists combos st,
    _validate_input inp w = (Ok tt, w)
    /\ _generate_unsafe_combinations inp w = (Ok combos, w)
    /\ evaluate_all self inp initial_search combos w = (Ok st, w')
    /\ _create_result inp (best_combination st) (all_results st) = Ok res.
Proof.
  unfold optimize. intros H.
  apply bind_inv_ok in H as ([] & w1 & Hv & H).
  apply bind_inv_ok in H as (combos & w2 & Hgen & H).
  apply bind_inv_ok in H as (st & w3 & Hrun & H).
  unfold lift_result in H. injection H as Hres <-.
  destruct (generate_unsafe_combinations_spec inp w1) as (combos' & Hgen' & _).
  rewrite Hgen' in Hgen. injection Hgen as <- <-.
  assert (w1 = w) as ->.
  { revert Hv. unfold _validate_input, raise, ret.
    repeat case_match; intros [= <-]; reflexivity. }
  exists combos', st. auto.
Qed.

Lemma generate_risk_analysis_confidence inp win :
  strategy_confidence (_generate_risk_analysis inp win)
  = Qmin (expected_score win / 9) 1.
Proof.
  unfold _generate_risk_analysis.
  destruct (risk_loop _ _ _ _) as [total risks]. reflexivity.
Qed.

(** C7, as amended.  In every result of [optimize] the strategy confidence
    is min(expected_score / 9, 1): the divisor is the constant 9 of the
    nine-pick format, whatever the length of the slate. *)
Theorem strategy_confidence_divides_by_nine self inp w res w' :
  optimize self inp w = (Ok res, w') ->
  strategy_confidence (OptimizationResult.risk_analysis res)
  = Qmin (OptimizationResult.expected_score res / 9) 1.
Proof.
  intros H. apply optimize_inv in H as (combos & st & _ & _ & _ & Hres).
  apply create_result_inv in Hres as (win & lo & hi & optimal & _ & _ & _ & _ & ->).
  simpl. apply generate_risk_analysis_confidence.
Qed.

Lemma strategy_confidence_divides_by_nine_witness :
  exists res w',
    optimize one_trial request_sure world0 = (Ok res, w')
    /\ strategy_confidence (OptimizationResult.risk_analysis res)
       = Qmin (OptimizationResult.expected_score res / 9) 1.
Proof.
  eexists _, _. split; [vm_compute; reflexivity|].
  eapply (strategy_confidence_divides_by_nine one_trial request_sure world0).
  vm_compute. reflexivity.
Defined.

(** C7 as written fails: on a slate of one match with expected score 1 the
    confidence is 1/9, not min(1/1, 1) = 1. *)
Lemma strategy_confidence_counterexample :
  exists res,
    (optimize one_trial request_sure world0).1 = Ok res
    /\ length (default [] (match_ids request_sure)) = 1
    /\ (OptimizationResult.expected_score res == 1)%Q
    /\ (strategy_confidence (OptimizationResult.risk_analysis res) == 1 # 9)%Q
    /\ ~ (strategy_confidence (OptimizationResult.risk_analysis res)
          == Qmin (OptimizationResult.expected_score res / inject_Z 1) 1)%Q.
Proof.
  eexists. split; [vm_compute; reflexivity|].
  split; [reflexivity|]. split; [reflexivity|]. split; [reflexivity|].
  intros H. vm_compute in H. discriminate H.
Qed.

(** ** Safe picks *)

Lemma py_index_lookup m ids idx :
  py_index m ids = Some idx -> ids !! idx = Some m.
Proof.
  revert idx. induction ids as [|y ids IH]; intros idx; simpl; [discriminate|].
  case_bool_decide as Hy.
  - intros [= <-]. now subst.
  - destruct (py_index m ids) as [j|]; [|discriminate].
    intros [= <-]. now apply IH.
Qed.

Lemma py_index_member ids i m :
  ids !! i = Some m -> exists idx, py_index m ids = Some idx /\ idx <= i.
Proof.
  revert i. induction ids as [|y ids IH]; intros i Hi; [discriminate|].
  simpl. case_bool_decide as Hy; [exists 0; split; [reflexivity|lia]|].
  destruct i as [|i]; simpl in Hi; [congruence|].
  destruct (IH i Hi) as (idx & -> & Hle). exists (S idx). split; [reflexivity|lia].
Qed.

Lemma py_index_NoDup ids i m :
  NoDup ids -> ids !! i = Some m -> py_index m ids = Some i.
Proof.
  intros Hnd Hi.
  destruct (py_index_member ids i m Hi) as (idx & Hidx & _).
  rewrite Hidx. f_equal.
  eapply NoDup_lookup; [exact Hnd| |exact Hi].
  now apply py_index_lookup.
Qed.

Lemma pick_entries_lookup inp comb ids : forall i0 picks i m,
  pick_entries inp comb i0 ids = Ok picks ->
  ids !! i = Some m ->
  exists b, picks !! i = Some b /\ pick_entry inp comb (i0 + i) m = Ok b.
Proof.
  induction ids as [|y ids IH]; intros i0 picks i m Hrun Hi; [discriminate|].
  simpl in Hrun.
  apply rbind_inv_ok in Hrun as (b & Hb & Hrun).
  apply rbind_inv_ok in Hrun as (bs & Hbs & Hrun).
  injection Hrun as <-.
  destruct i as [|i]; simpl in Hi.
  - injection Hi as ->. exists b. now rewrite Nat.add_0_r.
  - destruct (IH _ _ _ _ Hbs Hi) as (b' & Hlook & Hentry).
    exists b'. split; [exact Hlook|].
    now replace (i0 + S i) with (S i0 + i) by lia.
Qed.

Lemma pick_entries_length inp comb ids : forall i0 picks,
  pick_entries inp comb i0 ids = Ok picks -> length picks = length ids.
Proof.
  induction ids as [|y ids IH]; intros i0 picks Hrun; simpl in Hrun.
  - now injection Hrun as <-.
  - apply rbind_inv_ok in Hrun as (b & _ & Hrun).
    apply rbind_inv_ok in Hrun as (bs & Hbs & Hrun).
    injection Hrun as <-. simpl. f_equal. eapply IH, Hbs.
Qed.

Lemma optimal_picks_loop_lookup inp win ids todo : forall optimal i m,
  optimal_picks_loop inp win ids todo = Ok optimal ->
  todo !! i = Some m ->
  exists s, optimal !! i = Some s /\ optimal_pick inp win ids m = Ok s.
Proof.
  induction todo as [|y todo IH]; intros optimal i m Hrun Hi; [discriminate|].
  simpl in Hrun.
  apply rbind_inv_ok in Hrun as (s & Hs & Hrun).
  apply rbind_inv_ok in Hrun as (ss & Hss & Hrun).
  injection Hrun as <-.
  destruct i as [|i]; simpl in Hi.
  - injection Hi as ->. exists s. auto.
  - apply (IH _ _ _ Hss Hi).
Qed.

Lemma odds_above_half_inv inp i above :
  odds_above_half inp i = Ok above ->
  exists prob, odds_vector inp !! i = Some prob /\ above = Qgtb prob (1 # 2).
Proof.
  unfold odds_above_half. destruct (odds_vector inp !! i) as [prob|];
    [|discriminate].
  intros [= <-]. eauto.
Qed.

(** C6, as amended.  For every safe match the deterministic pick is side
    A exactly when the win probability is strictly greater than one half;
    at one half and below it is side B.  This holds of the entry of every
    pick vector that is simulated and of the entry of the reported optimal
    picks, the latter reading the probability at the first position that
    carries the match identifier (the match's own position when the
    identifiers are distinct). *)
Theorem safe_pick_is_side_A_only_above_half self inp w res w' :
  optimize self inp w = (Ok res, w') ->
  forall i m,
    default [] (match_ids inp) !! i = Some m ->
    m ∈ safe_matches inp ->
    (forall comb picks,
        _create_pick_vector inp comb = Ok picks ->
        exists prob,
          odds_vector inp !! i = Some prob
          /\ ((1 # 2 < prob)%Q -> picks !! i = Some 1%Z)
          /\ ((prob <= 1 # 2)%Q -> picks !! i = Some 0%Z))
    /\ exists idx prob,
         py_index m (default [] (match_ids inp)) = Some idx
         /\ (NoDup (default [] (match_ids inp)) -> idx = i)
         /\ odds_vector inp !! idx = Some prob
         /\ ((1 # 2 < prob)%Q ->
             OptimizationResult.optimal_picks res !! i = Some team_a)
         /\ ((prob <= 1 # 2)%Q ->
             OptimizationResult.optimal_picks res !! i = Some team_b).
Proof.
  intros Hopt i m Hi Hsafe. split.
  - intros comb picks Hpv. unfold _create_pick_vector in Hpv.
    destruct (pick_entries_lookup _ _ _ _ _ _ _ Hpv Hi) as (b & Hb & Hentry).
    simpl in Hentry. unfold pick_entry in Hentry.
    rewrite bool_decide_eq_true_2 in Hentry by exact Hsafe.
    apply rbind_inv_ok in Hentry as (above & Habove & [= <-]).
    apply odds_above_half_inv in Habove as (prob & Hprob & ->).
    exists prob. split; [exact Hprob|]. split; intros Hcmp.
    + apply Qgtb_true in Hcmp. now rewrite Hb, Hcmp.
    + apply Qgtb_false in Hcmp. now rewrite Hb, Hcmp.
  - apply optimize_inv in Hopt as (combos & st & _ & _ & _ & Hres).
    apply create_result_inv in Hres
      as (win & lo & hi & optimal & _ & _ & _ & Hloop & ->).
    destruct (optimal_picks_loop_lookup _ _ _ _ _ _ _ Hloop Hi)
      as (s & Hs & Hpick).
    unfold optimal_pick in Hpick.
    rewrite bool_decide_eq_true_2 in Hpick by exact Hsafe.
    unfold favoured_side in Hpick.
    destruct (py_index m (default [] (match_ids inp))) as [idx|] eqn:Hidx;
      [|discriminate].
    apply rbind_inv_ok in Hpick as (above & Habove & [= <-]).
    apply odds_above_half_inv in Habove as (prob & Hprob & ->).
    exists idx, prob. split; [reflexivity|]. split.
    { intros Hnd. pose proof (py_index_NoDup _ _ _ Hnd Hi) as Hidx'.
      congruence. }
    split; [exact Hprob|]. simpl. split; intros Hcmp.
    + apply Qgtb_true in Hcmp. now rewrite Hs, Hcmp.
    + apply Qgtb_false in Hcmp. now rewrite Hs, Hcmp.
Qed.

Lemma safe_pick_is_side_A_only_above_half_witness :
  exists res w',
    optimize one_trial request_sure world0 = (Ok res, w')
    /\ (forall comb picks,
          _create_pick_vector request_sure comb = Ok picks ->
          exists prob,
            odds_vector request_sure !! 0 = Some prob
            /\ ((1 # 2 < prob)%Q -> picks !! 0 = Some 1%Z)
            /\ ((prob <= 1 # 2)%Q -> picks !! 0 = Some 0%Z))
    /\ exists idx prob,
         py_index "m0" (default [] (match_ids request_sure)) = Some idx
         /\ (NoDup (default [] (match_ids request_sure)) -> idx = 0)
         /\ odds_vector request_sure !! idx = Some prob
         /\ ((1 # 2 < prob)%Q ->
             OptimizationResult.optimal_picks res !! 0 = Some team_a)
         /\ ((prob <= 1 # 2)%Q ->
             OptimizationResult.optimal_picks res !! 0 = Some team_b).
Proof.
  eexists _, _. split; [vm_compute; reflexivity|].
  refine (safe_pick_is_side_A_only_above_half
            one_trial request_sure world0 _ _ _ 0 "m0" _ _).
  - vm_compute. reflexivity.
  - reflexivity.
  - vm_compute. reflexivity.
Defined.

(** C6 as written fails at even odds: the safe match is given to side B,
    in the simulated pick vector and in the reported picks alike. *)
Lemma safe_pick_even_odds_counterexample :
  "m0" ∈ safe_matches request_even
  /\ odds_vector request_even !! 0 = Some (1 # 2)%Q
  /\ _create_pick_vector request_even ∅ = Ok [0%Z]
  /\ exists res,
       (optimize one_trial request_even world0).1 = Ok res
       /\ OptimizationResult.optimal_picks res = [team_b].
Proof.
  split; [vm_compute; reflexivity|].
  split; [reflexivity|]. split; [vm_compute; reflexivity|].
  eexists. split; vm_compute; reflexivity.
Qed.

(** ** The classifier *)

Lemma weight_of_pos src : (0 < odds_ingestion.weight_of src)%Q.
Proof.
  unfold odds_ingestion.weight_of. repeat case_bool_decide; reflexivity.
Qed.

Lemma accumulate_sums obs : forall acc,
  let acc' := foldl odds_ingestion.accumulate acc obs in
  (odds_ingestion.weighted_team_a_prob acc'
   == odds_ingestion.weighted_team_a_prob acc
      + Qsum ((fun o => odds_ingestion.team_a_odds o
                        * odds_ingestion.weight_of (odds_ingestion.source o))
                <$> obs))%Q
  /\ (odds_ingestion.weighted_team_b_prob acc'
      == odds_ingestion.weighted_team_b_prob acc
         + Qsum ((fun o => odds_ingestion.team_b_odds o
                           * odds_ingestion.weight_of (odds_ingestion.source o))
                   <$> obs))%Q
  /\ (odds_ingestion.total_weight acc'
      == odds_ingestion.total_weight acc
         + Qsum ((fun o => odds_ingestion.weight_of (odds_ingestion.source o))
                   <$> obs))%Q.
Proof.
  induction obs as [|o obs IH]; intros acc; cbv zeta.
  - unfold Qsum; simpl. repeat split; lra.
  - destruct (IH (odds_ingestion.accumulate acc o)) as (Ha & Hb & Hw).
    rewrite !fmap_cons, !Qsum_cons. cbn [foldl].
    rewrite Ha, Hb, Hw. simpl. repeat split; lra.
Qed.

Lemma weights_sum_pos (obs : list odds_ingestion.OddsData) :
  obs <> [] ->
  (0 < Qsum ((fun o => odds_ingestion.weight_of (odds_ingestion.source o))
               <$> obs))%Q.
Proof.
  destruct obs as [|o obs]; [contradiction|]. intros _.
  rewrite fmap_cons, Qsum_cons.
  pose proof (weight_of_pos (odds_ingestion.source o)) as Hw.
  assert (0 <= Qsum ((fun o => odds_ingestion.weight_of (odds_ingestion.source o))
                       <$> obs))%Q.
  { apply Qsum_nonneg, Forall_fmap, Forall_forall. intros o' _.
    apply Qlt_le_weak, weight_of_pos. }
  lra.
Qed.

(** C8.  The source computes [min(implied_win_rate, 1 - implied_win_rate)
    * 2] under the comment [# Distance from 50/50].  For a single
    observation that calls the match even the consensus is 1/2 to 1/2 and
    the confidence is 1, where the distance from 50/50 is 0; for a single
    observation that is certain of side A the favoured-side probability is
    1 and the confidence is 0. *)
Theorem classifier_confidence_is_highest_at_even_consensus :
  let even := odds_ingestion._classify_single_match default_service
                [even_observation] in
  let sure := odds_ingestion._classify_single_match default_service
                [sure_observation] in
  (exists a b,
      odds_ingestion.consensus_team_a_prob even = Some a
      /\ odds_ingestion.consensus_team_b_prob even = Some b
      /\ (a == 1 # 2)%Q /\ (b == 1 # 2)%Q)
  /\ (odds_ingestion.implied_win_rate even == 1 # 2)%Q
  /\ (odds_ingestion.confidence even == 1)%Q
  /\ (odds_ingestion.implied_win_rate sure == 1)%Q
  /\ (odds_ingestion.confidence sure == 0)%Q
  /\ (odds_ingestion.confidence sure < odds_ingestion.confidence even)%Q.
Proof.
  cbv zeta. split.
  { eexists _, _.
    split; [vm_compute; reflexivity|]. split; [vm_compute; reflexivity|].
    split; reflexivity. }
  repeat split; reflexivity.
Qed.

(** ** When [optimize] returns *)

Lemma odds_above_half_total inp i :
  i < length (odds_vector inp) -> exists above, odds_above_half inp i = Ok above.
Proof.
  intros Hi. unfold odds_above_half.
  destruct (lookup_lt_is_Some_2 (odds_vector inp) i Hi) as [prob ->]. eauto.
Qed.

Lemma pick_entry_total inp comb i m :
  i < length (odds_vector inp) -> exists b, pick_entry inp comb i m = Ok b.
Proof.
  intros Hi. unfold pick_entry.
  destruct (odds_above_half_total inp i Hi) as [above ->]. simpl.
  case_bool_decide; [eauto|]. destruct (comb !! m); eauto.
Qed.

Lemma pick_entries_total inp comb ids : forall i0,
  i0 + length ids <= length (odds_vector inp) ->
  exists picks, pick_entries inp comb i0 ids = Ok picks.
Proof.
  induction ids as [|m ids IH]; intros i0 Hlen; simpl in *; [eauto|].
  destruct (pick_entry_total inp comb i0 m) as [b ->]; [lia|].
  destruct (IH (S i0)) as [bs ->]; [lia|]. simpl. eauto.
Qed.

Lemma evaluate_combination_total self inp st comb w :
  length (default [] (match_ids inp)) <= 9 ->
  length (default [] (match_ids inp)) <= length (odds_vector inp) ->
  1 <= num_simulations self ->
  exists st' w', evaluate_combination self inp st comb w = (Ok st', w').
Proof.
  intros H9 Hodds Hn. unfold evaluate_combination.
  destruct (pick_entries_total inp comb (default [] (match_ids inp)) 0)
    as [picks Hpicks]; [simpl; lia|].
  fold (_create_pick_vector inp comb) in Hpicks.
  assert (Hlen : length picks <= 9).
  { erewrite pick_entries_length by exact Hpicks. exact H9. }
  destruct (monte_carlo_total self (odds_vector inp) picks w Hlen Hn)
    as (scores & dist & w' & _ & Hsim & _).
  rewrite Hpicks.
  erewrite bind_ok by reflexivity.
  erewrite bind_ok by exact Hsim.
  eexists _, _. reflexivity.
Qed.

Lemma evaluate_all_total self inp combs : forall st w,
  length (default [] (match_ids inp)) <= 9 ->
  length (default [] (match_ids inp)) <= length (odds_vector inp) ->
  1 <= num_simulations self ->
  exists st' w', evaluate_all self inp st combs w = (Ok st', w').
Proof.
  induction combs as [|comb combs IH]; intros st w H9 Hodds Hn; simpl.
  - eexists _, _. reflexivity.
  - destruct (evaluate_combination_total self inp st comb w H9 Hodds Hn)
      as (st1 & w1 & Hstep).
    erewrite bind_ok by exact Hstep. now apply IH.
Qed.

Lemma first_reaching_total level xs : forall acc i,
  xs <> [] -> (level <= acc + Qsum xs)%Q ->
  exists k, first_reaching level i (cumsum_from acc xs) = Ok k.
Proof.
  induction xs as [|x xs IH]; intros acc i Hne Hlevel; [contradiction|].
  simpl. destruct (Qgeb (acc + x) level) eqn:Hge; [eauto|].
  rewrite Qsum_cons in Hlevel.
  destruct xs as [|y xs].
  - exfalso. apply not_true_iff_false in Hge. apply Hge, Qgeb_true.
    unfold Qsum in Hlevel. simpl in Hlevel. lra.
  - apply IH; [discriminate|]. lra.
Qed.

Lemma np_cumsum_reaching level xs :
  xs <> [] -> (level <= Qsum xs)%Q ->
  exists k, first_reaching level 0 (np_cumsum xs) = Ok k.
Proof.
  destruct xs as [|x rest]; [contradiction|]. intros _ Hlevel.
  simpl. destruct (Qgeb x level) eqn:Hge; [eauto|].
  rewrite Qsum_cons in Hlevel.
  destruct rest as [|y rest].
  - exfalso. apply not_true_iff_false in Hge. apply Hge, Qgeb_true.
    unfold Qsum in Hlevel. simpl in Hlevel. lra.
  - apply first_reaching_total; [discriminate|exact Hlevel].
Qed.

Lemma optimal_pick_total inp win ids i m :
  length ids <= length (odds_vector inp) ->
  ids !! i = Some m ->
  exists s, optimal_pick inp win ids m = Ok s.
Proof.
  intros Hlen Hi.
  assert (exists s, favoured_side inp ids m = Ok s) as [s Hs].
  { unfold favoured_side.
    destruct (py_index_member ids i m Hi) as (idx & -> & Hle).
    apply lookup_lt_Some in Hi.
    destruct (odds_above_half_total inp idx) as [above ->]; [lia|].
    simpl. eauto. }
  unfold optimal_pick. case_bool_decide; [eauto|].
  destruct (combination win !! m); eauto.
Qed.

Lemma optimal_picks_loop_total inp win ids todo :
  length ids <= length (odds_vector inp) ->
  (forall m, m ∈ todo -> m ∈ ids) ->
  exists optimal, optimal_picks_loop inp win ids todo = Ok optimal.
Proof.
  intros Hlen. induction todo as [|m todo IH]; intros Hsub; simpl; [eauto|].
  destruct (proj1 (list_elem_of_lookup ids m) (Hsub m (list_elem_of_here _ _)))
    as [i Hi].
  destruct (optimal_pick_total inp win ids i m Hlen Hi) as [s ->].
  destruct IH as [ss ->].
  { intros m' Hm'. apply Hsub. now apply list_elem_of_further. }
  simpl. eauto.
Qed.

Lemma create_result_total inp win all :
  evaluated inp win ->
  length (default [] (match_ids inp)) <= length (odds_vector inp) ->
  exists res, _create_result inp (Some win) all = Ok res.
Proof.
  intros (_ & Hlen & _ & Hsum & _) Hodds. unfold _create_result.
  assert (Hne : score_distribution win <> []).
  { intros Hnil. rewrite Hnil in Hlen. discriminate. }
  destruct (np_cumsum_reaching (1 # 40) (score_distribution win) Hne)
    as [lo Hlo]; [rewrite Hsum; unfold Qle; simpl; lia|].
  destruct (np_cumsum_reaching (39 # 40) (score_distribution win) Hne)
    as [hi Hhi]; [rewrite Hsum; unfold Qle; simpl; lia|].
  rewrite Hlo, Hhi. simpl.
  destruct (optimal_picks_loop_total inp win (default [] (match_ids inp))
              (default [] (match_ids inp)) Hodds) as [optimal ->]; [auto|].
  simpl. eauto.
Qed.

(** ** No enumeration ceiling *)

Lemma monte_carlo_counts self odds picks w :
  simulations_run (_monte_carlo_simulation self odds picks w).2
  = S (simulations_run w).
Proof.
  destruct (monte_carlo_unfold self odds picks w)
    as (scores & w' & _ & Heq & _ & _ & Hcount).
  now rewrite Heq.
Qed.

Lemma evaluate_combination_counts self inp st comb w picks :
  _create_pick_vector inp comb = Ok picks ->
  simulations_run (evaluate_combination self inp st comb w).2
  = S (simulations_run w).
Proof.
  intros Hp. unfold evaluate_combination. rewrite Hp.
  erewrite bind_ok by reflexivity.
  pose proof (monte_carlo_counts self (odds_vector inp) picks w) as Hc.
  unfold bind.
  destruct (_monte_carlo_simulation self (odds_vector inp) picks w)
    as [[dist|e] w1]; exact Hc.
Qed.

Lemma evaluate_combination_mono self inp st comb w :
  simulations_run w
  <= simulations_run (evaluate_combination self inp st comb w).2.
Proof.
  destruct (_create_pick_vector inp comb) as [picks|e] eqn:Hp.
  - erewrite evaluate_combination_counts by exact Hp. lia.
  - unfold evaluate_combination. rewrite Hp. reflexivity.
Qed.

Lemma evaluate_all_mono self inp combs : forall st w,
  simulations_run w <= simulations_run (evaluate_all self inp st combs w).2.
Proof.
  induction combs as [|comb combs IH]; intros st w; simpl; [reflexivity|].
  pose proof (evaluate_combination_mono self inp st comb w) as Hstep.
  unfold bind.
  destruct (evaluate_combination self inp st comb w) as [[st1|e] w1];
    simpl in *; [|exact Hstep].
  etransitivity; [exact Hstep|apply IH].
Qed.

Lemma optimize_runs_simulation self inp w :
  valid_input inp ->
  length (default [] (match_ids inp)) <= length (odds_vector inp) ->
  simulations_run w < simulations_run (optimize self inp w).2.
Proof.
  intros Hvalid Hodds.
  destruct (generate_unsafe_combinations_spec inp w)
    as (combos & Hgen & Hlen & _).
  unfold optimize.
  erewrite bind_ok by (apply validate_input_ok; exact Hvalid).
  erewrite bind_ok by exact Hgen.
  destruct combos as [|comb combos].
  { simpl in Hlen.
    pose proof (Nat.pow_nonzero 2 (size (unsafe_matches inp))). lia. }
  assert (Hrun : simulations_run w
                 < simulations_run
                     (evaluate_all self inp initial_search (comb :: combos) w).2).
  { destruct (pick_entries_total inp comb (default [] (match_ids inp)) 0)
      as [picks Hpicks]; [simpl; lia|].
    pose proof (evaluate_combination_counts self inp initial_search comb w
                  picks Hpicks) as Hfirst.
    simpl. unfold bind.
    destruct (evaluate_combination self inp initial_search comb w)
      as [[st1|e] w1]; simpl in *; [|lia].
    pose proof (evaluate_all_mono self inp combos st1 w1). lia. }
  unfold bind at 1.
  destruct (evaluate_all self inp initial_search (comb :: combos) w)
    as [[st|e] w1]; exact Hrun.
Qed.

(** C5, as amended.  The enumerator enforces no ceiling: whatever the
    number U of unsafe matches, it raises nothing, leaves the state alone
    and returns all 2^U combinations; a request that passes validation goes
    on to evaluate them, and when it lists no more matches than it has
    probabilities at least one simulation is run. *)
Theorem enumeration_has_no_ceiling self inp w :
  exists combos,
    _generate_unsafe_combinations inp w = (Ok combos, w)
    /\ length combos = 2 ^ size (unsafe_matches inp)
    /\ (_validate_input inp w = (Ok tt, w) ->
        optimize self inp w
        = (let* st := evaluate_all self inp initial_search combos in
           lift_result (_create_result inp (best_combination st)
                          (all_results st))) w)
    /\ (valid_input inp ->
        length (default [] (match_ids inp)) <= length (odds_vector inp) ->
        simulations_run w < simulations_run (optimize self inp w).2).
Proof.
  destruct (generate_unsafe_combinations_spec inp w)
    as (combos & Hgen & Hlen & _).
  exists combos. split; [exact Hgen|]. split; [exact Hlen|]. split.
  - intros Hv. unfold optimize.
    erewrite bind_ok by exact Hv.
    erewrite bind_ok by exact Hgen. reflexivity.
  - apply optimize_runs_simulation.
Qed.

Lemma request21_size : size (unsafe_matches request21) = 21.
Proof. vm_compute. reflexivity. Qed.

Lemma request21_valid : valid_input request21.
Proof.
  split; [discriminate|]. split.
  { apply Forall_replicate. split; unfold Qle; simpl; lia. }
  split; [rewrite request21_size; vm_compute; lia|reflexivity].
Qed.

(** C5 as written fails: with twenty-one unsafe matches, above the
    suggested ceiling of twenty, the request passes validation, the
    enumerator returns its 2^21 combinations, and [optimize] ends with a
    simulation counted: it did not stop before simulating. *)
Lemma enumeration_ceiling_counterexample :
  20 < size (unsafe_matches request21)
  /\ _validate_input request21 world0 = (Ok tt, world0)
  /\ (exists combos,
        _generate_unsafe_combinations request21 world0 = (Ok combos, world0)
        /\ length combos = 2 ^ 21)
  /\ simulations_run world0
     < simulations_run (optimize one_trial request21 world0).2.
Proof.
  split; [rewrite request21_size; lia|].
  split; [apply validate_input_ok, request21_valid|].
  split.
  - destruct (generate_unsafe_combinations_spec request21 world0)
      as (combos & Hgen & Hlen & _).
    exists combos. split; [exact Hgen|].
    rewrite Hlen, request21_size. reflexivity.
  - apply optimize_runs_simulation; [exact request21_valid|].
    simpl. lia.
Qed.

Lemma search_winner inp st :
  search_inv inp st -> all_results st <> [] ->
  exists k win,
    best_combination st = Some win
    /\ first_maximal (all_results st) k win
    /\ evaluated inp win.
Proof.
  intros [Hall Hbest] Hne.
  destruct (best_combination st) as [win|].
  - destruct Hbest as (_ & k & Hfirst). exists k, win.
    split; [reflexivity|]. split; [exact Hfirst|].
    destruct Hfirst as (Hk & _). rewrite Forall_forall in Hall.
    apply Hall, list_elem_of_lookup. eauto.
  - destruct Hbest as [Hnil _]. contradiction.
Qed.

Lemma optimize_total self inp w :
  valid_input inp ->
  length (default [] (match_ids inp)) <= 9 ->
  length (default [] (match_ids inp)) <= length (odds_vector inp) ->
  1 <= num_simulations self ->
  exists res w', optimize self inp w = (Ok res, w').
Proof.
  intros Hvalid H9 Hodds Hn.
  destruct (generate_unsafe_combinations_spec inp w)
    as (combos & Hgen & Hlen & _).
  destruct (evaluate_all_total self inp combos initial_search w H9 Hodds Hn)
    as (st & w' & Hrun).
  destruct (evaluate_all_inv _ _ _ _ _ _ _ (search_inv_initial inp) Hrun)
    as (Hinv & cs & Hall & Hcombs).
  simpl in Hall. subst cs.
  assert (Hne : all_results st <> []).
  { intros Hnil. rewrite Hnil in Hcombs. subst combos. simpl in Hlen.
    pose proof (Nat.pow_nonzero 2 (size (unsafe_matches inp))). lia. }
  destruct (search_winner inp st Hinv Hne) as (k & win & Hbest & _ & Hwin).
  destruct (create_result_total inp win (all_results st) Hwin Hodds)
    as [res Hres].
  exists res, w'. unfold optimize.
  erewrite bind_ok by (apply validate_input_ok; exact Hvalid).
  erewrite bind_ok by exact Hgen.
  erewrite bind_ok by exact Hrun.
  unfold lift_result. now rewrite Hbest, Hres.
Qed.


(** * Further properties of the optimizer *)

(** ** Validation *)

Lemma validate_input_inv inp w r w' :
  _validate_input inp w = (r, w') ->
  w' = w /\ (r = Ok tt -> valid_input inp).
Proof.
  unfold _validate_input, raise, ret.
  case_bool_decide as Hempty; [intros [= <- <-]; split; [done|discriminate]|].
  destruct (forallb prob_in_range (odds_vector inp)) eqn:Hall; simpl;
    [|intros [= <- <-]; split; [done|discriminate]].
  destruct (Nat.ltb_spec (length (odds_vector inp))
              (size (safe_matches inp) + size (unsafe_matches inp)))
    as [Hlt|Hge]; [intros [= <- <-]; split; [done|discriminate]|].
  destruct (Z.eqb_spec (default 9%Z (constraints inp !! "total_picks")) 9)
    as [Hnine|Hnine]; simpl; intros [= <- <-]; (split; [done|]);
    [|discriminate].
  intros _. split; [exact Hempty|]. split; [|split; [lia|exact Hnine]].
  apply Forall_forall. intros prob Hin. apply prob_in_range_true.
  rewrite forallb_forall in Hall. apply Hall. now apply list_elem_of_In.
Qed.

(** X1.  [_validate_input] accepts exactly the inputs with a non-empty
    probability vector whose entries all lie in [0,1], with no more safe
    and unsafe matches together than probabilities, and whose constraints
    either lack [total_picks] or set it to 9; every other input is refused
    with a [ValueError].  Either way the state is untouched. *)
Theorem validate_input_accepts_exactly_valid_inputs inp w :
  (_validate_input inp w = (Ok tt, w) <-> valid_input inp)
  /\ (~ valid_input inp ->
      exists msg, _validate_input inp w = (Raise (ValueError msg), w)).
Proof.
  split; [split|].
  - intros H. now apply (validate_input_inv inp w (Ok tt) w).
  - apply validate_input_ok.
  - intros Hbad.
    destruct (_validate_input inp w) as [r w'] eqn:Hv.
    pose proof (validate_input_inv inp w r w' Hv) as [-> Hok].
    destruct r as [[]|e]; [now destruct Hbad; apply Hok|].
    revert Hv. unfold _validate_input, raise, ret.
    repeat case_match; intros [= <-]; eauto.
Qed.

(** ** The simulator on picks that are always wrong *)

Lemma correct_picks_none outcomes picks :
  Forall2 (fun o p => pick_correct o p = false) outcomes picks ->
  correct_picks outcomes picks = 0.
Proof.
  unfold correct_picks. induction 1 as [|o p os ps Hop _ IH]; simpl.
  - reflexivity.
  - rewrite Hop. exact IH.
Qed.

Lemma wrong_outcomes draws odds picks :
  certain_wrong odds picks ->
  length draws = length odds ->
  Forall (fun d => (0 <= d)%Q /\ (d < 1)%Q) draws ->
  Forall2 (fun o p => pick_correct o p = false) (zip_with Qltb draws odds) picks.
Proof.
  intros Hc. revert draws.
  induction Hc as [|prob pick odds picks Hp _ IH]; intros draws Hlen Hd.
  - destruct draws; [constructor|discriminate].
  - destruct draws as [|d draws]; [discriminate|].
    inversion Hd as [|? ? [Hd0 Hd1] Hd']; subst. simpl.
    constructor; [|apply IH; [simpl in Hlen; lia|assumption]].
    unfold pick_correct.
    destruct Hp as [[-> Hq]|[-> Hq]].
    + assert (Qltb d prob = false) as -> by (apply Qltb_false; lra).
      reflexivity.
    + assert (Qltb d prob = true) as -> by (apply Qltb_true; lra).
      reflexivity.
Qed.

Lemma simulate_trial_wrong odds picks w :
  certain_wrong odds picks ->
  simulate_trial odds picks w =
    (Ok 0,
     {| rng_stream := rng_stream w; rng_pos := rng_pos w + length odds;
        simulations_run := simulations_run w |}).
Proof.
  intros Hc. unfold simulate_trial.
  destruct (np_random_spec (length odds) w) as (draws & Hd & Hlen & Hrange).
  erewrite bind_ok by exact Hd. unfold ret. do 2 f_equal.
  apply correct_picks_none. now apply wrong_outcomes.
Qed.

Lemma run_trials_wrong n odds picks w :
  certain_wrong odds picks ->
  exists w', run_trials n odds picks w = (Ok (replicate n 0), w').
Proof.
  intros Hc. revert w. induction n as [|n IH]; intros w; simpl.
  - eexists. reflexivity.
  - erewrite bind_ok by (apply simulate_trial_wrong; exact Hc).
    destruct (IH {| rng_stream := rng_stream w;
                    rng_pos := rng_pos w + length odds;
                    simulations_run := simulations_run w |}) as (w' & Hr).
    erewrite bind_ok by exact Hr. eexists. reflexivity.
Qed.

(** X2.  When every pick is certain to be wrong and at least one trial is
    run, the simulator returns a ten-entry distribution whose entire mass
    is at score 0, for a slate of any length. *)
Theorem wrong_picks_put_all_mass_at_zero self odds picks w :
  certain_wrong odds picks ->
  1 <= num_simulations self ->
  exists dist w',
    _monte_carlo_simulation self odds picks w = (Ok dist, w')
    /\ Forall2 Qeq dist (1%Q :: replicate 9 0%Q).
Proof.
  intros Hc Hn.
  destruct (monte_carlo_unfold self odds picks w)
    as (scores & w' & Hr & Hsim & _).
  destruct (run_trials_wrong (num_simulations self) _ _
              (count_simulation w).2 Hc) as (w'' & Hr').
  rewrite Hr in Hr'. injection Hr' as -> _.
  rewrite (histogram_replicate _ 0) in Hsim by lia.
  assert (Htotal : sum_list (<[0 := num_simulations self]> (replicate 10 0))
                   = num_simulations self) by (simpl; lia).
  rewrite Htotal, normalize_ok in Hsim by lia.
  eexists _, w'. split; [exact Hsim|].
  simpl. constructor; [apply share_self; lia|].
  repeat (constructor; [apply share_zero|]). constructor.
Qed.

Lemma wrong_picks_put_all_mass_at_zero_witness :
  exists dist w',
    _monte_carlo_simulation one_trial
      (replicate 12 0%Q) (replicate 12 1%Z) world0 = (Ok dist, w')
    /\ Forall2 Qeq dist (1%Q :: replicate 9 0%Q).
Proof.
  apply (wrong_picks_put_all_mass_at_zero one_trial
           (replicate 12 0%Q) (replicate 12 1%Z) world0).
  - apply Forall2_replicate. left. split; reflexivity.
  - simpl. lia.
Defined.

(** ** How much simulation a run costs *)

Lemma run_trials_pos n odds picks w scores w' :
  run_trials n odds picks w = (Ok scores, w') ->
  rng_pos w' = rng_pos w + n * length odds.
Proof.
  revert w scores. induction n as [|n IH]; intros w scores; simpl.
  - intros [= _ <-]. lia.
  - destruct (simulate_trial_spec odds picks w) as (s & Hs & _).
    erewrite bind_ok by exact Hs. intros Hrun.
    apply bind_inv_ok in Hrun as (rest & w1 & Hrest & Hret).
    injection Hret as _ <-.
    apply IH in Hrest. simpl in Hrest. lia.
Qed.

Lemma monte_carlo_state self odds picks w r w' :
  _monte_carlo_simulation self odds picks w = (r, w') ->
  rng_stream w' = rng_stream w
  /\ rng_pos w' = rng_pos w + num_simulations self * length odds
  /\ simulations_run w' = S (simulations_run w).
Proof.
  intros Hsim.
  destruct (run_trials_spec (num_simulations self) odds picks
              (count_simulation w).2)
    as (scores & w1 & Hr & _ & _ & Hstream & Hcount).
  pose proof (run_trials_pos _ _ _ _ _ _ Hr) as Hpos.
  unfold _monte_carlo_simulation in Hsim.
  erewrite bind_ok in Hsim by reflexivity.
  erewrite bind_ok in Hsim by exact Hr.
  unfold lift_result in Hsim. injection Hsim as _ <-.
  simpl in *. auto.
Qed.

Lemma evaluate_all_state self inp combs : forall st w st' w',
  evaluate_all self inp st combs w = (Ok st', w') ->
  rng_stream w' = rng_stream w
  /\ rng_pos w'
     = rng_pos w
       + length combs * (num_simulations self * length (odds_vector inp))
  /\ simulations_run w' = simulations_run w + length combs.
Proof.
  induction combs as [|comb combs IH]; intros st w st' w' Hrun; simpl in Hrun.
  - injection Hrun as _ <-. simpl. auto with lia.
  - apply bind_inv_ok in Hrun as (st1 & w1 & Hstep & Hrun).
    apply evaluate_combination_inv in Hstep as (picks & dist & _ & Hsim & _).
    apply monte_carlo_state in Hsim as (Hs1 & Hp1 & Hc1).
    apply IH in Hrun as (Hs & Hp & Hc).
    simpl. split; [congruence|]. split; lia.
Qed.

(** X3.  A run of [optimize] that returns a result has executed exactly
    one simulation per enumerated combination, 2^U in all, and has consumed
    exactly 2^U * num_simulations * len(odds_vector) draws of the
    generator. *)
Theorem optimize_runs_two_to_the_U_simulations self inp w res w' :
  optimize self inp w = (Ok res, w') ->
  simulations_run w'
  = simulations_run w + 2 ^ size (unsafe_matches inp)
  /\ rng_pos w'
     = rng_pos w
       + 2 ^ size (unsafe_matches inp)
         * (num_simulations self * length (odds_vector inp))
  /\ rng_stream w' = rng_stream w.
Proof.
  intros Hopt.
  apply optimize_inv in Hopt as (combos & st & _ & Hgen & Hrun & _).
  destruct (generate_unsafe_combinations_spec inp w)
    as (combos' & Hgen' & Hlen & _).
  rewrite Hgen' in Hgen. injection Hgen as ->.
  apply evaluate_all_state in Hrun as (Hs & Hp & Hc).
  rewrite Hlen in Hp, Hc. auto.
Qed.

Lemma optimize_runs_two_to_the_U_simulations_witness :
  exists res w',
    optimize one_trial request_tie world0 = (Ok res, w')
    /\ simulations_run w'
       = simulations_run world0 + 2 ^ size (unsafe_matches request_tie)
    /\ rng_pos w'
       = rng_pos world0
         + 2 ^ size (unsafe_matches request_tie)
           * (num_simulations one_trial * length (odds_vector request_tie))
    /\ rng_stream w' = rng_stream world0.
Proof.
  eexists _, _. split; [vm_compute; reflexivity|].
  refine (optimize_runs_two_to_the_U_simulations
            one_trial request_tie world0 _ _ _).
  vm_compute. reflexivity.
Defined.

(** ** What a returned report contains *)

Lemma optimize_report self inp w res w' :
  optimize self inp w = (Ok res, w') ->
  exists combos st k win lo hi optimal,
    valid_input inp
    /\ _generate_unsafe_combinations inp w = (Ok combos, w)
    /\ evaluate_all self inp initial_search combos w = (Ok st, w')
    /\ combination <$> all_results st = combos
    /\ Forall (evaluated inp) (all_results st)
    /\ first_maximal (all_results st) k win
    /\ evaluated inp win
    /\ first_reaching (1 # 40) 0 (np_cumsum (score_distribution win)) = Ok lo
    /\ first_reaching (39 # 40) 0 (np_cumsum (score_distribution win)) = Ok hi
    /\ optimal_picks_loop inp win (default [] (match_ids inp))
         (default [] (match_ids inp)) = Ok optimal
    /\ res = {| OptimizationResult.optimal_picks := optimal;
                OptimizationResult.expected_score := expected_score win;
                OptimizationResult.score_distribution := score_distribution win;
                OptimizationResult.confidence_interval := (lo, hi);
                OptimizationResult.risk_analysis :=
                  _generate_risk_analysis inp win;
                OptimizationResult.alternative_strategies :=
                  alternatives_of (all_results st) |}.
Proof.
  intros Hopt.
  apply optimize_inv in Hopt as (combos & st & Hv & Hgen & Hrun & Hres).
  apply validate_input_inv in Hv as [_ Hvalid].
  destruct (evaluate_all_inv _ _ _ _ _ _ _ (search_inv_initial inp) Hrun)
    as (Hinv & cs & Hall & Hcombs).
  simpl in Hall. subst cs.
  apply create_result_inv in Hres
    as (win & lo & hi & optimal & Hbest & Hlo & Hhi & Hloop & ->).
  destruct Hinv as [Hevaluated Hsel]. rewrite Hbest in Hsel.
  destruct Hsel as (_ & k & Hfirst).
  assert (Hwin : evaluated inp win).
  { rewrite Forall_forall in Hevaluated. apply Hevaluated.
    apply list_elem_of_lookup. exists k. apply Hfirst. }
  exists combos, st, k, win, lo, hi, optimal. auto 15.
Qed.

(** ** The confidence interval *)

Lemma first_reaching_spec level cum : forall i k,
  first_reaching level i cum = Ok k ->
  exists j c,
    k = i + j /\ cum !! j = Some c /\ (level <= c)%Q
    /\ forall j' c', j' < j -> cum !! j' = Some c' -> (c' < level)%Q.
Proof.
  induction cum as [|c cum IH]; intros i k; simpl; [discriminate|].
  destruct (Qgeb c level) eqn:Hge.
  - intros [= <-]. exists 0, c. apply Qgeb_true in Hge.
    split; [lia|]. split; [reflexivity|]. split; [exact Hge|]. intros; lia.
  - intros Hrest. apply IH in Hrest as (j & c1 & -> & Hj & Hc1 & Hbefore).
    exists (S j), c1. split; [lia|]. split; [exact Hj|]. split; [exact Hc1|].
    intros [|j'] c' Hlt Hlook; simpl in Hlook.
    + injection Hlook as <-.
      apply not_true_iff_false in Hge. rewrite Qgeb_true in Hge. lra.
    + apply (Hbefore j' c'); [lia|exact Hlook].
Qed.

Lemma Qsum_nil : Qsum [] = 0%Q.
Proof. reflexivity. Qed.

Lemma cumsum_from_lookup xs : forall acc j c,
  cumsum_from acc xs !! j = Some c -> (c == acc + Qsum (take (S j) xs))%Q.
Proof.
  induction xs as [|x xs IH]; intros acc j c; [discriminate|].
  destruct j as [|j]; simpl.
  - intros [= <-]. rewrite take_0, Qsum_cons, Qsum_nil. lra.
  - intros Hlook. apply IH in Hlook. rewrite Hlook.
    rewrite (Qsum_cons x). lra.
Qed.

Lemma np_cumsum_lookup xs j c :
  np_cumsum xs !! j = Some c -> (c == Qsum (take (S j) xs))%Q.
Proof.
  destruct xs as [|x xs]; [discriminate|].
  destruct j as [|j]; simpl.
  - intros [= <-]. rewrite take_0, Qsum_cons, Qsum_nil. lra.
  - intros Hlook. apply cumsum_from_lookup in Hlook. rewrite Hlook.
    now rewrite (Qsum_cons x).
Qed.

Lemma cumsum_from_length xs : forall acc,
  length (cumsum_from acc xs) = length xs.
Proof. induction xs as [|x xs IH]; intros acc; simpl; [|rewrite IH]; reflexivity. Qed.

Lemma np_cumsum_length xs : length (np_cumsum xs) = length xs.
Proof. destruct xs; simpl; [|rewrite cumsum_from_length]; reflexivity. Qed.

Lemma first_reaching_cumulative level xs k :
  first_reaching level 0 (np_cumsum xs) = Ok k ->
  k < length xs
  /\ (level <= Qsum (take (S k) xs))%Q
  /\ forall j, j < k -> (Qsum (take (S j) xs) < level)%Q.
Proof.
  intros Hk. apply first_reaching_spec in Hk as (j & c & -> & Hj & Hc & Hbefore).
  simpl. split; [|split].
  - apply lookup_lt_Some in Hj. now rewrite np_cumsum_length in Hj.
  - now rewrite <- (np_cumsum_lookup xs j c Hj).
  - intros j' Hlt.
    assert (Hlen : j' < length (np_cumsum xs)).
    { apply lookup_lt_Some in Hj. lia. }
    destruct (lookup_lt_is_Some_2 _ _ Hlen) as [c' Hc'].
    rewrite <- (np_cumsum_lookup xs j' c' Hc'). now apply (Hbefore j').
Qed.

(** X4.  In every report the confidence interval (lo, hi) is well formed
    and lies within the ten scores: lo <= hi <= 9. *)
Theorem confidence_interval_is_ordered_and_within_the_scores
    self inp w res w' :
  optimize self inp w = (Ok res, w') ->
  (OptimizationResult.confidence_interval res).1
  <= (OptimizationResult.confidence_interval res).2
  /\ (OptimizationResult.confidence_interval res).2 <= 9.
Proof.
  intros Hopt.
  apply optimize_report in Hopt
    as (combos & st & k & win & lo & hi & optimal
        & _ & _ & _ & _ & _ & _ & Hwin & Hlo & Hhi & _ & ->).
  simpl.
  apply first_reaching_cumulative in Hlo as (_ & Hlo & Hlo').
  apply first_reaching_cumulative in Hhi as (Hlen & Hhi & Hhi').
  destruct Hwin as (_ & Hten & _).
  split; [|lia].
  destruct (Nat.le_gt_cases lo hi) as [|Hgt]; [assumption|].
  specialize (Hlo' hi Hgt). lra.
Qed.

Lemma confidence_interval_is_ordered_and_within_the_scores_witness :
  exists res w',
    optimize one_trial request_sure world0 = (Ok res, w')
    /\ (OptimizationResult.confidence_interval res).1
       <= (OptimizationResult.confidence_interval res).2
    /\ (OptimizationResult.confidence_interval res).2 <= 9.
Proof.
  eexists _, _. split; [vm_compute; reflexivity|].
  refine (confidence_interval_is_ordered_and_within_the_scores
            one_trial request_sure world0 _ _ _).
  vm_compute. reflexivity.
Defined.

(** ** Bounds on the expected score *)

Lemma Qsum_imap_bounds (B : Q) xs : forall g : nat -> Q,
  Forall (fun x => (0 <= x)%Q) xs ->
  (forall i, i < length xs -> (0 <= g i)%Q /\ (g i <= B)%Q) ->
  (0 <= Qsum (imap (fun i x => g i * x)%Q xs))%Q
  /\ (Qsum (imap (fun i x => g i * x)%Q xs) <= B * Qsum xs)%Q.
Proof.
  induction xs as [|x xs IH]; intros g Hnn Hg.
  - simpl. rewrite Qsum_nil. split; lra.
  - inversion Hnn as [|? ? Hx Hnn']; subst.
    rewrite imap_cons, !Qsum_cons.
    destruct (IH (fun i => g (S i)) Hnn') as [Hlo Hhi].
    { intros i Hi. apply Hg. simpl. lia. }
    destruct (Hg 0) as [Hg0 HgB]; [simpl; lia|].
    unfold compose. split; nra.
Qed.

Lemma expected_score_bounds dist :
  length dist = 10 ->
  Forall (fun q => (0 <= q)%Q) dist ->
  (Qsum dist == 1)%Q ->
  (0 <= expected_score_of dist)%Q /\ (expected_score_of dist <= 9)%Q.
Proof.
  intros Hlen Hnn Hsum. unfold expected_score_of.
  destruct (Qsum_imap_bounds 9 dist (fun i => inject_Z (Z.of_nat i)) Hnn)
    as [Hlo Hhi].
  { intros i Hi. rewrite Hlen in Hi. unfold Qle; simpl. lia. }
  rewrite Hsum in Hhi. split; lra.
Qed.

(** X5.  In every report the expected score lies between 0 and 9, so the
    cap in min(expected_score / 9, 1.0) never binds: the strategy
    confidence equals expected_score / 9 and lies between 0 and 1. *)
Theorem expected_score_at_most_nine self inp w res w' :
  optimize self inp w = (Ok res, w') ->
  (0 <= OptimizationResult.expected_score res)%Q
  /\ (OptimizationResult.expected_score res <= 9)%Q
  /\ (strategy_confidence (OptimizationResult.risk_analysis res)
      == OptimizationResult.expected_score res / 9)%Q
  /\ (0 <= strategy_confidence (OptimizationResult.risk_analysis res))%Q
  /\ (strategy_confidence (OptimizationResult.risk_analysis res) <= 1)%Q.
Proof.
  intros Hopt.
  apply optimize_report in Hopt
    as (combos & st & k & win & lo & hi & optimal
        & _ & _ & _ & _ & _ & _ & Hwin & _ & _ & _ & ->).
  simpl. rewrite generate_risk_analysis_confidence.
  destruct Hwin as (_ & Hlen & Hnn & Hsum & _ & ->).
  destruct (expected_score_bounds _ Hlen Hnn Hsum) as [Hlo Hhi].
  assert (Hdiv : (expected_score_of (score_distribution win) / 9 <= 1)%Q).
  { apply Qle_shift_div_r; lra. }
  assert (Hdiv0 : (0 <= expected_score_of (score_distribution win) / 9)%Q).
  { apply Qle_shift_div_l; lra. }
  rewrite (Q.min_l _ _ Hdiv). repeat split; lra.
Qed.

Lemma expected_score_at_most_nine_witness :
  exists res w',
    optimize one_trial request_sure world0 = (Ok res, w')
    /\ (0 <= OptimizationResult.expected_score res)%Q
    /\ (OptimizationResult.expected_score res <= 9)%Q
    /\ (strategy_confidence (OptimizationResult.risk_analysis res)
        == OptimizationResult.expected_score res / 9)%Q
    /\ (0 <= strategy_confidence (OptimizationResult.risk_analysis res))%Q
    /\ (strategy_confidence (OptimizationResult.risk_analysis res) <= 1)%Q.
Proof.
  eexists _, _. split; [vm_compute; reflexivity|].
  refine (expected_score_at_most_nine one_trial request_sure world0 _ _ _).
  vm_compute. reflexivity.
Defined.

(** ** The risk breakdown *)

Lemma risk_score_bounds inp m prob :
  (0 <= prob)%Q -> (prob <= 1)%Q ->
  (0 <= risk_score (risk_of inp m prob))%Q
  /\ (risk_score (risk_of inp m prob) <= 1)%Q.
Proof.
  intros H0 H1. cbn [risk_of risk_score].
  apply (Qabs_case (prob - (1 # 2))); intros Hs; split; lra.
Qed.

Ltac compare_prob prob level H :=
  destruct (Qgtb prob level) eqn:H;
    [apply Qgtb_true in H | apply Qgtb_false in H].

Ltac compare_prob_below prob level H :=
  destruct (Qltb prob level) eqn:H;
    [apply Qltb_true in H | apply Qltb_false in H].

Lemma risk_label_by_probability inp m prob :
  (confidence_level (risk_of inp m prob) = high
   <-> (3 # 4 < prob)%Q \/ (prob < 1 # 4)%Q)
  /\ (confidence_level (risk_of inp m prob) = low
      <-> (2 # 5 <= prob)%Q /\ (prob <= 3 # 5)%Q).
Proof.
  cbn [risk_of confidence_level].
  compare_prob prob (3 # 4) Hhi; compare_prob_below prob (1 # 4) Hlo;
    cbn [orb].
  1-3: split; (split; [intros H; try discriminate H; tauto
                      |intros H; try reflexivity; lra]).
  compare_prob prob (3 # 5) Hm; compare_prob_below prob (2 # 5) Hn;
    cbn [orb].
  all: split; (split; [intros H; try discriminate H; (tauto || (split; lra))
                      |intros H; try reflexivity; lra]).
Qed.

Lemma risk_score_at_the_ends inp m prob :
  ((prob == 1 # 2)%Q -> (risk_score (risk_of inp m prob) == 1)%Q)
  /\ ((prob == 0)%Q \/ (prob == 1)%Q ->
      (risk_score (risk_of inp m prob) == 0)%Q).
Proof.
  cbn [risk_of risk_score]. split.
  - intros H. apply (Qabs_case (prob - (1 # 2))); intros Hs; lra.
  - intros [H|H]; apply (Qabs_case (prob - (1 # 2))); intros Hs; lra.
Qed.

Lemma risk_loop_spec inp ids : forall i0 t0 (m0 : gmap string match_risk) t m,
  risk_loop inp i0 ids (t0, m0) = (t, m) ->
  (forall k r, m !! k = Some r ->
     m0 !! k = Some r
     \/ exists i prob,
          ids !! i = Some k /\ odds_vector inp !! (i0 + i) = Some prob
          /\ r = risk_of inp k prob)
  /\ (forall i k, ids !! i = Some k -> i0 + i < length (odds_vector inp) ->
        is_Some (m !! k))
  /\ (forall k, is_Some (m0 !! k) -> is_Some (m !! k))
  /\ (Forall (fun prob => (0 <= prob)%Q /\ (prob <= 1)%Q) (odds_vector inp) ->
      (t0 <= t)%Q /\ (t <= t0 + inject_Z (Z.of_nat (length ids)))%Q).
Proof.
  induction ids as [|id ids IH]; intros i0 t0 m0 t m; cbn [risk_loop].
  - intros [= <- <-]. split; [auto|]. split; [intros i k; discriminate|].
    split; [auto|]. intros _. cbn [length]. change (inject_Z (Z.of_nat 0)) with 0%Q.
    split; lra.
  - destruct (odds_vector inp !! i0) as [prob|] eqn:Hprob; intros Hloop;
      apply IH in Hloop as (Hfrom & Hcover & Hkeep & Hbound).
    + split; [|split; [|split]].
      * intros k r Hk. destruct (Hfrom k r Hk) as [Hold|(i & p & Hi & Hp & ->)].
        -- cbn [snd] in Hold. destruct (decide (id = k)) as [->|Hne].
           ++ rewrite lookup_insert_eq in Hold. injection Hold as <-.
              right. exists 0, prob. rewrite Nat.add_0_r. auto.
           ++ rewrite lookup_insert_ne in Hold by exact Hne. now left.
        -- right. exists (S i), p.
           replace (i0 + S i) with (S i0 + i) by lia. auto.
      * intros [|i] k Hi Hlt; cbn in Hi.
        -- injection Hi as ->. apply Hkeep. cbn [snd].
           rewrite lookup_insert_eq. eauto.
        -- apply (Hcover i k Hi). lia.
      * intros k Hk. apply Hkeep. cbn [snd].
        destruct (decide (id = k)) as [->|Hne].
        -- rewrite lookup_insert_eq. eauto.
        -- now rewrite lookup_insert_ne.
      * intros Hrange. destruct (Hbound Hrange) as [Hlo Hhi].
        assert (Hp : (0 <= prob)%Q /\ (prob <= 1)%Q).
        { rewrite Forall_forall in Hrange. apply Hrange.
          apply list_elem_of_lookup. eauto. }
        destruct (risk_score_bounds inp id prob) as [Hr0 Hr1]; [tauto..|].
        cbn [length]. rewrite Nat2Z.inj_succ, <- Z.add_1_r, inject_Z_plus.
        cbn [fst] in Hlo, Hhi. change (inject_Z 1) with 1%Q. split; lra.
    + split; [|split; [|split]].
      * intros k r Hk. destruct (Hfrom k r Hk) as [Hold|(i & p & Hi & Hp & ->)];
          [now left|].
        right. exists (S i), p.
        replace (i0 + S i) with (S i0 + i) by lia. auto.
      * intros [|i] k Hi Hlt; cbn in Hi.
        -- apply lookup_ge_None in Hprob. lia.
        -- apply (Hcover i k Hi). lia.
      * exact Hkeep.
      * intros Hrange. destruct (Hbound Hrange) as [Hlo Hhi].
        cbn [length]. rewrite Nat2Z.inj_succ, <- Z.add_1_r, inject_Z_plus.
        change (inject_Z 1) with 1%Q. split; lra.
Qed.

Lemma generate_risk_analysis_inv inp win :
  exists total risks,
    risk_loop inp 0 (default [] (match_ids inp)) (0%Q, ∅) = (total, risks)
    /\ match_risks (_generate_risk_analysis inp win) = risks
    /\ total_risk_score (_generate_risk_analysis inp win)
       = if length (default [] (match_ids inp)) =? 0 then total
         else (total / inject_Z (Z.of_nat (length (default [] (match_ids inp)))))%Q.
Proof.
  unfold _generate_risk_analysis.
  destruct (risk_loop _ _ _ _) as [total risks]. eauto.
Qed.

(** X6.  In every report, each entry of [match_risks] belongs to a listed
    match that has a probability p: it records p and whether the match was
    marked safe; its risk score lies between 0 and 1, is 1 for p = 0.5 and
    0 for p = 0 and for p = 1; its label is [high] exactly when p > 0.75
    or p < 0.25 and [low] exactly when 0.4 <= p <= 0.6.  Every listed
    match that has a probability has an entry. *)
Theorem match_risks_follow_the_probabilities self inp w res w' :
  optimize self inp w = (Ok res, w') ->
  let risks := match_risks (OptimizationResult.risk_analysis res) in
  let ids := default [] (match_ids inp) in
  (forall m r, risks !! m = Some r ->
     exists i prob,
       ids !! i = Some m /\ odds_vector inp !! i = Some prob
       /\ win_probability r = prob
       /\ is_safe r = bool_decide (m ∈ safe_matches inp)
       /\ (0 <= risk_score r)%Q /\ (risk_score r <= 1)%Q
       /\ ((prob == 1 # 2)%Q -> (risk_score r == 1)%Q)
       /\ ((prob == 0)%Q \/ (prob == 1)%Q -> (risk_score r == 0)%Q)
       /\ (confidence_level r = high
           <-> (3 # 4 < prob)%Q \/ (prob < 1 # 4)%Q)
       /\ (confidence_level r = low
           <-> (2 # 5 <= prob)%Q /\ (prob <= 3 # 5)%Q))
  /\ (forall i m, ids !! i = Some m -> i < length (odds_vector inp) ->
        is_Some (risks !! m)).
Proof.
  intros Hopt.
  apply optimize_report in Hopt
    as (combos & st & k & win & lo & hi & optimal
        & Hvalid & _ & _ & _ & _ & _ & _ & _ & _ & _ & ->).
  simpl.
  destruct (generate_risk_analysis_inv inp win)
    as (total & risks & Hloop & -> & _).
  apply risk_loop_spec in Hloop as (Hfrom & Hcover & _ & _).
  destruct Hvalid as (_ & Hrange & _).
  split.
  - intros m r Hr.
    destruct (Hfrom m r Hr) as [Hempty|(i & prob & Hi & Hp & ->)];
      [now rewrite lookup_empty in Hempty|].
    simpl in Hp. exists i, prob.
    assert (Hin : (0 <= prob)%Q /\ (prob <= 1)%Q).
    { rewrite Forall_forall in Hrange. apply Hrange.
      apply list_elem_of_lookup. eauto. }
    destruct (risk_score_bounds inp m prob) as [Hr0 Hr1]; [tauto..|].
    destruct (risk_score_at_the_ends inp m prob) as [Hmid Hends].
    destruct (risk_label_by_probability inp m prob) as [Hhigh Hlow].
    split; [exact Hi|]. split; [exact Hp|].
    split; [reflexivity|]. split; [reflexivity|].
    split; [exact Hr0|]. split; [exact Hr1|].
    split; [exact Hmid|]. split; [exact Hends|].
    split; [exact Hhigh|exact Hlow].
  - intros i m Hi Hlt. apply (Hcover i m Hi). simpl. exact Hlt.
Qed.

Lemma match_risks_follow_the_probabilities_witness :
  exists res w',
    optimize one_trial request_sure world0 = (Ok res, w')
    /\ let risks := match_risks (OptimizationResult.risk_analysis res) in
       let ids := default [] (match_ids request_sure) in
       (forall m r, risks !! m = Some r ->
          exists i prob,
            ids !! i = Some m /\ odds_vector request_sure !! i = Some prob
            /\ win_probability r = prob
            /\ is_safe r = bool_decide (m ∈ safe_matches request_sure)
            /\ (0 <= risk_score r)%Q /\ (risk_score r <= 1)%Q
            /\ ((prob == 1 # 2)%Q -> (risk_score r == 1)%Q)
            /\ ((prob == 0)%Q \/ (prob == 1)%Q -> (risk_score r == 0)%Q)
            /\ (confidence_level r = high
                <-> (3 # 4 < prob)%Q \/ (prob < 1 # 4)%Q)
            /\ (confidence_level r = low
                <-> (2 # 5 <= prob)%Q /\ (prob <= 3 # 5)%Q))
       /\ (forall i m, ids !! i = Some m ->
             i < length (odds_vector request_sure) ->
             is_Some (risks !! m)).
Proof.
  eexists _, _. split; [vm_compute; reflexivity|].
  refine (match_risks_follow_the_probabilities
            one_trial request_sure world0 _ _ _).
  vm_compute. reflexivity.
Defined.

(** X7.  In every report the total risk score, the sum of the per-match
    risk scores divided by the number of listed matches, lies between 0
    and 1. *)
Theorem total_risk_score_is_normalised self inp w res w' :
  optimize self inp w = (Ok res, w') ->
  (0 <= total_risk_score (OptimizationResult.risk_analysis res))%Q
  /\ (total_risk_score (OptimizationResult.risk_analysis res) <= 1)%Q.
Proof.
  intros Hopt.
  apply optimize_report in Hopt
    as (combos & st & k & win & lo & hi & optimal
        & Hvalid & _ & _ & _ & _ & _ & _ & _ & _ & _ & ->).
  simpl.
  destruct (generate_risk_analysis_inv inp win)
    as (total & risks & Hloop & _ & ->).
  apply risk_loop_spec in Hloop as (_ & _ & _ & Hbound).
  destruct Hvalid as (_ & Hrange & _).
  destruct (Hbound Hrange) as [Hlo Hhi].
  destruct (Nat.eqb_spec (length (default [] (match_ids inp))) 0) as [H0|Hpos].
  - rewrite H0 in Hhi. change (inject_Z (Z.of_nat 0)) with 0%Q in Hhi.
    split; lra.
  - assert (Hlen : (0 < inject_Z (Z.of_nat (length (default [] (match_ids inp)))))%Q).
    { unfold Qlt; simpl. lia. }
    split.
    + apply Qle_shift_div_l; [exact Hlen|lra].
    + apply Qle_shift_div_r; [exact Hlen|lra].
Qed.

Lemma total_risk_score_is_normalised_witness :
  exists res w',
    optimize one_trial request_even world0 = (Ok res, w')
    /\ (0 <= total_risk_score (OptimizationResult.risk_analysis res))%Q
    /\ (total_risk_score (OptimizationResult.risk_analysis res) <= 1)%Q.
Proof.
  eexists _, _. split; [vm_compute; reflexivity|].
  refine (total_risk_score_is_normalised one_trial request_even world0 _ _ _).
  vm_compute. reflexivity.
Defined.

(** ** Stable descending sorts *)

Lemma insert_desc_perm {A} (key : A -> Q) x xs :
  insert_desc key x xs ≡ₚ x :: xs.
Proof.
  induction xs as [|y ys IH]; simpl; [reflexivity|].
  destruct (Qgtb (key y) (key x)); [|reflexivity].
  rewrite IH. apply Permutation_swap.
Qed.

Lemma sorted_desc_perm {A} (key : A -> Q) xs : sorted_desc key xs ≡ₚ xs.
Proof.
  induction xs as [|x xs IH]; simpl; [reflexivity|].
  rewrite insert_desc_perm. now constructor.
Qed.

Lemma insert_desc_sorted {A} (key : A -> Q) x xs :
  StronglySorted (fun a b => (key b <= key a)%Q) xs ->
  StronglySorted (fun a b => (key b <= key a)%Q) (insert_desc key x xs).
Proof.
  induction 1 as [|y ys Hsorted IH Hall]; simpl.
  - repeat constructor.
  - destruct (Qgtb (key y) (key x)) eqn:Hcmp.
    + apply Qgtb_true in Hcmp. constructor; [exact IH|].
      rewrite insert_desc_perm. constructor; [lra|exact Hall].
    + apply Qgtb_false in Hcmp. constructor.
      * now constructor.
      * constructor; [exact Hcmp|].
        eapply Forall_impl; [exact Hall|]. simpl. intros z Hz. lra.
Qed.

Lemma sorted_desc_sorted {A} (key : A -> Q) xs :
  StronglySorted (fun a b => (key b <= key a)%Q) (sorted_desc key xs).
Proof.
  induction xs as [|x xs IH]; simpl; [constructor|].
  now apply insert_desc_sorted.
Qed.

(** The head of the sorted list is the first of the entries with the
    largest key. *)
Lemma sorted_desc_head {A} (key : A -> Q) xs :
  xs <> [] ->
  exists k win rest,
    sorted_desc key xs = win :: rest
    /\ xs !! k = Some win
    /\ (forall c, c ∈ xs -> (key c <= key win)%Q)
    /\ (forall j c, j < k -> xs !! j = Some c -> (key c < key win)%Q).
Proof.
  induction xs as [|x xs IH]; intros Hne; [contradiction|]. clear Hne.
  destruct xs as [|x' xs'].
  { exists 0, x, []. split; [reflexivity|]. split; [reflexivity|]. split.
    - intros c ->%list_elem_of_singleton. lra.
    - intros; lia. }
  destruct IH as (k & win & rest & Hsorted & Hk & Hmax & Hfirst);
    [discriminate|].
  cbn [sorted_desc foldr] in *. fold (sorted_desc key (x' :: xs')) in *.
  change (foldr (insert_desc key) [] xs') with (sorted_desc key xs') in *.
  rewrite Hsorted. simpl.
  destruct (Qgtb (key win) (key x)) eqn:Hcmp.
  - apply Qgtb_true in Hcmp.
    exists (S k), win, (insert_desc key x rest).
    split; [reflexivity|]. split; [exact Hk|]. split.
    + intros c [->|Hin]%elem_of_cons; [lra|now apply Hmax].
    + intros [|j] c Hj Hlook; simpl in Hlook.
      * injection Hlook as <-. exact Hcmp.
      * apply (Hfirst j c); [lia|exact Hlook].
  - apply Qgtb_false in Hcmp.
    exists 0, x, (win :: rest).
    split; [reflexivity|]. split; [reflexivity|]. split.
    + intros c [->|Hin]%elem_of_cons; [lra|].
      specialize (Hmax c Hin). lra.
    + intros; lia.
Qed.

Lemma sorted_by_target_desc xs :
  sorted_by_target xs = sorted_desc target_probability xs.
Proof.
  unfold sorted_by_target, sorted_desc.
  induction xs as [|x xs IH]; simpl; [reflexivity|]. rewrite IH.
  generalize (foldr (insert_desc target_probability) [] xs). intros ys.
  induction ys as [|y ys IHy]; simpl; [reflexivity|]. now rewrite IHy.
Qed.

Lemma first_maximal_unique all k win k' win' :
  first_maximal all k win -> first_maximal all k' win' ->
  k = k' /\ win = win'.
Proof.
  intros (Hk & Hmax & Hfirst) (Hk' & Hmax' & Hfirst').
  assert (k = k') as <-.
  { destruct (Nat.lt_trichotomy k k') as [Hlt|[Heq|Hgt]]; [|exact Heq|].
    - specialize (Hfirst' k win Hlt Hk).
      assert (win' ∈ all) as Hin by (apply list_elem_of_lookup; eauto).
      specialize (Hmax win' Hin). lra.
    - specialize (Hfirst k' win' Hgt Hk').
      assert (win ∈ all) as Hin by (apply list_elem_of_lookup; eauto).
      specialize (Hmax' win Hin). lra. }
  split; [reflexivity|congruence].
Qed.

Lemma sorted_by_target_winner all k win :
  first_maximal all k win ->
  exists rest,
    sorted_by_target all = win :: rest
    /\ win :: rest ≡ₚ all
    /\ StronglySorted
         (fun a b => (target_probability b <= target_probability a)%Q)
         (win :: rest).
Proof.
  intros Hfirst.
  assert (Hne : all <> []).
  { destruct Hfirst as (Hk & _). intros ->. discriminate. }
  destruct (sorted_desc_head target_probability all Hne)
    as (k' & win' & rest & Hsorted & Hk' & Hmax' & Hfirst').
  destruct (first_maximal_unique all k win k' win' Hfirst) as [_ <-].
  { split; [exact Hk'|]. split; assumption. }
  exists rest. rewrite sorted_by_target_desc, Hsorted.
  split; [reflexivity|]. rewrite <- Hsorted.
  split; [apply sorted_desc_perm|apply sorted_desc_sorted].
Qed.

(** ** The alternatives *)

Lemma alternatives_of_winner all k win :
  first_maximal all k win ->
  exists rest,
    win :: rest ≡ₚ all
    /\ StronglySorted
         (fun a b => (target_probability b <= target_probability a)%Q)
         (win :: rest)
    /\ alternatives_of all
       = imap (fun i result =>
                 {| rank := i + 2;
                    alt_expected_score := expected_score result;
                    alt_target_probability := target_probability result;
                    picks := combination result |})
              (take 3 rest).
Proof.
  intros Hfirst.
  destruct (sorted_by_target_winner all k win Hfirst)
    as (rest & Hsorted & Hperm & Hdesc).
  exists rest. split; [exact Hperm|]. split; [exact Hdesc|].
  unfold alternatives_of. now rewrite Hsorted.
Qed.

Lemma StronglySorted_lookup {A} (R : A -> A -> Prop) xs i j a b :
  StronglySorted R xs -> i < j -> xs !! i = Some a -> xs !! j = Some b ->
  R a b.
Proof.
  intros Hs. revert i j. induction Hs as [|x xs Hs IH Hall]; intros i j Hij Hi Hj;
    [discriminate|].
  destruct j as [|j]; [lia|]. simpl in Hj.
  destruct i as [|i]; simpl in Hi.
  - injection Hi as <-. rewrite Forall_forall in Hall. apply Hall.
    apply list_elem_of_lookup. eauto.
  - apply (IH i j); [lia|assumption..].
Qed.

(** X8.  The report lists min(3, 2^U - 1) alternatives.  The i-th of them
    (from 0) has rank i + 2 and repeats the combination, expected score and
    target probability of an evaluated candidate; its combination differs
    from the winner's and from every other alternative's, its target
    probability does not exceed the winner's, and the target probabilities
    do not increase along the list. *)
Theorem alternatives_are_the_next_best_candidates self inp w res w' :
  optimize self inp w = (Ok res, w') ->
  exists combos st k win,
    _generate_unsafe_combinations inp w = (Ok combos, w)
    /\ evaluate_all self inp initial_search combos w = (Ok st, w')
    /\ first_maximal (all_results st) k win
    /\ let alts := OptimizationResult.alternative_strategies res in
       length alts = 3 `min` (2 ^ size (unsafe_matches inp) - 1)
       /\ NoDup (picks <$> alts)
       /\ forall i a, alts !! i = Some a ->
            rank a = i + 2
            /\ (exists c, c ∈ all_results st
                  /\ picks a = combination c
                  /\ alt_expected_score a = expected_score c
                  /\ alt_target_probability a = target_probability c)
            /\ picks a <> combination win
            /\ (alt_target_probability a <= target_probability win)%Q
            /\ forall b, alts !! S i = Some b ->
                 (alt_target_probability b <= alt_target_probability a)%Q.
Proof.
  intros Hopt.
  apply optimize_report in Hopt
    as (combos & st & k & win & lo & hi & optimal
        & _ & Hgen & Hrun & Hcombs & _ & Hfirst & _ & _ & _ & _ & ->).
  exists combos, st, k, win.
  split; [exact Hgen|]. split; [exact Hrun|]. split; [exact Hfirst|].
  destruct (generate_unsafe_combinations_spec inp w)
    as (combos' & Hgen' & Hlen & Hnd & _).
  rewrite Hgen' in Hgen. injection Hgen as ->.
  destruct (alternatives_of_winner _ _ _ Hfirst)
    as (rest & Hperm & Hdesc & Halts).
  cbn [OptimizationResult.alternative_strategies]. rewrite Halts. cbv zeta.
  assert (Hndall : NoDup (combination <$> win :: rest)).
  { rewrite Hperm, Hcombs. exact Hnd. }
  rewrite fmap_cons in Hndall. apply NoDup_cons in Hndall as [Hwin Hndrest].
  assert (Hlenrest : length rest = 2 ^ size (unsafe_matches inp) - 1).
  { apply Permutation_length in Hperm. simpl in Hperm.
    rewrite <- Hlen, <- Hcombs, length_fmap. lia. }
  split; [now rewrite length_imap, length_take, Hlenrest|].
  split.
  { assert (Hpicks : picks <$> imap (fun i result =>
               {| rank := i + 2;
                  alt_expected_score := expected_score result;
                  alt_target_probability := target_probability result;
                  picks := combination result |}) (take 3 rest)
             = take 3 (combination <$> rest)).
    { rewrite <- fmap_take. generalize (take 3 rest). intros l.
      apply list_eq. intros i. rewrite list_lookup_fmap, list_lookup_imap.
      rewrite list_lookup_fmap. now destruct (l !! i). }
    rewrite Hpicks. eapply sublist_NoDup; [exact Hndrest|].
    apply sublist_take. }
  intros i a Ha.
  rewrite list_lookup_imap in Ha.
  destruct (take 3 rest !! i) as [c|] eqn:Hc; [|discriminate].
  injection Ha as <-. cbn [rank picks alt_expected_score alt_target_probability].
  assert (Hi : i < 3) by (apply lookup_lt_Some in Hc; rewrite length_take in Hc; lia).
  rewrite lookup_take_lt in Hc by exact Hi.
  assert (Hin : c ∈ rest) by (apply list_elem_of_lookup; eauto).
  split; [reflexivity|]. split.
  { exists c. split; [|auto]. rewrite <- Hperm. now apply list_elem_of_further. }
  split.
  { intros Heq. apply Hwin. rewrite <- Heq. apply list_elem_of_fmap. eauto. }
  split.
  { apply (StronglySorted_lookup _ _ 0 (S i) win c Hdesc); [lia|reflexivity|exact Hc]. }
  intros b Hb. rewrite list_lookup_imap in Hb.
  destruct (take 3 rest !! S i) as [c'|] eqn:Hc'; [|discriminate].
  injection Hb as <-. cbn [alt_target_probability].
  assert (Hi' : S i < 3) by (apply lookup_lt_Some in Hc'; rewrite length_take in Hc'; lia).
  rewrite lookup_take_lt in Hc' by exact Hi'.
  apply (StronglySorted_lookup _ _ (S i) (S (S i)) c c' Hdesc); [lia|exact Hc|exact Hc'].
Qed.

Lemma alternatives_are_the_next_best_candidates_witness :
  exists res w' combos st k win,
    optimize one_trial request_tie world0 = (Ok res, w')
    /\ _generate_unsafe_combinations request_tie world0 = (Ok combos, world0)
    /\ evaluate_all one_trial request_tie initial_search combos world0
       = (Ok st, w')
    /\ first_maximal (all_results st) k win
    /\ let alts := OptimizationResult.alternative_strategies res in
       length alts = 3 `min` (2 ^ size (unsafe_matches request_tie) - 1)
       /\ NoDup (picks <$> alts)
       /\ forall i a, alts !! i = Some a ->
            rank a = i + 2
            /\ (exists c, c ∈ all_results st
                  /\ picks a = combination c
                  /\ alt_expected_score a = expected_score c
                  /\ alt_target_probability a = target_probability c)
            /\ picks a <> combination win
            /\ (alt_target_probability a <= target_probability win)%Q
            /\ forall b, alts !! S i = Some b ->
                 (alt_target_probability b <= alt_target_probability a)%Q.
Proof.
  assert (Hopt : exists res w',
             optimize one_trial request_tie world0 = (Ok res, w')).
  { eexists _, _. vm_compute. reflexivity. }
  destruct Hopt as (res & w' & Hopt).
  destruct (alternatives_are_the_next_best_candidates
              one_trial request_tie world0 res w' Hopt)
    as (combos & st & k & win & H).
  exists res, w', combos, st, k, win. split; [exact Hopt|exact H].
Defined.

(** ** The reported picks and the simulated pick vector *)

Lemma optimal_picks_loop_length inp win ids todo : forall optimal,
  optimal_picks_loop inp win ids todo = Ok optimal ->
  length optimal = length todo.
Proof.
  induction todo as [|m todo IH]; intros optimal Hrun; simpl in Hrun.
  - now injection Hrun as <-.
  - apply rbind_inv_ok in Hrun as (s & _ & Hrun).
    apply rbind_inv_ok in Hrun as (ss & Hss & Hrun).
    injection Hrun as <-. simpl. f_equal. eapply IH, Hss.
Qed.

Lemma optimal_pick_matches_entry inp comb win ids i m b s :
  combination win = comb ->
  py_index m ids = Some i ->
  pick_entry inp comb i m = Ok b ->
  optimal_pick inp win ids m = Ok s ->
  s = if (b =? 1)%Z then team_a else team_b.
Proof.
  intros <- Hidx. unfold pick_entry, optimal_pick, favoured_side.
  rewrite Hidx.
  case_bool_decide as Hsafe.
  - intros (above & -> & [= <-])%rbind_inv_ok. simpl.
    intros [= <-]. now destruct above.
  - destruct (combination win !! m) as [sd|].
    + intros [= <-] [= <-]. now destruct sd.
    + intros (above & -> & [= <-])%rbind_inv_ok. simpl.
      intros [= <-]. now destruct above.
Qed.

(** X9.  In every report [optimal_picks] has one entry per listed match,
    as has the pick vector that was simulated for the winning candidate,
    and when the match identifiers are distinct the two agree position by
    position: [team_a] where the vector holds 1 and [team_b] where it
    holds 0. *)
Theorem optimal_picks_agree_with_the_simulated_vector self inp w res w' :
  optimize self inp w = (Ok res, w') ->
  exists combos st k win,
    _generate_unsafe_combinations inp w = (Ok combos, w)
    /\ evaluate_all self inp initial_search combos w = (Ok st, w')
    /\ first_maximal (all_results st) k win
    /\ length (OptimizationResult.optimal_picks res)
       = length (default [] (match_ids inp))
    /\ length (pick_vector win) = length (default [] (match_ids inp))
    /\ (NoDup (default [] (match_ids inp)) ->
        forall i,
          OptimizationResult.optimal_picks res !! i
          = (fun b => if (b =? 1)%Z then team_a else team_b)
              <$> pick_vector win !! i).
Proof.
  intros Hopt.
  apply optimize_report in Hopt
    as (combos & st & k & win & lo & hi & optimal
        & _ & Hgen & Hrun & _ & _ & Hfirst & Hwin & _ & _ & Hloop & ->).
  exists combos, st, k, win.
  split; [exact Hgen|]. split; [exact Hrun|]. split; [exact Hfirst|].
  destruct Hwin as (Hpv & _). unfold _create_pick_vector in Hpv.
  cbn [OptimizationResult.optimal_picks].
  split; [eapply optimal_picks_loop_length, Hloop|].
  split; [eapply pick_entries_length, Hpv|].
  intros Hnd i.
  destruct (default [] (match_ids inp) !! i) as [m|] eqn:Hi.
  - destruct (pick_entries_lookup _ _ _ _ _ _ _ Hpv Hi) as (b & -> & Hb).
    destruct (optimal_picks_loop_lookup _ _ _ _ _ _ _ Hloop Hi)
      as (s & -> & Hs).
    simpl. f_equal.
    eapply optimal_pick_matches_entry;
      [reflexivity|apply py_index_NoDup; eassumption|exact Hb|exact Hs].
  - apply lookup_ge_None in Hi.
    rewrite !lookup_ge_None_2; [reflexivity| |].
    + erewrite pick_entries_length by exact Hpv. exact Hi.
    + erewrite optimal_picks_loop_length by exact Hloop. exact Hi.
Qed.

Lemma optimal_picks_agree_with_the_simulated_vector_witness :
  exists res w' combos st k win,
    optimize one_trial request_tie world0 = (Ok res, w')
    /\ _generate_unsafe_combinations request_tie world0 = (Ok combos, world0)
    /\ evaluate_all one_trial request_tie initial_search combos world0
       = (Ok st, w')
    /\ first_maximal (all_results st) k win
    /\ length (OptimizationResult.optimal_picks res)
       = length (default [] (match_ids request_tie))
    /\ length (pick_vector win) = length (default [] (match_ids request_tie))
    /\ (NoDup (default [] (match_ids request_tie)) ->
        forall i,
          OptimizationResult.optimal_picks res !! i
          = (fun b => if (b =? 1)%Z then team_a else team_b)
              <$> pick_vector win !! i).
Proof.
  assert (Hopt : exists res w',
             optimize one_trial request_tie world0 = (Ok res, w')).
  { eexists _, _. vm_compute. reflexivity. }
  destruct Hopt as (res & w' & Hopt).
  destruct (optimal_picks_agree_with_the_simulated_vector
              one_trial request_tie world0 res w' Hopt)
    as (combos & st & k & win & H).
  exists res, w', combos, st, k, win. split; [exact Hopt|exact H].
Defined.

(** ** Targets that every candidate meets or none does *)

Lemma target_prob_out_of_reach inp dist :
  length dist = 10 -> (10 <= target_score inp)%Z ->
  target_prob_of inp dist = 0%Q.
Proof.
  intros Hlen Ht. unfold target_prob_of, py_slice_from.
  destruct (Z.ltb_spec (target_score inp) 0) as [|_]; [lia|].
  rewrite drop_ge by lia. reflexivity.
Qed.

Lemma product_repeat_sides_head n :
  exists rest, product_repeat [team_a; team_b] n = replicate n team_a :: rest.
Proof.
  induction n as [|n [rest IH]]; [exists []; reflexivity|].
  cbn [product_repeat flat_map]. rewrite IH. simpl. eauto.
Qed.

Lemma first_combination_all_team_a inp w combos :
  _generate_unsafe_combinations inp w = (Ok combos, w) ->
  exists first rest,
    combos = first :: rest
    /\ forall m, m ∈ unsafe_matches inp -> first !! m = Some team_a.
Proof.
  unfold _generate_unsafe_combinations.
  change (length (elements (unsafe_matches inp)))
    with (size (unsafe_matches inp)).
  destruct (Nat.eqb_spec (size (unsafe_matches inp)) 0) as [H0|Hpos].
  - intros [= <-]. exists ∅, []. split; [reflexivity|].
    intros m Hm. apply size_empty_inv in H0. now apply H0 in Hm.
  - rewrite filter_all_true by reflexivity.
    destruct (product_repeat_sides_head (size (unsafe_matches inp)))
      as (others & ->).
    rewrite fmap_cons. intros [= <-]. eexists _, _. split; [reflexivity|].
    intros m Hm. apply elem_of_elements, list_elem_of_lookup in Hm as [j Hj].
    eapply (py_dict_fold_lookup _ _ ∅ j); [apply NoDup_elements|exact Hj|].
    apply lookup_replicate_2. apply lookup_lt_Some in Hj. exact Hj.
Qed.

(** X10.  When the target score is 10 or more, no score of the ten-entry
    distribution reaches it: every candidate has target probability 0,
    the first enumerated candidate is reported, and so every match that
    is marked unsafe and not safe is given to [team_a], whatever its
    odds. *)
Theorem out_of_reach_target_reports_team_a_for_unsafe_matches
    self inp w res w' :
  optimize self inp w = (Ok res, w') ->
  (10 <= target_score inp)%Z ->
  (exists combos st win,
      _generate_unsafe_combinations inp w = (Ok combos, w)
      /\ evaluate_all self inp initial_search combos w = (Ok st, w')
      /\ first_maximal (all_results st) 0 win
      /\ forall c, c ∈ all_results st -> target_probability c = 0%Q)
  /\ forall i m,
       default [] (match_ids inp) !! i = Some m ->
       m ∈ unsafe_matches inp -> m ∉ safe_matches inp ->
       OptimizationResult.optimal_picks res !! i = Some team_a.
Proof.
  intros Hopt Ht.
  apply optimize_report in Hopt
    as (combos & st & k & win & lo & hi & optimal
        & _ & Hgen & Hrun & Hcombs & Hall & Hfirst & Hwin & _ & _ & Hloop & ->).
  assert (Hconst : forall c, c ∈ all_results st -> target_probability c = 0%Q).
  { intros c Hc. rewrite Forall_forall in Hall.
    destruct (Hall c Hc) as (_ & Hlen & _ & _ & -> & _).
    now apply target_prob_out_of_reach. }
  assert (Hwinin : win ∈ all_results st).
  { apply list_elem_of_lookup. exists k. apply Hfirst. }
  assert (k = 0) as ->.
  { destruct k as [|k]; [reflexivity|]. exfalso.
    destruct Hfirst as (Hk & _ & Hbefore).
    assert (Hlen0 : 0 < length (all_results st))
      by (apply lookup_lt_Some in Hk; lia).
    destruct (lookup_lt_is_Some_2 _ _ Hlen0) as [c Hc].
    specialize (Hbefore 0 c ltac:(lia) Hc).
    assert (c ∈ all_results st) as Hcin by (apply list_elem_of_lookup; eauto).
    rewrite (Hconst c Hcin), (Hconst win Hwinin) in Hbefore. lra. }
  split.
  { exists combos, st, win.
    split; [exact Hgen|]. split; [exact Hrun|]. split; [exact Hfirst|].
    exact Hconst. }
  intros i m Hi Hunsafe Hnotsafe.
  destruct (first_combination_all_team_a inp w combos Hgen)
    as (first & rest & -> & Hfirstcomb).
  destruct Hfirst as (H0 & _).
  assert (Hcomb : combination win = first).
  { destruct (all_results st) as [|c cs]; [discriminate|].
    simpl in H0. injection H0 as ->. now injection Hcombs. }
  destruct (optimal_picks_loop_lookup _ _ _ _ _ _ _ Hloop Hi)
    as (s & Hs & Hpick).
  cbn [OptimizationResult.optimal_picks]. rewrite Hs. f_equal.
  unfold optimal_pick in Hpick.
  rewrite bool_decide_eq_false_2 in Hpick by exact Hnotsafe.
  rewrite Hcomb, (Hfirstcomb m Hunsafe) in Hpick. now injection Hpick.
Qed.

Lemma out_of_reach_target_reports_team_a_for_unsafe_matches_witness :
  let inp := {| odds_vector := [(1 # 10)%Q];
                safe_matches := ∅;
                unsafe_matches := {[ "m0" ]};
                constraints := ∅;
                target_score := 10;
                match_ids := Some ["m0"] |} in
  exists res w',
    optimize one_trial inp world0 = (Ok res, w')
    /\ (exists combos st win,
          _generate_unsafe_combinations inp world0 = (Ok combos, world0)
          /\ evaluate_all one_trial inp initial_search combos world0
             = (Ok st, w')
          /\ first_maximal (all_results st) 0 win
          /\ forall c, c ∈ all_results st -> target_probability c = 0%Q)
    /\ forall i m,
         default [] (match_ids inp) !! i = Some m ->
         m ∈ unsafe_matches inp -> m ∉ safe_matches inp ->
         OptimizationResult.optimal_picks res !! i = Some team_a.
Proof.
  intros inp.
  assert (Hopt : exists res w',
             optimize one_trial inp world0 = (Ok res, w')).
  { eexists _, _. vm_compute. reflexivity. }
  destruct Hopt as (res & w' & Hopt).
  exists res, w'. split; [exact Hopt|].
  apply (out_of_reach_target_reports_team_a_for_unsafe_matches
           one_trial inp world0 res w' Hopt).
  vm_compute. discriminate.
Defined.

(** ** More match identifiers than probabilities *)

Lemma odds_above_half_raise inp i e :
  odds_above_half inp i = Raise e ->
  e = IndexError /\ length (odds_vector inp) <= i.
Proof.
  unfold odds_above_half.
  destruct (odds_vector inp !! i) as [prob|] eqn:Hi; [discriminate|].
  intros [= <-]. split; [reflexivity|]. now apply lookup_ge_None.
Qed.

Lemma pick_entry_raise inp comb i m e :
  pick_entry inp comb i m = Raise e -> e = IndexError.
Proof.
  unfold pick_entry. case_bool_decide.
  - destruct (odds_above_half inp i) as [above|e'] eqn:Ha; [discriminate|].
    intros [= <-]. now apply odds_above_half_raise in Ha.
  - destruct (comb !! m); [discriminate|].
    destruct (odds_above_half inp i) as [above|e'] eqn:Ha; [discriminate|].
    intros [= <-]. now apply odds_above_half_raise in Ha.
Qed.

Lemma pick_entries_raise inp comb ids : forall i0 e,
  pick_entries inp comb i0 ids = Raise e -> e = IndexError.
Proof.
  induction ids as [|m ids IH]; intros i0 e; simpl; [discriminate|].
  destruct (pick_entry inp comb i0 m) as [b|e'] eqn:Hb; simpl.
  - destruct (pick_entries inp comb (S i0) ids) as [bs|e''] eqn:Hbs;
      [discriminate|].
    intros [= <-]. eapply IH, Hbs.
  - intros [= <-]. eapply pick_entry_raise, Hb.
Qed.

Lemma pick_entries_missing_odds inp comb ids i0 i m :
  ids !! i = Some m ->
  length (odds_vector inp) <= i0 + i ->
  m ∈ safe_matches inp \/ comb !! m = None ->
  pick_entries inp comb i0 ids = Raise IndexError.
Proof.
  intros Hi Hlen Hm.
  destruct (pick_entries inp comb i0 ids) as [picks|e] eqn:Hrun.
  - exfalso.
    destruct (pick_entries_lookup _ _ _ _ _ _ _ Hrun Hi) as (b & _ & Hb).
    revert Hb. unfold pick_entry, odds_above_half.
    rewrite (lookup_ge_None_2 _ _ Hlen).
    destruct Hm as [Hsafe|Hnone].
    + now rewrite bool_decide_eq_true_2 by exact Hsafe.
    + rewrite Hnone. now case_bool_decide.
  - f_equal. eapply pick_entries_raise, Hrun.
Qed.

(** X11.  When the input passes validation but lists, at a position that
    has no probability, a match that is marked safe or is not marked
    unsafe, [optimize] raises [IndexError] while building the first pick
    vector: no simulation is run and no draw is consumed. *)
Theorem surplus_match_id_raises_index_error self inp w i m :
  valid_input inp ->
  default [] (match_ids inp) !! i = Some m ->
  length (odds_vector inp) <= i ->
  m ∈ safe_matches inp \/ m ∉ unsafe_matches inp ->
  optimize self inp w = (Raise IndexError, w).
Proof.
  intros Hvalid Hi Hlen Hm.
  destruct (generate_unsafe_combinations_spec inp w)
    as (combos & Hgen & Hcount & _ & Hdom & _).
  destruct combos as [|first rest].
  { simpl in Hcount.
    pose proof (Nat.pow_nonzero 2 (size (unsafe_matches inp))). lia. }
  assert (Hpv : _create_pick_vector inp first = Raise IndexError).
  { apply (pick_entries_missing_odds inp first _ 0 i m Hi); [simpl; lia|].
    destruct Hm as [Hsafe|Hnot]; [now left|right].
    apply not_elem_of_dom. rewrite (Hdom first); [exact Hnot|].
    apply list_elem_of_here. }
  unfold optimize.
  erewrite bind_ok by (apply validate_input_ok; exact Hvalid).
  erewrite bind_ok by exact Hgen.
  apply bind_raise. simpl. apply bind_raise.
  unfold evaluate_combination. apply bind_raise.
  unfold lift_result. now rewrite Hpv.
Qed.

Lemma surplus_match_id_raises_index_error_witness :
  optimize one_trial
    {| odds_vector := [(1 # 2)%Q];
       safe_matches := ∅;
       unsafe_matches := ∅;
       constraints := ∅;
       target_score := 5;
       match_ids := Some ["m0"; "m1"] |}
    world0
  = (Raise IndexError, world0).
Proof.
  apply (surplus_match_id_raises_index_error _ _ _ 1 "m1").
  - split; [discriminate|]. split.
    { constructor; [|constructor]. split; unfold Qle; simpl; lia. }
    split; [vm_compute; lia|reflexivity].
  - reflexivity.
  - simpl. lia.
  - right. vm_compute. discriminate.
Defined.

(** ** No match identifiers *)

Lemma evaluate_all_Forall self inp (P : candidate -> Prop) combs :
  (forall comb picks dist w w',
      _create_pick_vector inp comb = Ok picks ->
      _monte_carlo_simulation self (odds_vector inp) picks w = (Ok dist, w') ->
      P (candidate_of inp comb picks dist)) ->
  forall st w st' w',
    evaluate_all self inp st combs w = (Ok st', w') ->
    Forall P (all_results st) -> Forall P (all_results st').
Proof.
  intros HP. induction combs as [|comb combs IH]; intros st w st' w' Hrun Hall;
    simpl in Hrun.
  - now injection Hrun as <- _.
  - apply bind_inv_ok in Hrun as (st1 & w1 & Hstep & Hrun).
    apply (IH _ _ _ _ Hrun).
    apply evaluate_combination_inv in Hstep
      as (picks & dist & Hp & Hsim & Hres & _).
    rewrite Hres. apply Forall_app. split; [exact Hall|].
    constructor; [|constructor]. eapply HP; eassumption.
Qed.

Lemma correct_picks_nil outcomes : correct_picks outcomes [] = 0.
Proof. unfold correct_picks. now rewrite zip_with_nil_r. Qed.

Lemma simulate_trial_no_picks odds w :
  simulate_trial odds [] w =
    (Ok 0,
     {| rng_stream := rng_stream w; rng_pos := rng_pos w + length odds;
        simulations_run := simulations_run w |}).
Proof.
  unfold simulate_trial.
  destruct (np_random_spec (length odds) w) as (draws & Hd & _).
  erewrite bind_ok by exact Hd. unfold ret. do 2 f_equal.
  apply correct_picks_nil.
Qed.

Lemma run_trials_no_picks n odds w :
  exists w', run_trials n odds [] w = (Ok (replicate n 0), w').
Proof.
  revert w. induction n as [|n IH]; intros w; simpl.
  - eexists. reflexivity.
  - erewrite bind_ok by apply simulate_trial_no_picks.
    destruct (IH {| rng_stream := rng_stream w;
                    rng_pos := rng_pos w + length odds;
                    simulations_run := simulations_run w |}) as (w' & Hr).
    erewrite bind_ok by exact Hr. eexists. reflexivity.
Qed.

Lemma monte_carlo_no_picks self odds w dist w' :
  _monte_carlo_simulation self odds [] w = (Ok dist, w') ->
  dist = share (num_simulations self) (num_simulations self)
         :: replicate 9 (share (num_simulations self) 0).
Proof.
  intros Hsim.
  destruct (monte_carlo_unfold self odds [] w)
    as (scores & w1 & Hr & Heq & _).
  destruct (run_trials_no_picks (num_simulations self) odds
              (count_simulation w).2) as (w2 & Hr').
  rewrite Hr in Hr'. injection Hr' as -> _.
  rewrite Heq in Hsim. injection Hsim as Hnorm _.
  rewrite (histogram_replicate _ 0) in Hnorm by lia.
  assert (Htotal : sum_list (<[0 := num_simulations self]> (replicate 10 0))
                   = num_simulations self) by (simpl; lia).
  rewrite Htotal in Hnorm.
  destruct (Nat.eq_dec (num_simulations self) 0) as [H0|Hpos].
  - rewrite H0 in Hnorm. discriminate.
  - rewrite normalize_ok in Hnorm by exact Hpos. now injection Hnorm as <-.
Qed.

(** X12.  When [match_ids] is absent or empty (the dataclass default), a
    valid input run with at least one trial yields a report with no picks
    and no risk entries; every candidate scored 0 in every trial, so the
    distribution has all its mass at score 0 and the expected score is 0. *)
Theorem no_match_ids_gives_an_empty_report self inp w :
  valid_input inp ->
  default [] (match_ids inp) = [] ->
  1 <= num_simulations self ->
  exists res w',
    optimize self inp w = (Ok res, w')
    /\ OptimizationResult.optimal_picks res = []
    /\ match_risks (OptimizationResult.risk_analysis res) = ∅
    /\ Forall2 Qeq (OptimizationResult.score_distribution res)
         (1%Q :: replicate 9 0%Q)
    /\ (OptimizationResult.expected_score res == 0)%Q.
Proof.
  intros Hvalid Hids Hn.
  destruct (optimize_total self inp w Hvalid) as (res & w' & Hopt);
    [rewrite Hids; simpl; lia..|exact Hn|].
  exists res, w'. split; [exact Hopt|].
  apply optimize_report in Hopt
    as (combos & st & k & win & lo & hi & optimal
        & _ & _ & Hrun & _ & _ & Hfirst & Hwin & _ & _ & Hloop & ->).
  set (n := num_simulations self) in *.
  assert (Hdist : score_distribution win
                  = share n n :: replicate 9 (share n 0)).
  { assert (Hall : Forall (fun c => score_distribution c
                             = share n n :: replicate 9 (share n 0))
                     (all_results st)).
    { eapply (evaluate_all_Forall self inp); [|exact Hrun|constructor].
      intros comb picks dist w1 w2 Hp Hsim. simpl.
      unfold _create_pick_vector in Hp. rewrite Hids in Hp.
      injection Hp as <-. eapply monte_carlo_no_picks, Hsim. }
    rewrite Forall_forall in Hall. apply Hall.
    apply list_elem_of_lookup. exists k. apply Hfirst. }
  cbn [OptimizationResult.optimal_picks OptimizationResult.risk_analysis
       OptimizationResult.score_distribution
       OptimizationResult.expected_score].
  rewrite Hids in Hloop. injection Hloop as <-.
  split; [reflexivity|]. split.
  { unfold _generate_risk_analysis. rewrite Hids. reflexivity. }
  assert (Hone : (share n n == 1)%Q) by (apply share_self; lia).
  pose proof (share_zero n) as Hzero.
  split.
  { rewrite Hdist. constructor; [exact Hone|].
    apply Forall2_replicate. exact Hzero. }
  destruct Hwin as (_ & _ & _ & _ & _ & ->). rewrite Hdist.
  unfold expected_score_of, Qsum. simpl.
  rewrite Hzero. ring.
Qed.

Lemma no_match_ids_gives_an_empty_report_witness :
  exists res w',
    optimize one_trial
      {| odds_vector := [(1 # 2)%Q]; safe_matches := ∅; unsafe_matches := ∅;
         constraints := ∅; target_score := 5; match_ids := None |}
      world0 = (Ok res, w')
    /\ OptimizationResult.optimal_picks res = []
    /\ match_risks (OptimizationResult.risk_analysis res) = ∅
    /\ Forall2 Qeq (OptimizationResult.score_distribution res)
         (1%Q :: replicate 9 0%Q)
    /\ (OptimizationResult.expected_score res == 0)%Q.
Proof.
  apply no_match_ids_gives_an_empty_report.
  - split; [discriminate|]. split.
    { constructor; [|constructor]. split; unfold Qle; simpl; lia. }
    split; [vm_compute; lia|reflexivity].
  - reflexivity.
  - simpl. lia.
Defined.

(** * The winner of the search *)





(** * The module-level helpers of [optimizer.py] *)

(** ** [classify_match_safety] *)

Lemma safety_entry_above prob threshold :
  (threshold <= prob)%Q -> Qgeb (Qmax prob (1 - prob)) threshold = true.
Proof.
  intros H. apply Qgeb_true.
  eapply Qle_trans; [exact H|apply Q.le_max_l].
Qed.

Lemma safety_entry_half prob threshold :
  (threshold <= 1 # 2)%Q -> Qgeb (Qmax prob (1 - prob)) threshold = true.
Proof.
  intros H. apply Qgeb_true, Q.max_le_iff.
  destruct (Qlt_le_dec prob (1 # 2)); [right|left]; lra.
Qed.

Lemma safety_entry_out_of_reach prob threshold :
  (1 < threshold)%Q -> (0 <= prob)%Q -> (prob <= 1)%Q ->
  Qgeb (Qmax prob (1 - prob)) threshold = false.
Proof.
  intros Ht H0 H1. apply not_true_iff_false. rewrite Qgeb_true.
  intros H. apply Q.max_le_iff in H. destruct H; lra.
Qed.

(** X13.  [classify_match_safety] returns one flag per probability.  A
    probability that is at least the threshold is flagged safe; a
    threshold of one half or less flags every match safe; and a threshold
    above 1 flags no match whose probability lies in [0, 1]. *)
Theorem classify_match_safety_at_the_extreme_thresholds odds threshold :
  length (classify_match_safety odds threshold) = length odds
  /\ (forall i prob,
        odds !! i = Some prob -> (threshold <= prob)%Q ->
        classify_match_safety odds threshold !! i = Some true)
  /\ ((threshold <= 1 # 2)%Q ->
      classify_match_safety odds threshold = replicate (length odds) true)
  /\ ((1 < threshold)%Q ->
      Forall (fun prob => (0 <= prob)%Q /\ (prob <= 1)%Q) odds ->
      classify_match_safety odds threshold = replicate (length odds) false).
Proof.
  unfold classify_match_safety. split; [apply length_fmap|]. split; [|split].
  - intros i prob Hi Ht. rewrite list_lookup_fmap, Hi. simpl. f_equal.
    now apply safety_entry_above.
  - intros Ht. induction odds as [|prob odds IH]; [reflexivity|].
    rewrite fmap_cons, IH. simpl. f_equal. now apply safety_entry_half.
  - intros Ht Hall. induction Hall as [|prob odds [H0 H1] _ IH]; [reflexivity|].
    rewrite fmap_cons, IH. simpl. f_equal.
    now apply safety_entry_out_of_reach.
Qed.

(** ** [calculate_implied_win_rates] *)

Lemma py_fdiv_ok x y : ~ (y == 0)%Q -> py_fdiv x y = Ok (x / y)%Q.
Proof.
  intros Hy. unfold py_fdiv.
  destruct (Qeq_bool y 0) eqn:Heq; [|reflexivity].
  now apply Qeq_bool_iff in Heq.
Qed.

Lemma py_fdiv_zero x y : (y == 0)%Q -> py_fdiv x y = Raise ZeroDivisionError.
Proof.
  intros Hy. unfold py_fdiv. now rewrite (proj2 (Qeq_bool_iff y 0) Hy).
Qed.

Lemma reciprocals_cancel a b :
  ~ (a == 0)%Q -> ~ (b == 0)%Q ->
  ((1 / a + 1 / b == 0)%Q <-> (a + b == 0)%Q).
Proof.
  intros Ha Hb.
  assert (Hmul : ((1 / a + 1 / b) * (a * b) == a + b)%Q) by (field; tauto).
  split; intros H.
  - rewrite <- Hmul, H. ring.
  - assert (Hprod : ~ (a * b == 0)%Q).
    { intros Hab. apply Qmult_integral in Hab. tauto. }
    rewrite H in Hmul.
    apply Qmult_integral in Hmul. tauto.
Qed.

(** The decimal odds of an entry, with the defaults of the source. *)
Lemma implied_win_rate_of_cases match_odds :
  let a := default 2%Q (team_a_odds match_odds) in
  let b := default 2%Q (team_b_odds match_odds) in
  ((a == 0)%Q \/ (b == 0)%Q \/ (a + b == 0)%Q ->
   implied_win_rate_of match_odds = Raise ZeroDivisionError)
  /\ (~ ((a == 0)%Q \/ (b == 0)%Q \/ (a + b == 0)%Q) ->
      exists prob,
        implied_win_rate_of match_odds = Ok prob
        /\ (prob == b / (a + b))%Q).
Proof.
  intros a b. unfold implied_win_rate_of. fold a b.
  destruct (Qeq_dec a 0) as [Ha|Ha].
  { split; [|tauto]. intros _. now rewrite (py_fdiv_zero _ _ Ha). }
  rewrite (py_fdiv_ok _ _ Ha). simpl.
  destruct (Qeq_dec b 0) as [Hb|Hb].
  { split; [|tauto]. intros _. now rewrite (py_fdiv_zero _ _ Hb). }
  rewrite (py_fdiv_ok _ _ Hb). simpl.
  pose proof (reciprocals_cancel a b Ha Hb) as Hcancel.
  destruct (Qeq_dec (a + b) 0) as [Hab|Hab].
  { split; [|tauto]. intros _. apply py_fdiv_zero. now apply Hcancel. }
  split; [tauto|]. intros _.
  rewrite py_fdiv_ok by (now rewrite Hcancel).
  eexists. split; [reflexivity|]. field. tauto.
Qed.

Lemma implied_win_rate_of_raise match_odds e :
  implied_win_rate_of match_odds = Raise e -> e = ZeroDivisionError.
Proof.
  unfold implied_win_rate_of, py_fdiv.
  repeat (destruct (Qeq_bool _ _); simpl; [now intros [= <-]|]).
  discriminate.
Qed.

Lemma implied_win_rate_of_defaults match_odds prob :
  team_a_odds match_odds = None -> team_b_odds match_odds = None ->
  implied_win_rate_of match_odds = Ok prob -> (prob == 1 # 2)%Q.
Proof.
  intros Ha Hb. unfold implied_win_rate_of. rewrite Ha, Hb.
  vm_compute. intros [= <-]. reflexivity.
Qed.

Lemma implied_win_rates_loop_raise matches e :
  implied_win_rates_loop matches = Raise e -> e = ZeroDivisionError.
Proof.
  induction matches as [|m ms IH]; simpl; [discriminate|].
  destruct (implied_win_rate_of m) as [prob|e'] eqn:Hm; simpl.
  - destruct (implied_win_rates_loop ms) as [probs|e'']; simpl;
      [discriminate|].
    intros [= <-]. now apply IH.
  - intros [= <-]. eapply implied_win_rate_of_raise, Hm.
Qed.

(** X14.  For decimal odds that are all strictly positive (an absent odds
    counts as 2.0), [calculate_implied_win_rates] raises nothing and
    returns one probability per match; a match that gives neither odds
    gets the probability 0.5. *)
Theorem implied_win_rates_of_positive_odds matches :
  Forall (fun m => (0 < default 2 (team_a_odds m))%Q
                   /\ (0 < default 2 (team_b_odds m))%Q) matches ->
  exists probabilities,
    calculate_implied_win_rates (Some matches) = Ok probabilities
    /\ Forall2 (fun m prob =>
                  team_a_odds m = None -> team_b_odds m = None ->
                  (prob == 1 # 2)%Q)
               matches probabilities.
Proof.
  unfold calculate_implied_win_rates. simpl.
  induction 1 as [|m ms [Ha Hb] _ (probs & Hrun & Hall)]; simpl.
  - exists []. split; [reflexivity|constructor].
  - destruct (implied_win_rate_of_cases m) as [_ Hok].
    destruct Hok as (prob & Hm & _).
    { intros [H|[H|H]]; lra. }
    rewrite Hm, Hrun. simpl. exists (prob :: probs). split; [reflexivity|].
    constructor; [|exact Hall].
    intros Hna Hnb. eapply implied_win_rate_of_defaults; eassumption.
Qed.

Lemma implied_win_rates_of_positive_odds_witness :
  exists probabilities,
    calculate_implied_win_rates
      (Some [ {| team_a_odds := Some (185 # 100)%Q;
                 team_b_odds := Some (195 # 100)%Q |};
              {| team_a_odds := None; team_b_odds := None |} ])
    = Ok probabilities
    /\ Forall2 (fun m prob =>
                  team_a_odds m = None -> team_b_odds m = None ->
                  (prob == 1 # 2)%Q)
               [ {| team_a_odds := Some (185 # 100)%Q;
                    team_b_odds := Some (195 # 100)%Q |};
                 {| team_a_odds := None; team_b_odds := None |} ]
               probabilities.
Proof.
  apply implied_win_rates_of_positive_odds.
  repeat constructor.
Defined.

Lemma implied_win_rates_loop_length matches probabilities :
  implied_win_rates_loop matches = Ok probabilities ->
  length probabilities = length matches.
Proof.
  revert probabilities.
  induction matches as [|m ms IH]; intros probs; simpl.
  - now intros [= <-].
  - destruct (implied_win_rate_of m); simpl; [|discriminate].
    destruct (implied_win_rates_loop ms) as [ps|]; simpl; [|discriminate].
    intros [= <-]. simpl. f_equal. now apply IH.
Qed.

Lemma implied_win_rates_loop_zero matches :
  Exists (fun m => (default 2 (team_a_odds m) == 0)%Q
                   \/ (default 2 (team_b_odds m) == 0)%Q) matches ->
  implied_win_rates_loop matches = Raise ZeroDivisionError.
Proof.
  intros Hex.
  destruct (implied_win_rates_loop matches) as [probs|e] eqn:Hrun.
  - exfalso. revert probs Hrun.
    induction Hex as [m ms Hm|m ms _ IH]; intros probs; simpl.
    + destruct (implied_win_rate_of_cases m) as [Hbad _].
      rewrite Hbad; [discriminate|].
      destruct Hm; [now left|right; now left].
    + destruct (implied_win_rate_of m); simpl; [|discriminate].
      destruct (implied_win_rates_loop ms) as [ps|]; simpl; [|discriminate].
      intros _. now apply (IH ps).
  - f_equal. eapply implied_win_rates_loop_raise, Hrun.
Qed.

(** X15.  [calculate_implied_win_rates] fails in one way only, with
    [ZeroDivisionError], and it does fail whenever some match has a
    decimal odds equal to zero; when it returns, it returns one
    probability per match and no odds was zero.  An absent [matches] key
    gives the empty list. *)
Theorem implied_win_rates_fail_only_by_division_by_zero bookmaker_odds :
  let zero m :=
    (default 2 (team_a_odds m) == 0)%Q \/ (default 2 (team_b_odds m) == 0)%Q in
  (forall e, calculate_implied_win_rates bookmaker_odds = Raise e ->
             e = ZeroDivisionError)
  /\ (Exists zero (default [] bookmaker_odds) ->
      calculate_implied_win_rates bookmaker_odds = Raise ZeroDivisionError)
  /\ (forall probabilities,
        calculate_implied_win_rates bookmaker_odds = Ok probabilities ->
        length probabilities = length (default [] bookmaker_odds)
        /\ Forall (fun m => ~ zero m) (default [] bookmaker_odds))
  /\ calculate_implied_win_rates None = Ok [].
Proof.
  intros zero. unfold calculate_implied_win_rates.
  generalize (default [] bookmaker_odds). intros ms.
  split; [apply implied_win_rates_loop_raise|].
  split; [apply implied_win_rates_loop_zero|]. split; [|reflexivity].
  intros probs Hrun. split; [now apply implied_win_rates_loop_length|].
  apply Forall_forall. intros m Hm Hzero.
  assert (Hex : Exists zero ms).
  { apply Exists_exists. exists m. split; [exact Hm|exact Hzero]. }
  rewrite (implied_win_rates_loop_zero ms Hex) in Hrun. discriminate.
Qed.

(** * Further properties of the classifier *)

Lemma accumulate_favorites obs : forall acc,
  odds_ingestion.favorites (foldl odds_ingestion.accumulate acc obs)
  = odds_ingestion.favorites acc ++ (favourite_of <$> obs).
Proof.
  induction obs as [|o obs IH]; intros acc; simpl.
  - now rewrite app_nil_r.
  - rewrite IH. simpl. now rewrite <- app_assoc.
Qed.

Lemma classify_nonempty self first rest :
  let obs := first :: rest in
  let c := odds_ingestion._classify_single_match self obs in
  exists a b,
    odds_ingestion.consensus_team_a_prob c = Some a
    /\ odds_ingestion.consensus_team_b_prob c = Some b
    /\ (a == weighted_a obs / weight_sum obs)%Q
    /\ (b == weighted_b obs / weight_sum obs)%Q
    /\ odds_ingestion.implied_win_rate c = (if Qgtb a b then a else b)
    /\ odds_ingestion.consensus_favorite c
       = Some (if Qgtb a b then odds_ingestion.team_a first
               else odds_ingestion.team_b first)
    /\ odds_ingestion.is_safe c
       = Qgeb (odds_ingestion.implied_win_rate c)
              (odds_ingestion.safe_threshold self)
    /\ odds_ingestion.confidence c
       = (Qmin (odds_ingestion.implied_win_rate c)
               (1 - odds_ingestion.implied_win_rate c) * 2)%Q
    /\ odds_ingestion.source_agreement c
       = (inject_Z (Z.of_nat (odds_ingestion.most_common_count
                                (favourite_of <$> obs)))
          / inject_Z (Z.of_nat (length obs)))%Q
    /\ odds_ingestion.sources_count c = Some (length obs).
Proof.
  intros obs c.
  pose proof (weights_sum_pos obs ltac:(discriminate)) as Hpos.
  destruct (accumulate_sums obs
              {| odds_ingestion.weighted_team_a_prob := 0;
                 odds_ingestion.weighted_team_b_prob := 0;
                 odds_ingestion.total_weight := 0;
                 odds_ingestion.favorites := [] |}) as (Ha & Hb & Hw).
  pose proof (accumulate_favorites obs
              {| odds_ingestion.weighted_team_a_prob := 0;
                 odds_ingestion.weighted_team_b_prob := 0;
                 odds_ingestion.total_weight := 0;
                 odds_ingestion.favorites := [] |}) as Hfav.
  cbn [odds_ingestion.weighted_team_a_prob odds_ingestion.weighted_team_b_prob
       odds_ingestion.total_weight odds_ingestion.favorites app] in Ha, Hb, Hw, Hfav.
  rewrite Qplus_0_l in Ha, Hb, Hw.
  subst c. unfold odds_ingestion._classify_single_match. subst obs.
  set (acc := foldl odds_ingestion.accumulate _ (first :: rest)) in *.
  assert (Hgt : Qgtb (odds_ingestion.total_weight acc) 0 = true).
  { apply Qgtb_true. rewrite Hw. exact Hpos. }
  cbv zeta. rewrite Hgt, Hfav.
  cbn [odds_ingestion.consensus_team_a_prob odds_ingestion.consensus_team_b_prob
       odds_ingestion.implied_win_rate odds_ingestion.consensus_favorite
       odds_ingestion.is_safe odds_ingestion.confidence
       odds_ingestion.source_agreement odds_ingestion.sources_count].
  eexists _, _. split; [reflexivity|]. split; [reflexivity|].
  split; [unfold weighted_a, weight_sum; now rewrite Ha, Hw|].
  split; [unfold weighted_b, weight_sum; now rewrite Hb, Hw|].
  rewrite length_fmap. cbn [length Nat.eqb].
  repeat split; reflexivity.
Qed.

(** ** Agreement between the sources *)

Lemma count_of_le x xs : odds_ingestion.count_of x xs <= length xs.
Proof. apply List.filter_length_le. Qed.

Lemma count_of_full x xs :
  odds_ingestion.count_of x xs = length xs <-> Forall (fun y => y = x) xs.
Proof.
  unfold odds_ingestion.count_of. induction xs as [|y ys IH]; simpl.
  - split; [constructor|reflexivity].
  - case_bool_decide as Hy; simpl.
    + rewrite Forall_cons. split.
      * intros [= H]. split; [exact Hy|]. now apply IH.
      * intros [_ H]. f_equal. now apply IH.
    + split.
      * intros H. pose proof (List.filter_length_le
                                (fun y0 => bool_decide (y0 = x)) ys). lia.
      * intros [Hy' _]%Forall_cons. contradiction.
Qed.

Lemma most_common_count_max_list favs :
  odds_ingestion.most_common_count favs
  = max_list ((fun f => odds_ingestion.count_of f favs) <$> favs).
Proof.
  unfold odds_ingestion.most_common_count. now rewrite max_list_with_foldr.
Qed.

Lemma most_common_count_bounds favs :
  favs <> [] ->
  1 <= odds_ingestion.most_common_count favs
  /\ odds_ingestion.most_common_count favs <= length favs.
Proof.
  intros Hne. rewrite most_common_count_max_list. split.
  - destruct favs as [|f favs]; [contradiction|].
    etransitivity; [|apply max_list_elem_of_le, list_elem_of_fmap;
                     exists f; split; [reflexivity|apply list_elem_of_here]].
    unfold odds_ingestion.count_of. simpl.
    rewrite bool_decide_eq_true_2 by reflexivity. simpl. lia.
  - assert (Hin : max_list ((fun f => odds_ingestion.count_of f favs) <$> favs)
                  ∈ (fun f => odds_ingestion.count_of f favs) <$> favs).
    { apply max_list_elem_of. now destruct favs. }
    apply list_elem_of_fmap in Hin as (f & -> & _). apply count_of_le.
Qed.

Lemma most_common_count_full favs :
  favs <> [] ->
  odds_ingestion.most_common_count favs = length favs
  <-> forall x y, x ∈ favs -> y ∈ favs -> x = y.
Proof.
  intros Hne. rewrite most_common_count_max_list. split.
  - intros Hfull.
    assert (Hin : max_list ((fun f => odds_ingestion.count_of f favs) <$> favs)
                  ∈ (fun f => odds_ingestion.count_of f favs) <$> favs).
    { apply max_list_elem_of. now destruct favs. }
    rewrite Hfull in Hin. apply list_elem_of_fmap in Hin as (f & Hf & _).
    symmetry in Hf. apply count_of_full in Hf. rewrite Forall_forall in Hf.
    intros x y Hx Hy. now rewrite (Hf x Hx), (Hf y Hy).
  - intros Hsame. destruct favs as [|f favs]; [contradiction|].
    apply Nat.le_antisymm.
    + rewrite <- most_common_count_max_list.
      now apply most_common_count_bounds.
    + etransitivity; [|apply max_list_elem_of_le, list_elem_of_fmap;
                       exists f; split; [reflexivity|apply list_elem_of_here]].
      apply Nat.eq_le_incl. symmetry. apply count_of_full, Forall_forall.
      intros y Hy. apply Hsame; [exact Hy|apply list_elem_of_here].
Qed.

(** X18.  For n >= 1 observations the source agreement lies between 1/n
    and 1, and it equals 1 exactly when all observations favour the same
    team name (an observation favours its team A when it gives team A the
    strictly larger probability, and its team B otherwise). *)
Theorem source_agreement_is_one_only_when_all_sources_agree self obs :
  obs <> [] ->
  let c := odds_ingestion._classify_single_match self obs in
  (1 / inject_Z (Z.of_nat (length obs))
   <= odds_ingestion.source_agreement c)%Q
  /\ (odds_ingestion.source_agreement c <= 1)%Q
  /\ ((odds_ingestion.source_agreement c == 1)%Q
      <-> forall o o', o ∈ obs -> o' ∈ obs -> favourite_of o = favourite_of o').
Proof.
  intros Hne. destruct obs as [|first rest]; [contradiction|].
  destruct (classify_nonempty self first rest)
    as (a & b & _ & _ & _ & _ & _ & _ & _ & _ & Hagree & _).
  cbv zeta. rewrite Hagree.
  set (obs := first :: rest) in *.
  assert (Hfavs : favourite_of <$> obs <> []) by discriminate.
  destruct (most_common_count_bounds _ Hfavs) as [Hlo Hhi].
  pose proof (most_common_count_full _ Hfavs) as Hfull.
  rewrite length_fmap in Hhi, Hfull.
  set (k := odds_ingestion.most_common_count (favourite_of <$> obs)) in *.
  assert (Hlen : 1 <= length obs) by (simpl; lia).
  assert (Hn : (0 < inject_Z (Z.of_nat (length obs)))%Q).
  { change 0%Q with (inject_Z 0). rewrite <- Zlt_Qlt. lia. }
  assert (Hk1 : (1 <= inject_Z (Z.of_nat k))%Q).
  { change 1%Q with (inject_Z 1). rewrite <- Zle_Qle. lia. }
  assert (Hkn : (inject_Z (Z.of_nat k) <= inject_Z (Z.of_nat (length obs)))%Q).
  { rewrite <- Zle_Qle. lia. }
  split; [|split].
  - unfold Qdiv. apply Qmult_le_compat_r; [exact Hk1|].
    apply Qlt_le_weak, Qinv_lt_0_compat, Hn.
  - apply Qle_shift_div_r; [exact Hn|lra].
  - split.
    + intros Hone.
      assert (Hkeq : k = length obs).
      { assert (Heq : (inject_Z (Z.of_nat k) == inject_Z (Z.of_nat (length obs)))%Q).
        { rewrite <- (Qmult_1_l (inject_Z (Z.of_nat (length obs)))), <- Hone.
          field. lra. }
        apply (proj1 (inject_Z_injective _ _)) in Heq. lia. }
      intros o o' Ho Ho'. apply (proj1 Hfull Hkeq);
        apply list_elem_of_fmap; eauto.
    + intros Hsame.
      assert (Hkeq : k = length obs).
      { apply Hfull. intros x y (o & -> & Ho)%list_elem_of_fmap
                                (o' & -> & Ho')%list_elem_of_fmap.
        now apply Hsame. }
      rewrite Hkeq. field. lra.
Qed.

Lemma source_agreement_is_one_only_when_all_sources_agree_witness :
  let c := odds_ingestion._classify_single_match default_service
             [even_observation] in
  (1 / inject_Z (Z.of_nat (length [even_observation]))
   <= odds_ingestion.source_agreement c)%Q
  /\ (odds_ingestion.source_agreement c <= 1)%Q
  /\ ((odds_ingestion.source_agreement c == 1)%Q
      <-> forall o o', o ∈ [even_observation] -> o' ∈ [even_observation] ->
            favourite_of o = favourite_of o').
Proof.
  apply (source_agreement_is_one_only_when_all_sources_agree
           default_service [even_observation]).
  discriminate.
Defined.

(** ** The order of the observations *)

Lemma count_of_perm x xs ys :
  xs ≡ₚ ys -> odds_ingestion.count_of x xs = odds_ingestion.count_of x ys.
Proof.
  unfold odds_ingestion.count_of.
  induction 1 as [|z xs ys _ IH|y z xs|xs ys zs _ IH1 _ IH2]; simpl.
  - reflexivity.
  - destruct (bool_decide (z = x)); simpl; now rewrite IH.
  - destruct (bool_decide (y = x)), (bool_decide (z = x)); reflexivity.
  - now rewrite IH1.
Qed.

Lemma most_common_count_perm xs ys :
  xs ≡ₚ ys ->
  odds_ingestion.most_common_count xs = odds_ingestion.most_common_count ys.
Proof.
  intros Hperm. rewrite !most_common_count_max_list.
  assert (Heq : (fun f => odds_ingestion.count_of f xs) <$> xs
                = (fun f => odds_ingestion.count_of f ys) <$> xs).
  { apply list_fmap_ext. intros _ f _. now apply count_of_perm. }
  rewrite Heq. now rewrite Hperm.
Qed.

(** X19.  The source agreement and the source count of a classification do
    not depend on the order of the observations: they are the same for
    every reordering of the list. *)
Theorem source_agreement_ignores_the_order_of_observations self obs obs' :
  obs ≡ₚ obs' ->
  let c := odds_ingestion._classify_single_match self obs in
  let c' := odds_ingestion._classify_single_match self obs' in
  (odds_ingestion.source_agreement c == odds_ingestion.source_agreement c')%Q
  /\ odds_ingestion.sources_count c = odds_ingestion.sources_count c'.
Proof.
  intros Hperm.
  destruct obs as [|first rest].
  { apply Permutation_nil_l in Hperm. subst obs'. cbv zeta.
    split; reflexivity. }
  destruct obs' as [|first' rest'];
    [now apply Permutation_nil_r in Hperm|].
  destruct (classify_nonempty self first rest)
    as (a & b & _ & _ & _ & _ & _ & _ & _ & _ & Hagree & Hcount).
  destruct (classify_nonempty self first' rest')
    as (a' & b' & _ & _ & _ & _ & _ & _ & _ & _ & Hagree' & Hcount').
  cbv zeta. split.
  - rewrite Hagree, Hagree'.
    rewrite (most_common_count_perm _ _ (fmap_Permutation _ _ _ Hperm)).
    now rewrite (Permutation_length Hperm).
  - rewrite Hcount, Hcount'. now rewrite (Permutation_length Hperm).
Qed.

Lemma source_agreement_ignores_the_order_of_observations_witness :
  let o := {| odds_ingestion.match_id := "m0";
              odds_ingestion.team_a := "Alpha";
              odds_ingestion.team_b := "Beta";
              odds_ingestion.team_a_odds := (7 # 10)%Q;
              odds_ingestion.team_b_odds := (3 # 10)%Q;
              odds_ingestion.source := "bookmaker_consensus" |} in
  let c := odds_ingestion._classify_single_match default_service
             [even_observation; o] in
  let c' := odds_ingestion._classify_single_match default_service
              [o; even_observation] in
  (odds_ingestion.source_agreement c == odds_ingestion.source_agreement c')%Q
  /\ odds_ingestion.sources_count c = odds_ingestion.sources_count c'.
Proof.
  intros o.
  apply (source_agreement_ignores_the_order_of_observations default_service
           [even_observation; o] [o; even_observation]).
  apply perm_swap.
Defined.

(** ** The verdict and the consensus *)

(** X24.  For a non-empty list of observations the favoured-side
    probability is the larger of the two consensus probabilities.  When
    team A's consensus is strictly the larger, the favourite is team A as
    the first observation names it; otherwise, ties included, it is team B
    as the first observation names it.  The match is flagged safe exactly
    when the favoured-side probability is at least the service's
    threshold, and the source count is the number of observations. *)
Theorem verdict_follows_the_larger_consensus self obs first :
  head obs = Some first ->
  let c := odds_ingestion._classify_single_match self obs in
  exists a b,
    odds_ingestion.consensus_team_a_prob c = Some a
    /\ odds_ingestion.consensus_team_b_prob c = Some b
    /\ (a <= odds_ingestion.implied_win_rate c)%Q
    /\ (b <= odds_ingestion.implied_win_rate c)%Q
    /\ ((b < a)%Q ->
        odds_ingestion.implied_win_rate c = a
        /\ odds_ingestion.consensus_favorite c
           = Some (odds_ingestion.team_a first))
    /\ ((a <= b)%Q ->
        odds_ingestion.implied_win_rate c = b
        /\ odds_ingestion.consensus_favorite c
           = Some (odds_ingestion.team_b first))
    /\ (odds_ingestion.is_safe c = true
        <-> (odds_ingestion.safe_threshold self
             <= odds_ingestion.implied_win_rate c)%Q)
    /\ odds_ingestion.sources_count c = Some (length obs).
Proof.
  intros Hhead. destruct obs as [|o rest]; [discriminate|].
  injection Hhead as ->.
  destruct (classify_nonempty self first rest)
    as (a & b & Ha & Hb & _ & _ & Himp & Hfav & Hsafe & _ & _ & Hcount).
  cbv zeta. exists a, b.
  split; [exact Ha|]. split; [exact Hb|].
  rewrite Hsafe, Himp, Hfav, Hcount, Qgeb_true.
  destruct (Qgtb a b) eqn:Hcmp.
  - apply Qgtb_true in Hcmp.
    split; [lra|]. split; [lra|].
    split; [intros _; split; reflexivity|].
    split; [intros Hle; lra|]. split; reflexivity.
  - apply Qgtb_false in Hcmp.
    split; [lra|]. split; [lra|].
    split; [intros Hlt; lra|].
    split; [intros _; split; reflexivity|]. split; reflexivity.
Qed.

Lemma verdict_follows_the_larger_consensus_witness :
  let c := odds_ingestion._classify_single_match default_service
             [even_observation] in
  exists a b,
    odds_ingestion.consensus_team_a_prob c = Some a
    /\ odds_ingestion.consensus_team_b_prob c = Some b
    /\ (a <= odds_ingestion.implied_win_rate c)%Q
    /\ (b <= odds_ingestion.implied_win_rate c)%Q
    /\ ((b < a)%Q ->
        odds_ingestion.implied_win_rate c = a
        /\ odds_ingestion.consensus_favorite c
           = Some (odds_ingestion.team_a even_observation))
    /\ ((a <= b)%Q ->
        odds_ingestion.implied_win_rate c = b
        /\ odds_ingestion.consensus_favorite c
           = Some (odds_ingestion.team_b even_observation))
    /\ (odds_ingestion.is_safe c = true
        <-> (odds_ingestion.safe_threshold default_service
             <= odds_ingestion.implied_win_rate c)%Q)
    /\ odds_ingestion.sources_count c = Some (length [even_observation]).
Proof.
  apply (verdict_follows_the_larger_consensus default_service
           [even_observation] even_observation).
  reflexivity.
Defined.

(** ** [classify_matches] *)

Lemma group_fold_lookup m data : forall acc : gmap string (list odds_ingestion.OddsData),
  foldl (fun matches_odds odds =>
           <[odds_ingestion.match_id odds :=
               default [] (matches_odds !! odds_ingestion.match_id odds)
               ++ [odds]]> matches_odds) acc data !! m
  = match List.filter (fun o => bool_decide (odds_ingestion.match_id o = m))
            data with
    | [] => acc !! m
    | group => Some (default [] (acc !! m) ++ group)
    end.
Proof.
  induction data as [|o data IH]; intros acc; [reflexivity|].
  cbn [foldl List.filter]. rewrite IH. case_bool_decide as Hm.
  - subst m. rewrite lookup_insert_eq.
    destruct (List.filter _ data) as [|o' group]; simpl.
    + reflexivity.
    + now rewrite <- app_assoc.
  - now rewrite lookup_insert_ne by exact Hm.
Qed.

(** X20.  [classify_matches] has one entry per match identifier that
    occurs in the data; the entry of an identifier is the classification
    of exactly the observations carrying it, in their order of arrival,
    and it reports how many of them there are. *)
Theorem classify_matches_classifies_each_group self odds_data m :
  let group :=
    List.filter (fun o => bool_decide (odds_ingestion.match_id o = m))
      odds_data in
  odds_ingestion.classify_matches self odds_data !! m
  = (if bool_decide (group = []) then None
     else Some (odds_ingestion._classify_single_match self group))
  /\ (is_Some (odds_ingestion.classify_matches self odds_data !! m)
      <-> exists o, o ∈ odds_data /\ odds_ingestion.match_id o = m)
  /\ (forall c,
        odds_ingestion.classify_matches self odds_data !! m = Some c ->
        odds_ingestion.sources_count c = Some (length group)
        /\ 1 <= length group).
Proof.
  intros group.
  assert (Hlookup :
    odds_ingestion.classify_matches self odds_data !! m
    = (if bool_decide (group = []) then None
       else Some (odds_ingestion._classify_single_match self group))).
  { unfold odds_ingestion.classify_matches, odds_ingestion.group_by_match.
    rewrite lookup_fmap, group_fold_lookup. fold group.
    rewrite lookup_empty. destruct group; reflexivity. }
  split; [exact Hlookup|]. split.
  - rewrite Hlookup. split.
    + intros Hsome. destruct group as [|o group'] eqn:Hg.
      { destruct Hsome as [c Hc]. discriminate. }
      assert (Ho : o ∈ List.filter
                     (fun o => bool_decide (odds_ingestion.match_id o = m))
                     odds_data).
      { fold group. rewrite Hg. apply list_elem_of_here. }
      apply list_elem_of_In, List.filter_In in Ho as [Ho Hm].
      exists o. split; [now apply list_elem_of_In|].
      now apply bool_decide_eq_true in Hm.
    + intros (o & Ho & Hm).
      assert (Hin : o ∈ group).
      { apply list_elem_of_In, List.filter_In. split.
        - now apply list_elem_of_In.
        - now apply bool_decide_eq_true. }
      destruct group; [now apply elem_of_nil in Hin|]. eexists. reflexivity.
  - intros c. rewrite Hlookup. destruct group as [|o group']; [discriminate|].
    intros [= <-].
    destruct (classify_nonempty self o group')
      as (a & b & _ & _ & _ & _ & _ & _ & _ & _ & _ & Hcount).
    split; [exact Hcount|]. simpl. lia.
Qed.

(** ** The mock feed *)

Lemma mock_loop_spec match_ids todo : forall w,
  exists data,
    odds_ingestion.mock_loop match_ids todo w
    = (Ok data,
       {| rng_stream := rng_stream w;
          rng_pos := rng_pos w + 2 * length data;
          simulations_run := simulations_run w |})
    /\ Forall2 (fun o t =>
                  odds_ingestion.match_id o = t.1.1
                  /\ odds_ingestion.team_a o = t.1.2
                  /\ odds_ingestion.team_b o = t.2
                  /\ odds_ingestion.source o = "mock_data"
                  /\ ((odds_ingestion.team_a_odds o <= (2 # 5)
                       /\ (3 # 5) <= odds_ingestion.team_b_odds o)
                      \/ ((3 # 5) <= odds_ingestion.team_a_odds o
                          /\ odds_ingestion.team_b_odds o <= (2 # 5)))%Q)
         data
         (List.filter (fun t => odds_ingestion.requested match_ids t.1.1) todo).
Proof.
  induction todo as [|[[id a] b] todo IH]; intros w.
  - exists []. split; [|constructor]. cbn [odds_ingestion.mock_loop ret length].
    destruct w; simpl. do 2 f_equal. lia.
  - cbn [odds_ingestion.mock_loop List.filter fst snd].
    destruct (odds_ingestion.requested match_ids id) eqn:Hreq; cbn [negb].
    + unfold odds_ingestion.random_uniform, odds_ingestion.random_random,
        bind, ret. cbn [rng_stream rng_pos simulations_run].
      set (u := draw_val (rng_stream w (rng_pos w))).
      set (coin := draw_val (rng_stream w (S (rng_pos w)))).
      destruct (IH {| rng_stream := rng_stream w;
                      rng_pos := S (S (rng_pos w));
                      simulations_run := simulations_run w |})
        as (others & Hrun & Hall).
      rewrite Hrun. cbn [rng_stream rng_pos simulations_run].
      eexists (_ :: others). split.
      { f_equal. cbn [length]. f_equal. lia. }
      constructor; [|exact Hall].
      cbn [odds_ingestion.match_id odds_ingestion.team_a odds_ingestion.team_b
           odds_ingestion.source odds_ingestion.team_a_odds
           odds_ingestion.team_b_odds fst snd].
      do 4 (split; [reflexivity|]).
      destruct (draw_val_range (rng_stream w (rng_pos w))) as [Hu0 Hu1].
      fold u in Hu0, Hu1.
      destruct (Qgtb coin (1 # 2)); [right|left]; split; lra.
    + apply IH.
Qed.

(** X21.  [_fetch_mock_data] never fails.  It returns one observation for
    each requested match of its table, in the order of the table, with the
    identifier and the team names of the table, where [None] and the empty
    list request every match (nine observations).  Every observation is
    labelled [mock_data] and is decided: either team A has at most 0.4 and
    team B at least 0.6, or team A has at least 0.6 and team B at most
    0.4, so no mock match is even.  Two draws are consumed per
    observation. *)
Theorem mock_feed_gives_one_decided_observation_per_requested_match
    match_ids w :
  exists data,
    odds_ingestion._fetch_mock_data match_ids w
    = (Ok data,
       {| rng_stream := rng_stream w;
          rng_pos := rng_pos w + 2 * length data;
          simulations_run := simulations_run w |})
    /\ Forall2 (fun o t =>
                  odds_ingestion.match_id o = t.1.1
                  /\ odds_ingestion.team_a o = t.1.2
                  /\ odds_ingestion.team_b o = t.2
                  /\ odds_ingestion.source o = "mock_data"
                  /\ ((odds_ingestion.team_a_odds o <= (2 # 5)
                       /\ (3 # 5) <= odds_ingestion.team_b_odds o)
                      \/ ((3 # 5) <= odds_ingestion.team_a_odds o
                          /\ odds_ingestion.team_b_odds o <= (2 # 5)))%Q)
         data
         (List.filter (fun t => odds_ingestion.requested match_ids t.1.1)
            odds_ingestion.mock_matches)
    /\ (match_ids = None \/ match_ids = Some [] -> length data = 9).
Proof.
  destruct (mock_loop_spec match_ids odds_ingestion.mock_matches w)
    as (data & Hrun & Hall).
  exists data. split; [exact Hrun|]. split; [exact Hall|].
  intros Hevery. apply Forall2_length in Hall. rewrite Hall.
  destruct Hevery as [-> | ->]; reflexivity.
Qed.

(** * The scenario comparison *)

Lemma Qsum_drop_S xs : forall k,
  Forall (fun q => (0 <= q)%Q) xs ->
  (Qsum (drop (S k) xs) <= Qsum (drop k xs))%Q.
Proof.
  induction xs as [|x xs IH]; intros k Hnn.
  - rewrite !drop_nil. lra.
  - inversion Hnn as [|? ? Hx Hnn']; subst.
    destruct k as [|k].
    + rewrite drop_0. cbn [drop]. rewrite drop_0, Qsum_cons. lra.
    + cbn [drop]. now apply IH.
Qed.

Lemma scenario_loop_spec optimizer odds todo : forall i w,
  length odds <= 9 -> 1 <= num_simulations optimizer ->
  exists results w',
    optimization_routes.scenario_loop optimizer odds i todo w
    = (Ok results, w')
    /\ optimization_routes.result_picks <$> results
       = List.filter (fun picks => length picks =? length odds)
           ((fun sc => default [] (optimization_routes.picks sc)) <$> todo)
    /\ Forall sound_result results
    /\ Forall (fun r =>
                 exists k sc,
                   todo !! k = Some sc
                   /\ optimization_routes.result_picks r
                      = default [] (optimization_routes.picks sc)
                   /\ optimization_routes.scenario_name r
                      = default ("Scenario " +:+ pretty (i + k + 1))
                          (optimization_routes.name sc))
         results
    /\ simulations_run w' = simulations_run w + length results.
Proof.
  induction todo as [|sc todo IH]; intros i w H9 Hn.
  - exists [], w. split; [reflexivity|]. split; [reflexivity|].
    split; [constructor|]. split; [constructor|]. simpl. lia.
  - cbn [optimization_routes.scenario_loop fmap list_fmap List.filter].
    change (list_fmap _ _ ?f todo) with (f <$> todo).
    destruct (length (default [] (optimization_routes.picks sc))
              =? length odds) eqn:Hlen; cbn [negb].
    + apply Nat.eqb_eq in Hlen.
      destruct (monte_carlo_total optimizer odds
                  (optimization_routes.to_pick_vector
                     (default [] (optimization_routes.picks sc))) w)
        as (scores & dist & w1 & _ & Hsim & Hdl & _ & Hnn & Hsum);
        [unfold optimization_routes.to_pick_vector;
         rewrite length_fmap; lia|exact Hn|].
      pose proof (monte_carlo_counts optimizer odds
                    (optimization_routes.to_pick_vector
                       (default [] (optimization_routes.picks sc))) w) as Hc.
      rewrite Hsim in Hc. cbn [snd] in Hc.
      erewrite bind_ok by exact Hsim.
      destruct (IH (S i) w1 H9 Hn) as (rs & w' & Hrun & Hpicks & Hsound
                                       & Hnames & Hcount).
      erewrite bind_ok by exact Hrun.
      eexists (_ :: rs), w'. split; [reflexivity|].
      split; [rewrite fmap_cons, Hpicks; reflexivity|].
      split; [|split].
      * constructor; [|exact Hsound].
        unfold sound_result.
        cbn [optimization_routes.score_distribution
             optimization_routes.prob_7_plus optimization_routes.prob_5_plus
             optimization_routes.expected_score].
        unfold py_slice_from. cbn [Z.ltb Z.compare].
        change (Z.to_nat 7) with 7. change (Z.to_nat 5) with 5.
        pose proof (Qsum_drop_S dist 5 Hnn).
        pose proof (Qsum_drop_S dist 6 Hnn).
        assert (0 <= Qsum (drop 7 dist))%Q
          by (apply Qsum_nonneg, Forall_drop, Hnn).
        destruct (expected_score_bounds dist Hdl Hnn Hsum).
        repeat split; try assumption; lra.
      * constructor.
        { exists 0, sc. split; [reflexivity|]. split; [reflexivity|].
          cbn [optimization_routes.scenario_name]. now rewrite Nat.add_0_r. }
        eapply Forall_impl; [exact Hnames|].
        intros r (k & sc' & Hk & Hp & Hname). exists (S k), sc'.
        split; [exact Hk|]. split; [exact Hp|].
        rewrite Hname. do 3 f_equal. lia.
      * cbn [length]. lia.
    + destruct (IH (S i) w H9 Hn) as (rs & w' & Hrun & Hpicks & Hsound
                                      & Hnames & Hcount).
      exists rs, w'. split; [exact Hrun|]. split; [exact Hpicks|].
      split; [exact Hsound|]. split; [|exact Hcount].
      eapply Forall_impl; [exact Hnames|].
      intros r (k & sc' & Hk & Hp & Hname). exists (S k), sc'.
      split; [exact Hk|]. split; [exact Hp|].
      rewrite Hname. do 3 f_equal. lia.
Qed.

Lemma py_max_ge xs : forall x y,
  y ∈ x :: xs -> (y <= py_max x xs)%Q.
Proof.
  unfold py_max. induction xs as [|z xs IH]; intros x y Hy; cbn [foldl].
  - apply list_elem_of_singleton in Hy as ->. lra.
  - destruct (Qgtb z x) eqn:Hcmp.
    + apply Qgtb_true in Hcmp.
      apply elem_of_cons in Hy as [->|Hy].
      * specialize (IH z z (list_elem_of_here _ _)). lra.
      * apply IH. exact Hy.
    + apply Qgtb_false in Hcmp.
      apply elem_of_cons in Hy as [->|Hy]; [apply IH, list_elem_of_here|].
      apply elem_of_cons in Hy as [->|Hy].
      * specialize (IH x x (list_elem_of_here _ _)). lra.
      * apply IH. now apply list_elem_of_further.
Qed.

Lemma py_max_elem xs : forall x, py_max x xs ∈ x :: xs.
Proof.
  unfold py_max. induction xs as [|z xs IH]; intros x; cbn [foldl].
  - apply list_elem_of_here.
  - destruct (Qgtb z x).
    + apply list_elem_of_further, IH.
    + specialize (IH x). apply elem_of_cons in IH as [->|IH].
      * apply list_elem_of_here.
      * now do 2 apply list_elem_of_further.
Qed.

Lemma highest_spec key results :
  (forall r, r ∈ results -> (key r <= optimization_routes.highest key results)%Q)
  /\ match results with
     | [] => optimization_routes.highest key results = 0%Q
     | _ => optimization_routes.highest key results ∈ key <$> results
     end.
Proof.
  destruct results as [|r rs]; cbn [optimization_routes.highest].
  - split; [|reflexivity]. intros r Hr. now apply elem_of_nil in Hr.
  - split.
    + intros r' Hr'. apply py_max_ge. rewrite <- fmap_cons.
      now apply list_elem_of_fmap_2.
    + rewrite fmap_cons. apply py_max_elem.
Qed.

(** X22.  For a request with at least one scenario and between one and
    nine match probabilities, run with at least one trial per simulation,
    [simulate_scenarios] answers 200.  The reported scenarios are exactly
    those whose number of picks equals the number of matches (the others
    are dropped silently), listed by expected score in descending order;
    [best_scenario] is the first of them; the two comparison metrics bound
    the respective value of every reported scenario and are attained by
    one of them (0 when none is reported); every reported distribution has
    ten entries, with 0 <= P(7+) <= P(5+) and an expected score between 0
    and 9; every reported scenario carries the picks of
    a scenario of the request and its name, or [Scenario k+1] for the
    unnamed scenario at position k of the request (dropped scenarios are
    counted); and one simulation is run per reported scenario. *)
Theorem simulate_scenarios_compares_the_scenarios_of_matching_length
    optimizer data w :
  let scs := default [] (optimization_routes.scenarios data) in
  let odds := default [] (optimization_routes.match_odds data) in
  scs <> [] -> 1 <= length odds -> length odds <= 9 ->
  1 <= num_simulations optimizer ->
  exists results highest_score highest_prob w',
    optimization_routes.simulate_scenarios optimizer data w
    = (optimization_routes.success results (head results)
         highest_score highest_prob, w')
    /\ optimization_routes.result_picks <$> results
       ≡ₚ List.filter (fun picks => length picks =? length odds)
            ((fun sc => default [] (optimization_routes.picks sc)) <$> scs)
    /\ StronglySorted
         (fun r r' => (optimization_routes.expected_score r'
                       <= optimization_routes.expected_score r)%Q) results
    /\ Forall sound_result results
    /\ Forall (fun r =>
                 exists k sc,
                   scs !! k = Some sc
                   /\ optimization_routes.result_picks r
                      = default [] (optimization_routes.picks sc)
                   /\ optimization_routes.scenario_name r
                      = default ("Scenario " +:+ pretty (k + 1))
                          (optimization_routes.name sc))
         results
    /\ Forall (fun r =>
                 (optimization_routes.expected_score r <= highest_score)%Q
                 /\ (optimization_routes.prob_5_plus r <= highest_prob)%Q)
         results
    /\ match results with
       | [] => highest_score = 0%Q /\ highest_prob = 0%Q
       | best :: _ =>
           highest_score ∈ optimization_routes.expected_score <$> results
           /\ (highest_score == optimization_routes.expected_score best)%Q
           /\ highest_prob ∈ optimization_routes.prob_5_plus <$> results
       end
    /\ simulations_run w' = simulations_run w + length results.
Proof.
  intros scs odds Hscs Hodds1 Hodds9 Hn.
  destruct (scenario_loop_spec optimizer odds scs 0 w Hodds9 Hn)
    as (rs & w' & Hrun & Hpicks & Hsound & Hnames & Hcount).
  set (results := sorted_desc optimization_routes.expected_score rs).
  pose proof (sorted_desc_perm optimization_routes.expected_score rs) as Hperm.
  fold results in Hperm.
  exists results,
    (optimization_routes.highest optimization_routes.expected_score results),
    (optimization_routes.highest optimization_routes.prob_5_plus results), w'.
  split.
  { unfold optimization_routes.simulate_scenarios. fold scs odds.
    rewrite bool_decide_eq_false_2 by exact Hscs.
    destruct (Nat.eqb_spec (length odds) 0) as [H0|_]; [lia|].
    cbn [orb]. now rewrite Hrun. }
  split; [now rewrite Hperm, Hpicks|].
  pose proof (sorted_desc_sorted optimization_routes.expected_score rs)
    as Hsorted. fold results in Hsorted.
  split; [exact Hsorted|].
  split; [now rewrite Hperm|].
  split; [now rewrite Hperm|].
  destruct (highest_spec optimization_routes.expected_score results)
    as [Hge Hin].
  destruct (highest_spec optimization_routes.prob_5_plus results)
    as [Hge5 Hin5].
  split.
  { apply Forall_forall. intros r Hr. split; [now apply Hge|now apply Hge5]. }
  split; [|now rewrite (Permutation_length Hperm)].
  destruct results as [|best rest] eqn:Hres; [now split|].
  split; [exact Hin|]. split; [|exact Hin5].
  apply Qle_antisym; [|apply Hge, list_elem_of_here].
  apply list_elem_of_fmap in Hin as (r & -> & Hr).
  apply elem_of_cons in Hr as [->|Hr]; [lra|].
  inversion Hsorted as [|? ? _ Hall]; subst.
  rewrite Forall_forall in Hall. now apply Hall.
Qed.

Lemma simulate_scenarios_compares_the_scenarios_of_matching_length_witness :
  let data :=
    {| optimization_routes.scenarios :=
         Some [ {| optimization_routes.name := None;
                   optimization_routes.picks := Some ["team_b"; "team_a"] |};
                {| optimization_routes.name := Some "short";
                   optimization_routes.picks := Some ["team_a"] |};
                {| optimization_routes.name := Some "favourites";
                   optimization_routes.picks := Some ["team_a"; "team_b"] |} ];
       optimization_routes.match_odds := Some [1%Q; 0%Q];
       optimization_routes.num_simulations := None |} in
  let scs := default [] (optimization_routes.scenarios data) in
  let odds := default [] (optimization_routes.match_odds data) in
  exists results highest_score highest_prob w',
    optimization_routes.simulate_scenarios one_trial data world0
    = (optimization_routes.success results (head results)
         highest_score highest_prob, w')
    /\ optimization_routes.result_picks <$> results
       ≡ₚ List.filter (fun picks => length picks =? length odds)
            ((fun sc => default [] (optimization_routes.picks sc)) <$> scs)
    /\ StronglySorted
         (fun r r' => (optimization_routes.expected_score r'
                       <= optimization_routes.expected_score r)%Q) results
    /\ Forall sound_result results
    /\ Forall (fun r =>
                 exists k sc,
                   scs !! k = Some sc
                   /\ optimization_routes.result_picks r
                      = default [] (optimization_routes.picks sc)
                   /\ optimization_routes.scenario_name r
                      = default ("Scenario " +:+ pretty (k + 1))
                          (optimization_routes.name sc))
         results
    /\ Forall (fun r =>
                 (optimization_routes.expected_score r <= highest_score)%Q
                 /\ (optimization_routes.prob_5_plus r <= highest_prob)%Q)
         results
    /\ match results with
       | [] => highest_score = 0%Q /\ highest_prob = 0%Q
       | best :: _ =>
           highest_score ∈ optimization_routes.expected_score <$> results
           /\ (highest_score == optimization_routes.expected_score best)%Q
           /\ highest_prob ∈ optimization_routes.prob_5_plus <$> results
       end
    /\ simulations_run w' = simulations_run world0 + length results.
Proof.
  intros data scs odds.
  apply (simulate_scenarios_compares_the_scenarios_of_matching_length
           one_trial data world0).
  - discriminate.
  - simpl. lia.
  - simpl. lia.
  - simpl. lia.
Defined.

Lemma scenario_loop_none optimizer odds todo : forall i w,
  Forall (fun sc => length (default [] (optimization_routes.picks sc))
                    <> length odds) todo ->
  optimization_routes.scenario_loop optimizer odds i todo w = (Ok [], w).
Proof.
  induction todo as [|sc todo IH]; intros i w Hall; [reflexivity|].
  inversion Hall as [|? ? Hsc Hall']; subst.
  cbn [optimization_routes.scenario_loop].
  destruct (Nat.eqb_spec (length (default [] (optimization_routes.picks sc)))
              (length odds)) as [Heq|_]; [contradiction|].
  cbn [negb]. now apply IH.
Qed.

(** X23.  [simulate_scenarios] answers 400, without running a simulation
    or consuming a draw, exactly when the request has no scenario or no
    match probability.  A request that has both but no scenario with as
    many picks as there are matches is answered 200 with an empty
    comparison: no scenarios, no best scenario, both metrics 0, and again
    nothing simulated.  The [num_simulations] of the request does not
    influence the response. *)
Theorem simulate_scenarios_without_a_usable_scenario optimizer data w :
  let scs := default [] (optimization_routes.scenarios data) in
  let odds := default [] (optimization_routes.match_odds data) in
  ((scs = [] \/ odds = []) <->
   optimization_routes.simulate_scenarios optimizer data w
   = (optimization_routes.bad_request
        "scenarios and match_odds are required", w))
  /\ ((exists e, (optimization_routes.simulate_scenarios optimizer data w).1
                 = optimization_routes.bad_request e)
      -> scs = [] \/ odds = [])
  /\ (scs <> [] -> odds <> [] ->
      Forall (fun sc => length (default [] (optimization_routes.picks sc))
                        <> length odds) scs ->
      optimization_routes.simulate_scenarios optimizer data w
      = (optimization_routes.success [] None 0 0, w))
  /\ (forall n,
        optimization_routes.simulate_scenarios optimizer
          {| optimization_routes.scenarios :=
               optimization_routes.scenarios data;
             optimization_routes.match_odds :=
               optimization_routes.match_odds data;
             optimization_routes.num_simulations := n |} w
        = optimization_routes.simulate_scenarios optimizer data w).
Proof.
  intros scs odds.
  assert (Hbad : forall e,
            (optimization_routes.simulate_scenarios optimizer data w).1
            = optimization_routes.bad_request e ->
            scs = [] \/ odds = []).
  { intros e. unfold optimization_routes.simulate_scenarios. fold scs odds.
    case_bool_decide as Hscs; [now left|].
    destruct (Nat.eqb_spec (length odds) 0) as [H0|_].
    { right. now destruct odds. }
    cbn [orb].
    destruct (optimization_routes.scenario_loop optimizer odds 0 scs w)
      as [[rs|e'] w']; discriminate. }
  split; [split|split; [|split]].
  - intros Hempty. unfold optimization_routes.simulate_scenarios.
    fold scs odds. destruct Hempty as [-> | ->]; [reflexivity|].
    now rewrite orb_true_r.
  - intros Heq. apply (Hbad "scenarios and match_odds are required").
    now rewrite Heq.
  - intros [e He]. exact (Hbad e He).
  - intros Hscs Hodds Hall.
    unfold optimization_routes.simulate_scenarios. fold scs odds.
    rewrite bool_decide_eq_false_2 by exact Hscs.
    destruct (Nat.eqb_spec (length odds) 0) as [H0|_];
      [now destruct odds|].
    cbn [orb]. now rewrite scenario_loop_none.
  - reflexivity.
Qed.
